(** * Cross-zone version reconciliation of ceph-rgw-multisite-ui

    A shallow embedding of [backend/s3_utils.py] and of the
    [/consistency/check] route of [backend/app.py], followed by the
    properties of the reconciliation report.

    Python values are modelled as follows.
    - A dict read with [.get] gives [option]: [None] stands for a key that is
      absent or bound to Python's [None].  Where the code distinguishes the
      two (the [Message] of an error response, the ["error"] key of a zone
      record) the three-valued [lookup] is used.
    - An exception is a value of [exn]; code that may raise returns
      [result].  Only [ClientError] is caught by the route.
    - A [dict] keyed by zone name keeps Python's insertion order: it is an
      association list in which assigning to an existing key replaces the
      value in place. *)

From Stdlib Require Import List String Ascii ZArith Bool Lia.
From Stdlib Require Import Permutation Sorted.
From Stdlib Require DecimalString.
Import ListNotations.

Local Open Scope list_scope.

(** ** Python preliminaries *)

(** Reading a string-valued key of a dict whose absence matters. *)
Inductive lookup : Type :=
| KeyAbsent
| IsNone
| IsStr (s : string).

(** [e.response] of a botocore [ClientError]: a dict that may hold an
    ["Error"] dict, which may hold a ["Message"]. *)
Record error_dict : Type := { Message : lookup }.
Record error_response : Type := { Error : option error_dict }.

Inductive exn : Type :=
| HTTPException (status_code : Z) (detail : string)
| ClientError (response : error_response)
| TypeError
| OtherException (name : string).

Inductive result (A : Type) : Type :=
| Return (a : A)
| Raise (e : exn).
Arguments Return {A} a.
Arguments Raise {A} e.

Definition bind {A B : Type} (m : result A) (k : A -> result B) : result B :=
  match m with
  | Return a => k a
  | Raise e => Raise e
  end.

Notation "x <- m ;; k" := (bind m (fun x => k))
  (at level 61, m at next level, right associativity).

(** [try: body except ClientError as e: handler(e)] *)
Definition try_except_ClientError {A : Type}
    (body : result A) (handler : error_response -> result A) : result A :=
  match body with
  | Raise (ClientError response) => handler response
  | other => other
  end.

(** Truthiness of a [str] and of an [Optional[str]]. *)
Definition truthy_str (s : string) : bool := negb (String.eqb s EmptyString).

Definition truthy (v : option string) : bool :=
  match v with
  | Some s => truthy_str s
  | None => false
  end.

(** [a or b] on [Optional[str]]. *)
Definition py_or (a b : option string) : option string :=
  if truthy a then a else b.

(** [xs or []] *)
Definition or_empty {A : Type} (xs : option (list A)) : list A :=
  match xs with
  | Some l => l
  | None => []
  end.

(** [s.strip(c)]: every leading and every trailing [c] is removed. *)
Fixpoint lstrip (c : ascii) (s : string) : string :=
  match s with
  | EmptyString => EmptyString
  | String a s' => if Ascii.eqb a c then lstrip c s' else s
  end.

Fixpoint rstrip (c : ascii) (s : string) : string :=
  match s with
  | EmptyString => EmptyString
  | String a s' =>
      let r := rstrip c s' in
      if (Ascii.eqb a c && String.eqb r EmptyString)%bool
      then EmptyString
      else String a r
  end.

Definition strip (c : ascii) (s : string) : string := rstrip c (lstrip c s).

Definition quote_char : ascii := Ascii.ascii_of_nat 34.

(** ** datetime

    The store's timestamps are timezone-aware and in UTC.  A [datetime] is
    its whole seconds since the epoch, which stand for the fields from year
    to second, and its [microsecond] field. *)
Record datetime : Type := { second : Z; microsecond : Z }.

(** [dt.replace(microsecond=0)] *)
Definition replace_microsecond0 (dt : datetime) : datetime :=
  {| second := second dt; microsecond := 0 |}.

(** [a < b] on datetimes *)
Definition dt_ltb (a b : datetime) : bool :=
  ((second a <? second b)
   || ((second a =? second b) && (microsecond a <? microsecond b)))%Z%bool.

Definition dt_eqb (a b : datetime) : bool :=
  ((second a =? second b) && (microsecond a =? microsecond b))%Z%bool.

(** The text produced by [dt.isoformat()].  The rendering is injective, so
    the text is represented by the datetime it renders and two texts are
    compared through [dt_eqb]. *)
Inductive iso_string : Type :=
| isoformat (dt : datetime).

Definition iso_eqb (a b : iso_string) : bool :=
  match a, b with
  | isoformat x, isoformat y => dt_eqb x y
  end.

(** [a == b] on [Optional[str]] holding ISO texts *)
Definition opt_iso_eqb (a b : option iso_string) : bool :=
  match a, b with
  | Some x, Some y => iso_eqb x y
  | None, None => true
  | _, _ => false
  end.

(** [a < b] and [a > b] on values that are a datetime or [None]: comparing
    with [None] raises [TypeError]. *)
Definition py_lt (a b : option datetime) : result bool :=
  match a, b with
  | Some x, Some y => Return (dt_ltb x y)
  | _, _ => Raise TypeError
  end.

Definition py_gt (a b : option datetime) : result bool := py_lt b a.

(** [sorted(l, key=key, reverse=True)]: a stable sort in descending order,
    so elements with equal keys keep their original order. *)
Fixpoint insert_desc {A : Type} (key : A -> option datetime) (x : A) (l : list A)
  : result (list A) :=
  match l with
  | [] => Return [x]
  | y :: ys =>
      b <- py_lt (key x) (key y) ;;
      if b then (r <- insert_desc key x ys ;; Return (y :: r))
      else Return (x :: y :: ys)
  end.

Fixpoint sorted_reverse {A : Type} (key : A -> option datetime) (l : list A)
  : result (list A) :=
  match l with
  | [] => Return []
  | x :: xs => s <- sorted_reverse key xs ;; insert_desc key x s
  end.

(** [max(first :: rest, key=key)]: the first element whose key is maximal. *)
Fixpoint max_from {A : Type} (key : A -> option datetime) (best : A) (rest : list A)
  : result A :=
  match rest with
  | [] => Return best
  | item :: tl =>
      b <- py_gt (key item) (key best) ;;
      max_from key (if b then item else best) tl
  end.

(** An insertion-ordered [dict]. *)
Definition dict (V : Type) : Type := list (string * V).

Fixpoint dict_get {V : Type} (k : string) (d : dict V) : option V :=
  match d with
  | [] => None
  | (k', v) :: d' => if String.eqb k' k then Some v else dict_get k d'
  end.

Fixpoint dict_set {V : Type} (k : string) (v : V) (d : dict V) : dict V :=
  match d with
  | [] => [(k, v)]
  | (k', v') :: d' =>
      if String.eqb k' k then (k', v) :: d' else (k', v') :: dict_set k v d'
  end.

(** ** Records of the store and of the report *)

(** One element of the store's ["Versions"] or ["DeleteMarkers"] list. *)
Record raw_record : Type := {
  Key : option string;
  VersionId : option string;
  ETag : option string;
  LastModified : option datetime;
  Size : option Z;
  IsLatest : option bool
}.

(** A record after the route has added ['IsDeleteMarker'] to it. *)
Record entry : Type := {
  record : raw_record;
  IsDeleteMarker : bool
}.

Definition tag (is_delete_marker : bool) (r : raw_record) : entry :=
  {| record := r; IsDeleteMarker := is_delete_marker |}.

Definition entry_LastModified (e : entry) : option datetime :=
  LastModified (record e).

(** The response of [list_object_versions]. *)
Record versions_response : Type := {
  Versions : option (list raw_record);
  DeleteMarkers : option (list raw_record)
}.

Inductive entry_type : Type := Version | DeleteMarker.

Definition entry_type_eqb (a b : entry_type) : bool :=
  match a, b with
  | Version, Version | DeleteMarker, DeleteMarker => true
  | _, _ => false
  end.

(** The dict built by [entry_to_brief]. *)
Record brief : Type := {
  type : entry_type;
  version_id : option string;
  etag : option string;
  last_modified : option iso_string;
  size : option Z;
  is_latest : bool
}.

(** A value of the [per_zone] dict. *)
Record zone_info : Type := {
  zi_zone : string;
  zi_error : lookup;
  zi_latest : option brief
}.

(** [info.get("error")] *)
Definition get_error (info : zone_info) : option string :=
  match zi_error info with
  | IsStr s => Some s
  | _ => None
  end.

Inductive zone_state : Type := Unknown | Latest | Missing | Outdated.

(** An element of [per_zone_list]; [pz_error] is [None] when the element has
    no ["error"] key. *)
Record zone_row : Type := {
  pz_zone : string;
  pz_state : zone_state;
  pz_latest : option brief;
  pz_error : option string
}.

Record report : Type := {
  consistent : bool;
  per_zone : list zone_row;
  recommended_download_zone : option string;
  current_zone_latest_is_delete_marker : bool
}.

(** ** s3_utils.py *)

Definition format_datetime_iso (dt : option datetime) : option iso_string :=
  match dt with
  | None => None
  | Some d => Some (isoformat (replace_microsecond0 d))
  end.

Fixpoint find_zone_url (S3_ZONES : list (string * string)) (name : string)
  : result string :=
  match S3_ZONES with
  | [] => Raise (HTTPException 404 ("Zone '" ++ name ++ "' not found"))
  | (n, u) :: rest => if String.eqb n name then Return u else find_zone_url rest name
  end.

Definition latest_entry_for_key (versions : list entry) : result (option entry) :=
  match versions with
  | [] => Return None
  | _ :: _ =>
      ordered <- sorted_reverse entry_LastModified versions ;;
      Return (hd_error ordered)
  end.

Definition entry_to_brief (e : option entry) : option brief :=
  match e with
  | None => None
  | Some e =>
      Some {| type := if IsDeleteMarker e then DeleteMarker else Version;
              version_id := VersionId (record e);
              etag := if truthy (ETag (record e))
                      then option_map (strip quote_char) (ETag (record e))
                      else None;
              last_modified := format_datetime_iso (LastModified (record e));
              size := Size (record e);
              is_latest := match IsLatest (record e) with
                           | Some b => b
                           | None => false
                           end |}
  end.

Definition is_valid_candidate (ignore_delete_markers : bool) (c : string * entry) : bool :=
  (negb (ignore_delete_markers && IsDeleteMarker (snd c))
   && match entry_LastModified (snd c) with Some _ => true | None => false end)%bool.

Definition find_best_version
    (candidates : list (string * entry)) (ignore_delete_markers : bool)
  : result (option (string * entry)) :=
  let valid_candidates := filter (is_valid_candidate ignore_delete_markers) candidates in
  match valid_candidates with
  | [] => Return None
  | first :: rest =>
      best <- max_from (fun item => entry_LastModified (snd item)) first rest ;;
      Return (Some best)
  end.

(** ** app.py: the [/consistency/check] route *)

Section ConsistencyCheck.

(** [config.S3_ZONES]: the ordered (name, endpoint) pairs. *)
Variable S3_ZONES : list (string * string).

(** [config.DEFAULT_BUCKET] *)
Variable DEFAULT_BUCKET : option string.

(** [get_s3_client(zone_url).list_object_versions(Bucket=.., Prefix=..)]:
    the object-store client, external to the route. *)
Variable list_object_versions : string -> string -> string -> result versions_response.

(** The records of a response that the route keeps (lines 132-138): both
    lists tagged and concatenated, then filtered on the exact key. *)
Definition key_matches (key : string) (v : entry) : bool :=
  match Key (record v) with
  | Some k => String.eqb k key
  | None => false
  end.

Definition versions_for_key (key : string) (resp : versions_response) : list entry :=
  let obj_versions := map (tag false) (or_empty (Versions resp)) in
  let del_markers := map (tag true) (or_empty (DeleteMarkers resp)) in
  let versions := obj_versions ++ del_markers in
  filter (key_matches key) versions.

(** [e.response.get("Error", {}).get("Message", "S3 Error")] *)
Definition error_message (response : error_response) : lookup :=
  match Error response with
  | None => IsStr "S3 Error"
  | Some d =>
      match Message d with
      | KeyAbsent => IsStr "S3 Error"
      | v => v
      end
  end.

(** One iteration of the loop over [S3_ZONES] (app.py, lines 125-149).  The
    [try] covers the call, the filter, the selection of the latest entry and
    the assignment to [per_zone]. *)
Definition fetch_zone (bkt key : string)
    (acc : dict zone_info * list (string * entry)) (z : string * string)
  : result (dict zone_info * list (string * entry)) :=
  let per_zone := fst acc in
  let latest_candidates := snd acc in
  let zone_name := fst z in
  let zone_url := snd z in
  try_except_ClientError
    (resp <- list_object_versions zone_url bkt key ;;
     let versions := versions_for_key key resp in
     latest <- latest_entry_for_key versions ;;
     Return (dict_set zone_name
               {| zi_zone := zone_name;
                  zi_error := KeyAbsent;
                  zi_latest := entry_to_brief latest |} per_zone,
             match latest with
             | Some l => latest_candidates ++ [(zone_name, l)]
             | None => latest_candidates
             end))
    (fun response =>
       Return (dict_set zone_name
                 {| zi_zone := zone_name;
                    zi_error := error_message response;
                    zi_latest := None |} per_zone,
               latest_candidates)).

Fixpoint fetch_zones (bkt key : string)
    (acc : dict zone_info * list (string * entry)) (zones : list (string * string))
  : result (dict zone_info * list (string * entry)) :=
  match zones with
  | [] => Return acc
  | z :: rest => acc' <- fetch_zone bkt key acc z ;; fetch_zones bkt key acc' rest
  end.

(** The state of one zone relative to the global latest (lines 170-181). *)
Definition classify (global_latest_is_delete : bool)
    (comparator_ts : option iso_string) (info : zone_info) : zone_state :=
  let latest := zi_latest info in
  if truthy (get_error info) then Unknown
  else match latest with
       | None => if global_latest_is_delete then Latest else Missing
       | Some b =>
           match comparator_ts with
           | Some _ =>
               if opt_iso_eqb (last_modified b) comparator_ts then Latest else Outdated
           | None => Outdated
           end
       end.

Definition zone_row_of (global_latest_is_delete : bool)
    (comparator_ts : option iso_string) (item : string * zone_info) : zone_row :=
  let zname := fst item in
  let info := snd item in
  {| pz_zone := zname;
     pz_state := classify global_latest_is_delete comparator_ts info;
     pz_latest := zi_latest info;
     pz_error := if truthy (get_error info) then get_error info else None |}.

(** The ETag a row contributes to the consistency verdict, if any
    (lines 193-196). *)
Definition row_etag (pz : zone_row) : list string :=
  match pz_latest pz with
  | Some lt =>
      if (negb (entry_type_eqb (type lt) DeleteMarker) && truthy (etag lt))%bool
      then match etag lt with Some s => [s] | None => [] end
      else []
  | None => []
  end.

Definition has_error_key (pz : zone_row) : bool :=
  match pz_error pz with
  | Some _ => true
  | None => false
  end.

(** [len(set(etags))] *)
Definition distinct_count (etags : list string) : nat :=
  List.length (nodup string_dec etags).

(** The str held by a truthy [Optional[str]]. *)
Definition bucket_name (bkt : option string) : string :=
  match bkt with
  | Some b => b
  | None => EmptyString
  end.

(** [bool(global_latest_entry and global_latest_entry.get("IsDeleteMarker"))] *)
Definition is_delete_marker_entry (global_latest_entry : option entry) : bool :=
  match global_latest_entry with
  | Some e => IsDeleteMarker e
  | None => false
  end.

(** [comparator_ts] (lines 165-167): the timestamp text every zone is
    compared with, that of the global latest when there is one and it has a
    [LastModified]. *)
Definition comparator_of (global_latest_entry : option entry) : option iso_string :=
  match global_latest_entry with
  | Some e =>
      match entry_LastModified e with
      | Some _ => format_datetime_iso (entry_LastModified e)
      | None => None
      end
  | None => None
  end.

(** The route after its loop (lines 153-204): from the [per_zone] dict, the
    global latest and the recommended download to the response. *)
Definition build_response (per_zone : dict zone_info)
    (global_latest recommended_download : option (string * entry))
    (currentZone : string) : report :=
  let global_latest_entry := option_map snd global_latest in
  let global_latest_is_delete := is_delete_marker_entry global_latest_entry in
  let recommended_download_zone := option_map fst recommended_download in
  let current_zone_info := dict_get currentZone per_zone in
  let current_latest :=
    match current_zone_info with
    | Some info => zi_latest info
    | None => None
    end in
  let current_zone_latest_is_delete_marker :=
    match current_latest with
    | Some b => entry_type_eqb (type b) DeleteMarker
    | None => false
    end in
  let comparator_ts := comparator_of global_latest_entry in
  let per_zone_list := map (zone_row_of global_latest_is_delete comparator_ts) per_zone in
  let any_error := existsb has_error_key per_zone_list in
  let etags := flat_map row_etag per_zone_list in
  let consistent :=
    ((0 <? List.length etags)%nat && (distinct_count etags =? 1)%nat && negb any_error)%bool in
  {| consistent := consistent;
     per_zone := per_zone_list;
     recommended_download_zone := recommended_download_zone;
     current_zone_latest_is_delete_marker := current_zone_latest_is_delete_marker |}.

Definition consistency_check (key currentZone : string) (bucket : option string)
  : result report :=
  let bkt := py_or bucket DEFAULT_BUCKET in
  if negb (truthy bkt)
  then Raise (HTTPException 400 "Missing 'bucket' and no BUCKET default set.")
  else
    fetched <- fetch_zones (bucket_name bkt) key ([], []) S3_ZONES ;;
    global_latest <- find_best_version (snd fetched) false ;;
    recommended_download <- find_best_version (snd fetched) true ;;
    Return (build_response (fst fetched) global_latest recommended_download currentZone).

End ConsistencyCheck.

(** * Notions used to state the properties *)

(** [x]'s key is strictly below [y]'s. *)
Definition key_lt {A : Type} (key : A -> option datetime) (x y : A) : Prop :=
  match key x, key y with
  | Some a, Some b => dt_ltb a b = true
  | _, _ => False
  end.

(** [y]'s key is not above [x]'s. *)
Definition key_not_above {A : Type} (key : A -> option datetime) (x y : A) : Prop :=
  match key x, key y with
  | Some a, Some b => dt_ltb a b = false
  | _, _ => False
  end.

(** [g] is what a selection over [candidates] must return: [None] exactly
    when no candidate is valid; otherwise the first valid candidate, in list
    order, whose [LastModified] is maximal among the valid candidates. *)
Definition best_of (ignore_delete_markers : bool)
    (candidates : list (string * entry)) (g : option (string * entry)) : Prop :=
  match g with
  | None => forall c, In c candidates -> is_valid_candidate ignore_delete_markers c = false
  | Some m =>
      exists pre post t,
        candidates = pre ++ m :: post /\
        is_valid_candidate ignore_delete_markers m = true /\
        entry_LastModified (snd m) = Some t /\
        (forall c t', In c pre -> is_valid_candidate ignore_delete_markers c = true ->
                      entry_LastModified (snd c) = Some t' -> dt_ltb t' t = true) /\
        (forall c t', In c post -> is_valid_candidate ignore_delete_markers c = true ->
                      entry_LastModified (snd c) = Some t' -> dt_ltb t t' = false)
  end.

(** The raw records of a response that carry exactly the requested key, list
    by list. *)
Definition record_has_key (key : string) (r : raw_record) : bool :=
  match Key r with
  | Some k => String.eqb k key
  | None => false
  end.

Definition exact_records (key : string) (resp : versions_response)
  : list raw_record * list raw_record :=
  (filter (record_has_key key) (or_empty (Versions resp)),
   filter (record_has_key key) (or_empty (DeleteMarkers resp))).

(** Two outcomes of the store call that differ at most in records of other
    keys. *)
Definition same_records_for_key (key : string)
    (a b : result versions_response) : Prop :=
  match a, b with
  | Return ra, Return rb => exact_records key ra = exact_records key rb
  | Raise ea, Raise eb => ea = eb
  | _, _ => False
  end.

(** The report with its flag on the current zone replaced. *)
Definition with_current_flag (flag : bool) (r : report) : report :=
  {| consistent := consistent r;
     per_zone := per_zone r;
     recommended_download_zone := recommended_download_zone r;
     current_zone_latest_is_delete_marker := flag |}.

Definition result_map {A B : Type} (f : A -> B) (m : result A) : result B :=
  match m with
  | Return a => Return (f a)
  | Raise e => Raise e
  end.

(** The ETags that enter the consistency verdict. *)
Definition carried_etags (r : report) : list string :=
  flat_map row_etag (per_zone r).

(** The keys of a dict after assigning to the names of [l] in turn: each
    name once, at the place of its first occurrence. *)
Definition add_name (names : list string) (k : string) : list string :=
  if existsb (String.eqb k) names then names else names ++ [k].

Definition distinct_names (l : list string) : list string :=
  fold_left add_name l [].

Section Observations.

Variable S3_ZONES : list (string * string).
Variable DEFAULT_BUCKET : option string.
Variable list_object_versions : string -> string -> string -> result versions_response.

(** The bucket that the route passes to the store. *)
Definition target_bucket (bucket : option string) : string :=
  bucket_name (py_or bucket DEFAULT_BUCKET).

(** What one iteration of the loop learns about a zone. *)
Inductive zone_view : Type :=
| Fetched (latest : option entry)
| Failed (response : error_response).

Definition view_zone (bkt key : string) (z : string * string) : result zone_view :=
  match list_object_versions (snd z) bkt key with
  | Return resp =>
      latest <- latest_entry_for_key (versions_for_key key resp) ;;
      Return (Fetched latest)
  | Raise (ClientError response) => Return (Failed response)
  | Raise e => Raise e
  end.

Definition info_of_view (zone_name : string) (v : zone_view) : zone_info :=
  match v with
  | Fetched latest =>
      {| zi_zone := zone_name; zi_error := KeyAbsent; zi_latest := entry_to_brief latest |}
  | Failed response =>
      {| zi_zone := zone_name; zi_error := error_message response; zi_latest := None |}
  end.

(** The record that the loop stores for zone [z]. *)
Definition zone_entry_of (bkt key : string)
    (z : string * string) (kv : string * zone_info) : Prop :=
  fst kv = fst z /\
  exists v, view_zone bkt key z = Return v /\ snd kv = info_of_view (fst z) v.

(** The latest entry of a zone whose fetch succeeded; [None] for a zone
    without records of the key and for a zone whose fetch failed. *)
Definition zone_latest (bkt key : string) (z : string * string) : option entry :=
  match list_object_versions (snd z) bkt key with
  | Return resp =>
      match latest_entry_for_key (versions_for_key key resp) with
      | Return latest => latest
      | Raise _ => None
      end
  | Raise _ => None
  end.

Definition zone_candidates (bkt key : string) (z : string * string)
  : list (string * entry) :=
  match zone_latest bkt key z with
  | Some e => [(fst z, e)]
  | None => []
  end.

(** The global latest as the route computes it. *)
Definition global_latest (key : string) (bucket : option string)
  : result (option (string * entry)) :=
  fetched <- fetch_zones list_object_versions (target_bucket bucket) key ([], []) S3_ZONES ;;
  find_best_version (snd fetched) false.

(** Whether an entry takes part in a selection. *)
Definition takes_part (ignore_delete_markers : bool) (e : entry) : bool :=
  negb (ignore_delete_markers && IsDeleteMarker e).

(** [e] is the latest entry of the zone named [zname], it takes part in the
    selection and has a timestamp; every zone configured before it whose
    latest entry takes part has a strictly smaller timestamp, and no zone
    configured after it has a greater one. *)
Definition first_maximum (ignore_delete_markers : bool) (bkt key : string)
    (zname : string) (e : entry) : Prop :=
  exists zpre zurl zpost t,
    S3_ZONES = zpre ++ (zname, zurl) :: zpost /\
    zone_latest bkt key (zname, zurl) = Some e /\
    takes_part ignore_delete_markers e = true /\
    entry_LastModified e = Some t /\
    (forall z e' t',
        In z zpre -> zone_latest bkt key z = Some e' ->
        takes_part ignore_delete_markers e' = true ->
        entry_LastModified e' = Some t' -> dt_ltb t' t = true) /\
    (forall z e' t',
        In z zpost -> zone_latest bkt key z = Some e' ->
        takes_part ignore_delete_markers e' = true ->
        entry_LastModified e' = Some t' -> dt_ltb t t' = false).

(** The claim that a request naming an unknown current zone is rejected. *)
Definition rejects_unknown_current_zone
    (key currentZone : string) (bucket : option string) : Prop :=
  ~ In currentZone (map fst S3_ZONES) ->
  exists status detail,
    consistency_check S3_ZONES DEFAULT_BUCKET list_object_versions key currentZone bucket
    = Raise (HTTPException status detail).

(** The claim that no zone is recommended exactly when no zone's latest
    entry is a version. *)
Definition recommended_absent_iff_no_version
    (key : string) (bucket : option string) (r : report) : Prop :=
  recommended_download_zone r = None <->
  (forall z e, In z S3_ZONES ->
               zone_latest (target_bucket bucket) key z = Some e ->
               IsDeleteMarker e = true).

End Observations.

(** ** Sample configuration and stores *)

Definition sample_zones : list (string * string) :=
  [("zone1", "https://zone1.example.com"); ("zone2", "https://zone2.example.com")]%string.

Definition at_time (s us : Z) : option datetime :=
  Some {| second := s; microsecond := us |}.

Definition version_record (key etag_text : string) (lm : option datetime) : raw_record :=
  {| Key := Some key; VersionId := Some "v1"%string; ETag := Some etag_text;
     LastModified := lm; Size := Some 7%Z; IsLatest := Some true |}.

Definition marker_record (key : string) (lm : option datetime) : raw_record :=
  {| Key := Some key; VersionId := Some "d1"%string; ETag := None;
     LastModified := lm; Size := None; IsLatest := Some true |}.

Definition quoted (s : string) : string :=
  String quote_char (s ++ String quote_char EmptyString).

Definition respond (versions markers : list raw_record) : result versions_response :=
  Return {| Versions := Some versions; DeleteMarkers := Some markers |}.

Definition on_zone1 (zone_url : string) : bool :=
  String.eqb zone_url "https://zone1.example.com".

(** zone1 holds a version, zone2 an older delete marker. *)
Definition store_live_and_deleted (zone_url bkt key : string) : result versions_response :=
  if on_zone1 zone_url
  then respond [version_record "a.txt" (quoted "abc") (at_time 100 250000)] []
  else respond [] [marker_record "a.txt" (at_time 99 0)].

(** As [store_live_and_deleted], with records of longer keys added. *)
Definition store_with_longer_keys (zone_url bkt key : string) : result versions_response :=
  if on_zone1 zone_url
  then respond [version_record "a.txt.bak" (quoted "zzz") (at_time 500 0);
                version_record "a.txt" (quoted "abc") (at_time 100 250000)] []
  else respond [] [marker_record "a.txt" (at_time 99 0);
                   marker_record "a.txt.old" None; marker_record "a.txt.old" None].

(** zone1 holds a delete marker, zone2 holds nothing. *)
Definition store_deleted_and_empty (zone_url bkt key : string) : result versions_response :=
  if on_zone1 zone_url
  then respond [] [marker_record "a.txt" (at_time 100 0)]
  else Return {| Versions := None; DeleteMarkers := None |}.

(** zone1 holds a version; the call on zone2 raises a [ClientError] whose
    error response has an empty [Message] element, which the client parses to
    [None]. *)
Definition store_error_without_message (zone_url bkt key : string)
  : result versions_response :=
  if on_zone1 zone_url
  then respond [version_record "a.txt" (quoted "abc") (at_time 100 250000)] []
  else Raise (ClientError {| Error := Some {| Message := IsNone |} |}).

(** zone1 holds one version whose record has no [LastModified]; zone2 holds
    nothing. *)
Definition store_version_without_timestamp (zone_url bkt key : string)
  : result versions_response :=
  if on_zone1 zone_url
  then respond [version_record "a.txt" (quoted "abc") None] []
  else respond [] [].

(** Both zones hold the same content, written within the same second. *)
Definition store_same_second (zone_url bkt key : string) : result versions_response :=
  if on_zone1 zone_url
  then respond [version_record "a.txt" (quoted "xyz") (at_time 100 900000)] []
  else respond [version_record "a.txt" (quoted "xyz") (at_time 100 100000)] [].

(** The zones hold different content, written within the same second. *)
Definition store_divergent (zone_url bkt key : string) : result versions_response :=
  if on_zone1 zone_url
  then respond [version_record "a.txt" (quoted "abc") (at_time 100 900000)] []
  else respond [version_record "a.txt" (quoted "xyz") (at_time 100 100000)] [].

(** zone1 holds a version; the call on zone2 raises a [ClientError] with a
    message. *)
Definition store_error_with_message (zone_url bkt key : string)
  : result versions_response :=
  if on_zone1 zone_url
  then respond [version_record "a.txt" (quoted "abc") (at_time 100 250000)] []
  else Raise (ClientError {| Error := Some {| Message := IsStr "Access Denied" |} |}).

(** * The rest of s3_utils.py *)

(** [previous_entry_for_key]: the second element of the descending order,
    when there is a latest entry and more than one record. *)
Definition previous_entry_for_key (versions : list entry) (latest : option entry)
  : result (option entry) :=
  match versions, latest with
  | [], _ => Return None
  | _, None => Return None
  | _ :: _, Some _ =>
      ordered <- sorted_reverse entry_LastModified versions ;;
      Return (if (1 <? List.length ordered)%nat then nth_error ordered 1 else None)
  end.

(** * The other routes of app.py *)

(** [s.endswith("/")] *)
Fixpoint endswith_slash (s : string) : bool :=
  match s with
  | EmptyString => false
  | String a EmptyString => Ascii.eqb a "/"%char
  | String _ s' => endswith_slash s'
  end.

(** [s[n:]] *)
Fixpoint drop (n : nat) (s : string) : string :=
  match n, s with
  | O, _ => s
  | S _, EmptyString => EmptyString
  | S n', String _ s' => drop n' s'
  end.

(** The detail of [HTTPException(status_code, detail=v)]: the framework
    replaces [None] by the phrase of the status code. *)
Definition http_detail (phrase : string) (v : lookup) : string :=
  match v with
  | IsStr s => s
  | _ => phrase
  end.

(** [except ClientError as e: raise HTTPException(status_code=500, detail=...)] *)
Definition raise_500 {A : Type} (response : error_response) : result A :=
  Raise (HTTPException 500
           (http_detail "Internal Server Error" (error_message response))).

(** The keyword arguments of [list_objects_v2]. *)
Record list_kwargs : Type := {
  kw_Bucket : string;
  kw_Delimiter : string;
  kw_Prefix : option string;
  kw_ContinuationToken : option string
}.

Record common_prefix : Type := { cp_Prefix : option string }.

Record object_record : Type := {
  obj_Key : option string;
  obj_LastModified : option datetime;
  obj_Size : option Z
}.

(** The response of [list_objects_v2]. *)
Record list_response : Type := {
  CommonPrefixes : option (list common_prefix);
  Contents : option (list object_record);
  IsTruncated : option bool;
  NextContinuationToken : option string
}.

Record list_item : Type := {
  item_key : option string;
  item_last_modified : option iso_string;
  item_size : option Z
}.

Record listing : Type := {
  folders : list string;
  items : list list_item;
  listing_prefix : string
}.

(** The parameters of a presigned URL. *)
Record presign_params : Type := {
  pp_Bucket : string;
  pp_Key : string;
  pp_VersionId : option string;
  pp_ContentType : option string
}.

Inductive client_method : Type := get_object | put_object.

(** The JSON body of the presign routes. *)
Record presign_payload : Type := {
  payload_zone : option string;
  payload_key : option string;
  payload_version_id : option string;
  payload_content_type : option string
}.

Record delete_response : Type := {
  delete_status : string;
  delete_message : string
}.

Record zones_response : Type := {
  zones_list : list (string * string);
  zones_bucket : option string
}.

(** [if prefix and not prefix.endswith("/"): prefix = prefix + "/"] *)
Definition normalize_prefix (prefix : string) : string :=
  if (truthy_str prefix && negb (endswith_slash prefix))%bool
  then (prefix ++ "/")%string
  else prefix.

(** The folder names that one response adds (lines 78-84). *)
Definition folder_name (prefix : string) (cp : common_prefix) : list string :=
  match cp_Prefix cp with
  | Some p =>
      if truthy_str p
      then [if (truthy_str prefix && String.prefix prefix p)%bool
            then drop (String.length prefix) p
            else p]
      else []
  | None => []
  end.

(** [obj.get("Key") == prefix] *)
Definition key_is (prefix : string) (k : option string) : bool :=
  match k with
  | Some s => String.eqb s prefix
  | None => false
  end.

(** The items that one response adds (lines 86-94). *)
Definition item_of (prefix : string) (obj : object_record) : list list_item :=
  if (truthy_str prefix && key_is prefix (obj_Key obj))%bool
  then []
  else [{| item_key := obj_Key obj;
           item_last_modified := format_datetime_iso (obj_LastModified obj);
           item_size := obj_Size obj |}].

(** The token of the next request, when the loop goes on (lines
    96-99). *)
Definition next_token (resp : list_response) : option string :=
  match IsTruncated resp with
  | Some true => if truthy (NextContinuationToken resp)
                 then NextContinuationToken resp else None
  | _ => None
  end.

(** The keyword arguments of one request of the loop (lines 70-74). *)
Definition list_request (bkt prefix : string) (token : option string) : list_kwargs :=
  {| kw_Bucket := bkt;
     kw_Delimiter := "/";
     kw_Prefix := if truthy_str prefix then Some prefix else None;
     kw_ContinuationToken := if truthy token then token else None |}.

Section OtherRoutes.

Variable S3_ZONES : list (string * string).
Variable DEFAULT_BUCKET : option string.
Variable PRESIGN_TTL : Z.
Variable PRESIGN_UPLOAD_TTL : Z.

(** The object-store client of an endpoint, external to the routes. *)
Variable list_objects_v2 : string -> list_kwargs -> result list_response.
Variable generate_presigned_url :
  string -> client_method -> presign_params -> Z -> result string.
Variable s3_delete_object : string -> string -> string -> result unit.

(** [GET /zones] *)
Definition zones : zones_response :=
  {| zones_list := S3_ZONES; zones_bucket := DEFAULT_BUCKET |}.

(** The [while True] loop of [list_objects].  The loop ends when the store
    says so; [fuel] bounds the number of requests, and [None] stands for a
    loop that has not ended within it. *)
Fixpoint list_pages (fuel : nat) (zone_url bkt prefix : string)
    (token : option string) (folders : list string) (items : list list_item)
  : option (result (list string * list list_item)) :=
  match fuel with
  | O => None
  | S fuel' =>
      match list_objects_v2 zone_url (list_request bkt prefix token) with
      | Raise e => Some (Raise e)
      | Return resp =>
          let folders := folders ++ flat_map (folder_name prefix)
                                      (or_empty (CommonPrefixes resp)) in
          let items := items ++ flat_map (item_of prefix) (or_empty (Contents resp)) in
          match next_token resp with
          | Some token' => list_pages fuel' zone_url bkt prefix (Some token') folders items
          | None => Some (Return (folders, items))
          end
      end
  end.

(** [GET /list] *)
Definition list_objects (fuel : nat) (zone prefix : string) (bucket : option string)
  : option (result listing) :=
  let bkt := py_or bucket DEFAULT_BUCKET in
  if negb (truthy bkt)
  then Some (Raise (HTTPException 400 "Missing 'bucket' and no BUCKET default set."))
  else
    let prefix := normalize_prefix prefix in
    match find_zone_url S3_ZONES zone with
    | Raise e => Some (Raise e)
    | Return zone_url =>
        match list_pages fuel zone_url (bucket_name bkt) prefix None [] [] with
        | None => None
        | Some body =>
            Some (try_except_ClientError
                    (fi <- body ;;
                     Return {| folders := fst fi; items := snd fi;
                               listing_prefix := prefix |})
                    raise_500)
        end
    end.

(** [POST /presign/download] *)
Definition presign_download (payload : presign_payload) (bucket : option string)
  : result string :=
  let bkt := py_or bucket DEFAULT_BUCKET in
  if negb (truthy bkt)
  then Raise (HTTPException 400 "Missing 'bucket' and no BUCKET default set.")
  else
    let zone := payload_zone payload in
    let key := payload_key payload in
    let version_id := payload_version_id payload in
    if (negb (truthy zone) || negb (truthy key))%bool
    then Raise (HTTPException 400 "Missing 'zone' or 'key'")
    else
      zone_url <- find_zone_url S3_ZONES (bucket_name zone) ;;
      try_except_ClientError
        (let params :=
           {| pp_Bucket := bucket_name bkt;
              pp_Key := bucket_name key;
              pp_VersionId := if truthy version_id then version_id else None;
              pp_ContentType := None |} in
         generate_presigned_url zone_url get_object params PRESIGN_TTL)
        raise_500.

(** [POST /presign/upload] *)
Definition presign_upload (payload : presign_payload) (bucket : option string)
  : result string :=
  let bkt := py_or bucket DEFAULT_BUCKET in
  if negb (truthy bkt)
  then Raise (HTTPException 400 "Missing 'bucket' and no BUCKET default set.")
  else
    let zone := payload_zone payload in
    let key := payload_key payload in
    let content_type :=
      py_or (payload_content_type payload) (Some "application/octet-stream"%string) in
    if (negb (truthy zone) || negb (truthy key))%bool
    then Raise (HTTPException 400 "Missing 'zone' or 'key'")
    else
      zone_url <- find_zone_url S3_ZONES (bucket_name zone) ;;
      try_except_ClientError
        (generate_presigned_url zone_url put_object
           {| pp_Bucket := bucket_name bkt;
              pp_Key := bucket_name key;
              pp_VersionId := None;
              pp_ContentType := content_type |}
           PRESIGN_UPLOAD_TTL)
        raise_500.

(** [DELETE /objects/{zone}/{key:path}] *)
Definition delete_object (zone key : string) (bucket : option string)
  : result delete_response :=
  let bkt := py_or bucket DEFAULT_BUCKET in
  if negb (truthy bkt)
  then Raise (HTTPException 400 "Missing 'bucket' and no BUCKET default set.")
  else
    zone_url <- find_zone_url S3_ZONES zone ;;
    try_except_ClientError
      (_ <- s3_delete_object zone_url (bucket_name bkt) key ;;
       Return {| delete_status := "ok";
                 delete_message :=
                   ("Object '" ++ key ++ "' deleted from zone '" ++ zone ++ "'.")%string |})
      raise_500.

End OtherRoutes.

(** * auth.py

    The JWT library and the HTTP client are external.  What they raise is
    caught by [except Exception as e] and only its text [str(e)] is used, so
    a call of theirs returns a value or fails with a text.  [JWKS_CACHE] is a
    global: the functions take the state of the module and return the new
    one.  The state also counts the requests sent to the issuer, and the
    issuer's answer may depend on that count. *)

Inductive outcome (A : Type) : Type :=
| Success (a : A)
| Failure (text : string).
Arguments Success {A} a.
Arguments Failure {A} text.

(** One key of the issuer's key set. *)
Record jwk : Type := { jwk_kid : option string; jwk_material : string }.

(** The JSON object the issuer answers with: it may hold ["keys"], a list of
    keys, and may hold other members. *)
Record jwks : Type := { jwks_keys : option (list jwk); jwks_other_members : bool }.

(** Truthiness of that dict: it is not empty. *)
Definition jwks_truthy (j : jwks) : bool :=
  match jwks_keys j with
  | Some _ => true
  | None => jwks_other_members j
  end.

(** The header of a token, as far as [verify_token] reads it. *)
Record jwt_header : Type := { header_kid : option string }.

Record auth_state : Type := { JWKS_CACHE : option jwks; requests_sent : nat }.

(** [next((k for k in jwks.get("keys", []) if k.get("kid") == kid), None)] *)
Definition find_jwk (j : jwks) (kid : string) : option jwk :=
  find (fun k => match jwk_kid k with
                 | Some s => String.eqb s kid
                 | None => false
                 end)
       (or_empty (jwks_keys j)).

Section Auth.

(** The decoded claims of a token. *)
Variable claims : Type.

(** [requests.get(jwks_url, timeout=5)], [raise_for_status()] and [json()]:
    the answer to the n-th request. *)
Variable http_get_jwks : nat -> outcome jwks.

(** [jwt.get_unverified_header] and [jwt.decode] *)
Variable get_unverified_header : string -> outcome jwt_header.
Variable jwt_decode : string -> jwk -> outcome claims.

(** [_get_jwks] *)
Definition get_jwks (st : auth_state) : outcome jwks * auth_state :=
  let fetch :=
    match http_get_jwks (requests_sent st) with
    | Success j =>
        (Success j, {| JWKS_CACHE := Some j; requests_sent := S (requests_sent st) |})
    | Failure text =>
        (Failure text,
         {| JWKS_CACHE := JWKS_CACHE st; requests_sent := S (requests_sent st) |})
    end in
  match JWKS_CACHE st with
  | Some j => if jwks_truthy j then (Success j, st) else fetch
  | None => fetch
  end.

(** [except Exception as e: raise HTTPException(status_code=401, ...)] *)
Definition verification_failed {A : Type} (text : string) : result A :=
  Raise (HTTPException 401 ("Token verification failed: " ++ text)).

(** [verify_token] *)
Definition verify_token (st : auth_state) (token : string)
  : result claims * auth_state :=
  match get_unverified_header token with
  | Failure text => (verification_failed text, st)
  | Success unverified_header =>
      let kid := header_kid unverified_header in
      if negb (truthy kid)
      then (Raise (HTTPException 401 "Missing kid in token header"), st)
      else
        let kid := bucket_name kid in
        let decode (jwk_key : jwk) (st : auth_state) :=
          match jwt_decode token jwk_key with
          | Success c => (Return c, st)
          | Failure text => (verification_failed text, st)
          end in
        match get_jwks st with
        | (Failure text, st1) => (verification_failed text, st1)
        | (Success j, st1) =>
            match find_jwk j kid with
            | Some jwk_key => decode jwk_key st1
            | None =>
                let st2 := {| JWKS_CACHE := None; requests_sent := requests_sent st1 |} in
                match get_jwks st2 with
                | (Failure text, st3) => (verification_failed text, st3)
                | (Success j', st3) =>
                    match find_jwk j' kid with
                    | Some jwk_key => decode jwk_key st3
                    | None =>
                        (Raise (HTTPException 401 "No matching JWK for token kid"), st3)
                    end
                end
            end
        end
  end.

End Auth.

(** * config.py

    A character of a string stands for one code point below 256. *)

(** [c.isspace()] on those code points *)
Definition isspace (c : ascii) : bool :=
  let n := nat_of_ascii c in
  (((9 <=? n) && (n <=? 13)) || ((28 <=? n) && (n <=? 32))
   || (n =? 133) || (n =? 160))%nat%bool.

(** [s.strip()] *)
Fixpoint lstrip_space (s : string) : string :=
  match s with
  | EmptyString => EmptyString
  | String a s' => if isspace a then lstrip_space s' else s
  end.

Fixpoint rstrip_space (s : string) : string :=
  match s with
  | EmptyString => EmptyString
  | String a s' =>
      let r := rstrip_space s' in
      if (isspace a && String.eqb r EmptyString)%bool
      then EmptyString
      else String a r
  end.

Definition strip_space (s : string) : string := rstrip_space (lstrip_space s).

(** [s.split(c)] for a separator of one character *)
Fixpoint split_on (c : ascii) (s : string) : list string :=
  match s with
  | EmptyString => [EmptyString]
  | String a s' =>
      match split_on c s' with
      | [] => []
      | hd :: tl =>
          if Ascii.eqb a c then EmptyString :: hd :: tl else String a hd :: tl
      end
  end.

(** [c in s] *)
Fixpoint contains (c : ascii) (s : string) : bool :=
  match s with
  | EmptyString => false
  | String a s' => (Ascii.eqb a c || contains c s')%bool
  end.

(** [s.split(c, 1)[0]], which is also [s.split(c)[0]] *)
Fixpoint before (c : ascii) (s : string) : string :=
  match s with
  | EmptyString => EmptyString
  | String a s' => if Ascii.eqb a c then EmptyString else String a (before c s')
  end.

(** [s.split(c, 1)[1]] when [c] is in [s] *)
Fixpoint after (c : ascii) (s : string) : string :=
  match s with
  | EmptyString => EmptyString
  | String a s' => if Ascii.eqb a c then s' else after c s'
  end.

(** [f"{n}"] *)
Definition decimal (n : nat) : string :=
  DecimalString.NilEmpty.string_of_uint (Nat.to_uint n).

Section Config.

(** [urlparse(p).hostname or ""], and [""] when [urlparse] raises: the URL
    library is external. *)
Variable hostname : string -> string.

(** The body of the loop of [_parse_zones] over one part. *)
Definition parse_zone (acc : list (string * string) * nat) (p : string)
  : list (string * string) * nat :=
  let zones := fst acc in
  let unnamed := snd acc in
  if contains "=" p
  then (zones ++ [(strip_space (before "=" p), strip_space (after "=" p))], unnamed)
  else
    let host := hostname p in
    let name := if truthy_str host
                then before "." host
                else ("zone" ++ decimal (unnamed + 1))%string in
    (zones ++ [(name, p)], (unnamed + 1)%nat).

(** [[p.strip() for p in raw.split(",") if p.strip()]] *)
Definition zone_parts (raw : string) : list string :=
  filter truthy_str (map strip_space (split_on "," raw)).

Definition _parse_zones (raw : string) : list (string * string) :=
  fst (fold_left parse_zone (zone_parts raw) ([], 0%nat)).

End Config.

(** * Further notions used to state properties *)

(** [n] copies of the character [c]. *)
Fixpoint replicate (n : nat) (c : ascii) : string :=
  match n with
  | O => EmptyString
  | S n' => String c (replicate n' c)
  end.

Definition starts_with_char (c : ascii) (s : string) : bool :=
  match s with
  | EmptyString => false
  | String a _ => Ascii.eqb a c
  end.

Fixpoint ends_with_char (c : ascii) (s : string) : bool :=
  match s with
  | EmptyString => false
  | String a EmptyString => Ascii.eqb a c
  | String _ s' => ends_with_char c s'
  end.

Section ZoneOutcomes.

Variable list_object_versions : string -> string -> string -> result versions_response.

(** The loop gets through zone [z]: its call raises [ClientError], or returns
    records of the key that can be ordered. *)
Definition zone_passes (bkt key : string) (z : string * string) : Prop :=
  (exists response,
      list_object_versions (snd z) bkt key = Raise (ClientError response)) \/
  (exists resp,
      list_object_versions (snd z) bkt key = Return resp /\
      ((2 <= List.length (versions_for_key key resp))%nat ->
       forall v, In v (versions_for_key key resp) -> entry_LastModified v <> None)).

(** The loop stops at zone [z] with the exception [e]: its call raises [e],
    which is not a [ClientError], or returns two or more records of the key of
    which one has no [LastModified], and [e] is [TypeError]. *)
Definition zone_aborts_with (bkt key : string) (z : string * string) (e : exn) : Prop :=
  (list_object_versions (snd z) bkt key = Raise e /\
   forall response, e <> ClientError response) \/
  (exists resp,
      list_object_versions (snd z) bkt key = Return resp /\
      e = TypeError /\
      (2 <= List.length (versions_for_key key resp))%nat /\
      exists v, In v (versions_for_key key resp) /\ entry_LastModified v = None).

End ZoneOutcomes.

(** The responses [pages] are what the store returns when the first request
    carries [token] and each further request carries the token of the
    response before it; the last response ends the loop. *)
Inductive pages_from (call : list_kwargs -> result list_response)
    (bkt prefix : string) : option string -> list list_response -> Prop :=
| pages_last (token : option string) (resp : list_response) :
    call (list_request bkt prefix token) = Return resp ->
    next_token resp = None ->
    pages_from call bkt prefix token [resp]
| pages_more (token : option string) (resp : list_response)
    (token' : string) (rest : list list_response) :
    call (list_request bkt prefix token) = Return resp ->
    next_token resp = Some token' ->
    pages_from call bkt prefix (Some token') rest ->
    pages_from call bkt prefix token (resp :: rest).

Definition folders_of (prefix : string) (resp : list_response) : list string :=
  flat_map (folder_name prefix) (or_empty (CommonPrefixes resp)).

Definition items_of (prefix : string) (resp : list_response) : list list_item :=
  flat_map (item_of prefix) (or_empty (Contents resp)).

(** The zone that [_parse_zones] makes of the part [p] when [unnamed] parts
    without a name came before it. *)
Definition zone_of_part (hostname : string -> string) (unnamed : nat) (p : string)
  : string * string :=
  if contains "=" p
  then (strip_space (before "=" p), strip_space (after "=" p))
  else (if truthy_str (hostname p)
        then before "." (hostname p)
        else ("zone" ++ decimal (unnamed + 1))%string,
        p).

Definition is_unnamed (p : string) : bool := negb (contains "=" p).

(** [name=url] *)
Definition zone_text (z : string * string) : string :=
  (fst z ++ "=" ++ snd z)%string.

(** A string that [strip()] leaves as it is. *)
Definition stripped (s : string) : Prop := strip_space s = s.

Definition starts_with_space (s : string) : bool :=
  match s with
  | EmptyString => false
  | String a _ => isspace a
  end.

Fixpoint ends_with_space (s : string) : bool :=
  match s with
  | EmptyString => false
  | String a EmptyString => isspace a
  | String _ s' => ends_with_space s'
  end.

(** A zone whose text can be read back. *)
Definition writable (z : string * string) : Prop :=
  stripped (fst z) /\ stripped (snd z) /\
  contains "," (fst z) = false /\ contains "=" (fst z) = false /\
  contains "," (snd z) = false.


(** ** Sample data for the other functions *)

Local Open Scope string_scope.

(** Two zones whose names are both derived from the host [s3]. *)
Definition shared_name_zones : list (string * string) :=
  [("s3", "https://s3.dc1.example.com"); ("s3", "https://s3.dc2.example.com")].

(** The first of them holds a version, the second nothing. *)
Definition store_shared_name (zone_url bkt key : string) : result versions_response :=
  if String.eqb zone_url "https://s3.dc1.example.com"
  then respond [version_record "a.txt" (quoted "abc") (at_time 100 0)] []
  else respond [] [].

(** zone1 holds a version; zone2 cannot be reached. *)
Definition store_unreachable (zone_url bkt key : string) : result versions_response :=
  if on_zone1 zone_url
  then respond [version_record "a.txt" (quoted "abc") (at_time 100 0)] []
  else Raise (OtherException "EndpointConnectionError").

Definition object_at (key : string) : object_record :=
  {| obj_Key := Some key; obj_LastModified := at_time 100 500000; obj_Size := Some 7%Z |}.

Definition first_page : list_response :=
  {| CommonPrefixes := Some [{| cp_Prefix := Some "docs/img/" |}];
     Contents := Some [object_at "docs/"; object_at "docs/a.txt"];
     IsTruncated := Some true;
     NextContinuationToken := Some "t1" |}.

Definition second_page : list_response :=
  {| CommonPrefixes := None;
     Contents := Some [object_at "docs/b.txt"];
     IsTruncated := Some false;
     NextContinuationToken := None |}.

(** A store that answers a listing in two pages. *)
Definition store_two_pages (zone_url : string) (kwargs : list_kwargs)
  : result list_response :=
  match kw_ContinuationToken kwargs with
  | None => Return first_page
  | Some _ => Return second_page
  end.

(** A store that always answers with a truncated page. *)
Definition store_endless (zone_url : string) (kwargs : list_kwargs)
  : result list_response :=
  Return first_page.

(** A client whose URLs show the endpoint, the bucket and the key. *)
Definition sample_presigner (zone_url : string) (method : client_method)
    (params : presign_params) (ttl : Z) : result string :=
  Return (zone_url ++ "/" ++ pp_Bucket params ++ "/" ++ pp_Key params).

Definition download_payload : presign_payload :=
  {| payload_zone := Some "zone1"; payload_key := Some "a.txt";
     payload_version_id := None; payload_content_type := None |}.

Definition key_k1 : jwk := {| jwk_kid := Some "k1"; jwk_material := "m1" |}.
Definition key_k2 : jwk := {| jwk_kid := Some "k2"; jwk_material := "m2" |}.

Definition old_key_set : jwks :=
  {| jwks_keys := Some [key_k1]; jwks_other_members := false |}.
Definition new_key_set : jwks :=
  {| jwks_keys := Some [key_k1; key_k2]; jwks_other_members := false |}.

(** An issuer that has rotated its keys and a JWT library that reads the
    [kid] off the token and accepts every key. *)
Definition rotated_issuer (n : nat) : outcome jwks := Success new_key_set.
Definition unreachable_issuer (n : nat) : outcome jwks := Failure "connection refused".
Definition header_of_token (token : string) : outcome jwt_header :=
  Success {| header_kid := Some token |}.
Definition malformed_header (token : string) : outcome jwt_header :=
  Failure "Error decoding token headers.".
Definition accepting_decoder (token : string) (k : jwk) : outcome string :=
  Success (jwk_material k).

Definition warm_state : auth_state :=
  {| JWKS_CACHE := Some old_key_set; requests_sent := 1 |}.

Definition no_host (p : string) : string := EmptyString.

Definition sample_raw_zones : string :=
  "zone1=https://zone1.example.com, zone2=https://zone2.example.com".

Local Close Scope string_scope.
(** * Properties *)

(** ** The order on datetimes *)

Ltac dt_order :=
  unfold dt_ltb, dt_eqb in *;
  repeat match goal with
         | |- context [(?a <? ?b)%Z] => destruct (Z.ltb_spec a b)
         | |- context [(?a =? ?b)%Z] => destruct (Z.eqb_spec a b)
         | H : context [(?a <? ?b)%Z] |- _ => destruct (Z.ltb_spec a b)
         | H : context [(?a =? ?b)%Z] |- _ => destruct (Z.eqb_spec a b)
         end;
  simpl in *; try congruence; try lia.

Lemma dt_ltb_irrefl (a : datetime) : dt_ltb a a = false.
Proof. dt_order. Qed.

Lemma dt_ltb_trans (a b c : datetime) :
  dt_ltb a b = true -> dt_ltb b c = true -> dt_ltb a c = true.
Proof. intros; dt_order. Qed.

Lemma dt_le_lt_trans (a b c : datetime) :
  dt_ltb b a = false -> dt_ltb b c = true -> dt_ltb a c = true.
Proof. intros; dt_order. Qed.

Lemma dt_lt_not_gt (a b : datetime) :
  dt_ltb a b = true -> dt_ltb b a = false.
Proof. intros; dt_order. Qed.

Lemma dt_eqb_eq (a b : datetime) : dt_eqb a b = true <-> a = b.
Proof.
  destruct a as [sa ua], b as [sb ub]; split; intros H.
  - dt_order.
  - inversion H; subst. dt_order.
Qed.

(** Two datetimes render to the same whole-second text exactly when they
    fall in the same second. *)
Lemma format_datetime_iso_same_second (a b : datetime) :
  opt_iso_eqb (format_datetime_iso (Some a)) (format_datetime_iso (Some b)) = true
  <-> second a = second b.
Proof.
  simpl. unfold replace_microsecond0. split; intros H; dt_order.
Qed.

(** ** [max] and [find_best_version] *)

Section MaxFrom.
Context {A : Type} (key : A -> option datetime).

Local Abbreviation key_lt := (key_lt key).
Local Abbreviation key_not_above := (key_not_above key).

Lemma max_from_first_maximum (rest : list A) :
  forall (best : A) (pre mid : list A),
    (forall x, In x (best :: rest) -> key x <> None) ->
    (forall x, In x pre -> key_lt x best) ->
    (forall x, In x mid -> key_not_above best x) ->
    exists m pre' post',
      max_from key best rest = Return m /\
      pre ++ best :: mid ++ rest = pre' ++ m :: post' /\
      (forall x, In x pre' -> key_lt x m) /\
      (forall x, In x post' -> key_not_above m x).
Proof.
  induction rest as [|item tl IH]; intros best pre mid Hkeys Hpre Hmid.
  - exists best, pre, mid. simpl. rewrite app_nil_r. auto.
  - assert (Hb : key best <> None) by (apply Hkeys; simpl; auto).
    assert (Hi : key item <> None) by (apply Hkeys; simpl; auto).
    simpl. unfold py_gt, py_lt.
    destruct (key best) as [tb|] eqn:Eb; [|congruence].
    destruct (key item) as [ti|] eqn:Ei; [|congruence].
    simpl. destruct (dt_ltb tb ti) eqn:Hlt.
    + destruct (IH item (pre ++ best :: mid) []) as (m & pre' & post' & Hm & Hsplit & H1 & H2).
      * intros x [<-|Hx]; [congruence|]. apply Hkeys. simpl; auto.
      * intros x Hx. apply in_app_or in Hx. unfold key_lt. rewrite Ei.
        destruct Hx as [Hx|[<-|Hx]].
        -- specialize (Hpre x Hx). unfold key_lt in Hpre. rewrite Eb in Hpre.
           destruct (key x); [|contradiction]. eapply dt_ltb_trans; eauto.
        -- rewrite Eb. exact Hlt.
        -- specialize (Hmid x Hx). unfold key_not_above in Hmid. rewrite Eb in Hmid.
           destruct (key x); [|contradiction]. eapply dt_le_lt_trans; eauto.
      * intros x [].
      * exists m, pre', post'. repeat split; auto.
        rewrite <- Hsplit. simpl. rewrite <- !app_assoc. reflexivity.
    + destruct (IH best pre (mid ++ [item])) as (m & pre' & post' & Hm & Hsplit & H1 & H2).
      * intros x [<-|Hx]; [congruence|]. apply Hkeys. simpl; auto.
      * exact Hpre.
      * intros x Hx. apply in_app_or in Hx. destruct Hx as [Hx|[<-|[]]]; auto.
        unfold key_not_above. rewrite Eb, Ei. exact Hlt.
      * exists m, pre', post'. repeat split; auto.
        rewrite <- Hsplit. rewrite <- !app_assoc. reflexivity.
Qed.
End MaxFrom.

Lemma filter_split {A : Type} (f : A -> bool) (l : list A) :
  forall pre' m post',
    filter f l = pre' ++ m :: post' ->
    exists pre post,
      l = pre ++ m :: post /\ f m = true /\
      filter f pre = pre' /\ filter f post = post'.
Proof.
  induction l as [|x l IH]; intros pre' m post' H; simpl in H.
  - destruct pre'; discriminate.
  - destruct (f x) eqn:Fx.
    + destruct pre' as [|p pre'']; simpl in H; injection H as Hhd Htl.
      * subst m post'. exists [], l. simpl. auto.
      * subst p. destruct (IH _ _ _ Htl) as (pre & post & -> & Fm & <- & <-).
        exists (x :: pre), post. simpl. rewrite Fx. auto.
    + destruct (IH _ _ _ H) as (pre & post & -> & Fm & <- & <-).
      exists (x :: pre), post. simpl. rewrite Fx. auto.
Qed.

Lemma valid_candidate_has_LastModified (ign : bool) (c : string * entry) :
  is_valid_candidate ign c = true -> entry_LastModified (snd c) <> None.
Proof.
  unfold is_valid_candidate. intros H. apply andb_true_iff in H.
  destruct H as [_ H]. destruct (entry_LastModified (snd c)); congruence.
Qed.

(** [find_best_version] never raises, and returns the first maximum. *)
Lemma find_best_version_spec (candidates : list (string * entry)) (ign : bool) :
  exists g, find_best_version candidates ign = Return g /\ best_of ign candidates g.
Proof.
  unfold find_best_version.
  destruct (filter (is_valid_candidate ign) candidates) as [|first rest] eqn:Hf.
  - exists None. split; [reflexivity|]. simpl. intros c Hc.
    destruct (is_valid_candidate ign c) eqn:Hv; [|reflexivity].
    assert (In c (filter (is_valid_candidate ign) candidates))
      by (apply filter_In; auto).
    rewrite Hf in H. contradiction.
  - set (key := fun item : string * entry => entry_LastModified (snd item)).
    destruct (max_from_first_maximum key rest first [] [])
      as (m & pre' & post' & Hm & Hsplit & H1 & H2).
    + intros x Hx. apply (valid_candidate_has_LastModified ign).
      rewrite <- Hf in Hx. apply filter_In in Hx. tauto.
    + intros x [].
    + intros x [].
    + simpl in Hsplit. rewrite <- Hf in Hsplit.
      destruct (filter_split _ _ _ _ _ Hsplit) as (pre & post & Hc & Vm & Hpre & Hpost).
      exists (Some m). rewrite Hm. split; [reflexivity|]. simpl.
      destruct (entry_LastModified (snd m)) as [t|] eqn:Et.
      2:{ exfalso. eapply valid_candidate_has_LastModified; eauto. }
      exists pre, post, t. repeat split; auto.
      * intros c t' Hin Hv Ht'.
        assert (Hc' : In c pre') by (rewrite <- Hpre; apply filter_In; auto).
        specialize (H1 c Hc'). unfold key_lt, key in H1. rewrite Ht', Et in H1. exact H1.
      * intros c t' Hin Hv Ht'.
        assert (Hc' : In c post') by (rewrite <- Hpost; apply filter_In; auto).
        specialize (H2 c Hc'). unfold key_not_above, key in H2. rewrite Ht', Et in H2. exact H2.
Qed.

(** ** [sorted] and [latest_entry_for_key] *)

Section Sorted.
Context {A : Type} (key : A -> option datetime).

Lemma insert_desc_raises (x : A) (l : list A) (e : exn) :
  insert_desc key x l = Raise e -> e = TypeError.
Proof.
  induction l as [|y ys IH]; simpl; [discriminate|].
  unfold py_lt. destruct (key x), (key y); simpl; try congruence.
  destruct (dt_ltb d d0); [|discriminate].
  destruct (insert_desc key x ys); simpl; [discriminate|].
  intros H; injection H as <-. auto.
Qed.

Lemma insert_desc_In (x : A) (l r : list A) :
  insert_desc key x l = Return r -> forall y, In y r <-> y = x \/ In y l.
Proof.
  revert r. induction l as [|y0 ys IH]; simpl; intros r H y.
  - injection H as <-. simpl. intuition.
  - unfold py_lt in H. destruct (key x), (key y0); simpl in H; try discriminate.
    destruct (dt_ltb d d0).
    + destruct (insert_desc key x ys) as [r'|]; simpl in H; [|discriminate].
      injection H as <-. simpl. rewrite (IH r' eq_refl). intuition.
    + injection H as <-. simpl. intuition.
Qed.

Lemma sorted_reverse_raises (l : list A) (e : exn) :
  sorted_reverse key l = Raise e -> e = TypeError.
Proof.
  induction l as [|x xs IH]; simpl; [discriminate|].
  destruct (sorted_reverse key xs); simpl.
  - apply insert_desc_raises.
  - intros H; injection H as <-. auto.
Qed.

Lemma sorted_reverse_In (l r : list A) :
  sorted_reverse key l = Return r -> forall y, In y r <-> In y l.
Proof.
  revert r. induction l as [|x xs IH]; simpl; intros r H y.
  - injection H as <-. tauto.
  - destruct (sorted_reverse key xs) as [s|]; simpl in H; [|discriminate].
    rewrite (insert_desc_In _ _ _ H). rewrite (IH s eq_refl). intuition.
Qed.

Lemma insert_desc_returns (x : A) (l : list A) :
  key x <> None -> (forall y, In y l -> key y <> None) ->
  exists r, insert_desc key x l = Return r.
Proof.
  intros Hx. induction l as [|y ys IH]; simpl; intros Hl; [eauto|].
  assert (Hy : key y <> None) by (apply Hl; auto).
  unfold py_lt. destruct (key x) as [tx|]; [|congruence].
  destruct (key y) as [ty|]; [|congruence]. simpl.
  destruct (dt_ltb tx ty); [|eauto].
  destruct IH as (r & ->); [auto|]. simpl. eauto.
Qed.

Lemma sorted_reverse_returns (l : list A) :
  (forall y, In y l -> key y <> None) -> exists r, sorted_reverse key l = Return r.
Proof.
  induction l as [|x xs IH]; simpl; intros Hl; [eauto|].
  destruct IH as (s & Hs); [auto|]. rewrite Hs. simpl.
  apply insert_desc_returns; [auto|].
  intros y Hy. apply Hl. right. apply (sorted_reverse_In _ _ Hs). exact Hy.
Qed.

(** The head of the sorted list is the first element of the input whose key
    is maximal. *)
Lemma sorted_reverse_head (l : list A) :
  forall h r,
    sorted_reverse key l = Return (h :: r) ->
    exists pre post,
      l = pre ++ h :: post /\
      (forall x, In x pre -> key_lt key x h) /\
      (forall x, In x post -> key_not_above key h x).
Proof.
  induction l as [|x xs IH]; simpl; intros h r H; [discriminate|].
  destruct (sorted_reverse key xs) as [s|] eqn:Hs; simpl in H; [|discriminate].
  destruct s as [|y ys]; simpl in H.
  - injection H as <- <-. exists [], xs. split; [reflexivity|].
    split; [intros ? []|]. intros z Hz.
    apply (sorted_reverse_In _ _ Hs) in Hz. contradiction.
  - destruct (IH y ys eq_refl) as (pre & post & -> & Hpre & Hpost).
    unfold py_lt in H.
    destruct (key x) as [tx|] eqn:Ex; [|discriminate].
    destruct (key y) as [ty|] eqn:Ey; [|discriminate].
    simpl in H. destruct (dt_ltb tx ty) eqn:Hlt.
    + destruct (insert_desc key x ys) as [r'|]; simpl in H; [|discriminate].
      injection H as <- <-. exists (x :: pre), post. split; [reflexivity|].
      split; [|exact Hpost].
      intros z [<-|Hz]; [|auto]. unfold key_lt. rewrite Ex, Ey. exact Hlt.
    + injection H as <- <-. exists [], (pre ++ y :: post). split; [reflexivity|].
      split; [intros ? []|].
      intros z Hz. unfold key_not_above. rewrite Ex.
      apply in_app_or in Hz. destruct Hz as [Hz|[<-|Hz]].
      * specialize (Hpre z Hz). unfold key_lt in Hpre. rewrite Ey in Hpre.
        destruct (key z); [|contradiction]. dt_order.
      * rewrite Ey. exact Hlt.
      * specialize (Hpost z Hz). unfold key_not_above in Hpost. rewrite Ey in Hpost.
        destruct (key z); [|contradiction]. dt_order.
Qed.
End Sorted.

Lemma latest_entry_for_key_raises (versions : list entry) (e : exn) :
  latest_entry_for_key versions = Raise e -> e = TypeError.
Proof.
  unfold latest_entry_for_key. destruct versions; [discriminate|].
  destruct (sorted_reverse entry_LastModified (e0 :: versions)) eqn:Hs; simpl.
  - discriminate.
  - intros H; injection H as <-. eapply sorted_reverse_raises; eauto.
Qed.

Lemma latest_entry_for_key_In (versions : list entry) (e : entry) :
  latest_entry_for_key versions = Return (Some e) -> In e versions.
Proof.
  unfold latest_entry_for_key. destruct versions as [|v vs]; [discriminate|].
  destruct (sorted_reverse entry_LastModified (v :: vs)) as [s|] eqn:Hs; simpl;
    [|discriminate].
  intros H; injection H as H. destruct s as [|h s']; [discriminate|].
  injection H as ->. apply (sorted_reverse_In _ _ _ Hs). simpl; auto.
Qed.

Lemma latest_entry_for_key_None (versions : list entry) :
  latest_entry_for_key versions = Return None <-> versions = [].
Proof.
  split; [|intros ->; reflexivity].
  unfold latest_entry_for_key. destruct versions as [|v vs]; [reflexivity|].
  destruct (sorted_reverse entry_LastModified (v :: vs)) as [s|] eqn:Hs; simpl;
    [|discriminate].
  intros H; injection H as H. destruct s as [|h s']; [|discriminate].
  exfalso. apply (sorted_reverse_In _ _ _ Hs v). simpl; auto.
Qed.

(** X1. Within one zone the latest entry is the first record, versions
    before delete markers, whose [LastModified] is maximal. *)
Lemma latest_entry_for_key_first_maximum (versions : list entry) (e : entry) :
  latest_entry_for_key versions = Return (Some e) ->
  exists pre post,
    versions = pre ++ e :: post /\
    (forall x, In x pre -> key_lt entry_LastModified x e) /\
    (forall x, In x post -> key_not_above entry_LastModified e x).
Proof.
  unfold latest_entry_for_key. destruct versions as [|v vs]; [discriminate|].
  destruct (sorted_reverse entry_LastModified (v :: vs)) as [s|] eqn:Hs; simpl;
    [|discriminate].
  intros H; injection H as H. destruct s as [|h s']; [discriminate|].
  injection H as ->. eapply sorted_reverse_head; eauto.
Qed.

(** Records that all carry a [LastModified] can be ordered. *)
Lemma latest_entry_for_key_returns (versions : list entry) :
  (forall v, In v versions -> entry_LastModified v <> None) ->
  exists latest, latest_entry_for_key versions = Return latest.
Proof.
  intros H. unfold latest_entry_for_key. destruct versions as [|v vs]; [eauto|].
  destruct (sorted_reverse_returns entry_LastModified (v :: vs) H) as (s & ->).
  simpl. eauto.
Qed.

(** Two records of which the first has no [LastModified] cannot. *)
Lemma latest_entry_for_key_TypeError (v w : entry) (rest : list entry) :
  entry_LastModified w = None \/ rest = [] /\ entry_LastModified v = None ->
  exists e, latest_entry_for_key (v :: w :: rest) = Raise e.
Proof.
  intros H. unfold latest_entry_for_key.
  destruct (sorted_reverse entry_LastModified (v :: w :: rest)) as [s|] eqn:Hs;
    simpl; [|eauto].
  exfalso. simpl in Hs.
  destruct (sorted_reverse entry_LastModified rest) as [s0|] eqn:Hs0; simpl in Hs;
    [|discriminate].
  destruct H as [Hw|[-> Hv]].
  - destruct s0 as [|y ys]; simpl in Hs.
    + unfold py_lt in Hs. rewrite Hw in Hs.
      destruct (entry_LastModified v); discriminate.
    + unfold py_lt in Hs. rewrite Hw in Hs. simpl in Hs. discriminate.
  - simpl in Hs0. injection Hs0 as <-. simpl in Hs.
    unfold py_lt in Hs. rewrite Hv in Hs. simpl in Hs. discriminate.
Qed.

(** ** Insertion-ordered dicts *)

Lemma dict_set_fresh {V : Type} (k : string) (v : V) (d : dict V) :
  ~ In k (map fst d) -> dict_set k v d = d ++ [(k, v)].
Proof.
  induction d as [|[k' v'] d IH]; simpl; intros H; [reflexivity|].
  destruct (String.eqb_spec k' k) as [->|Hne]; [tauto|].
  rewrite IH; tauto.
Qed.

Lemma dict_get_fresh {V : Type} (k : string) (d : dict V) :
  ~ In k (map fst d) -> dict_get k d = None.
Proof.
  induction d as [|[k' v'] d IH]; simpl; intros H; [reflexivity|].
  destruct (String.eqb_spec k' k) as [->|Hne]; [tauto|].
  apply IH; tauto.
Qed.

Lemma dict_set_names {V : Type} (k : string) (v : V) (d : dict V) :
  map fst (dict_set k v d) = add_name (map fst d) k.
Proof.
  unfold add_name. induction d as [|[k' v'] d IH]; simpl; [reflexivity|].
  rewrite (String.eqb_sym k k').
  destruct (String.eqb k' k); simpl; [reflexivity|].
  rewrite IH. destruct (existsb (String.eqb k) (map fst d)); reflexivity.
Qed.

Lemma add_name_fresh (names : list string) (k : string) :
  ~ In k names -> add_name names k = names ++ [k].
Proof.
  intros H. unfold add_name.
  destruct (existsb (String.eqb k) names) eqn:He; [|reflexivity].
  apply existsb_exists in He. destruct He as (x & Hx & Heq).
  apply String.eqb_eq in Heq. subst x. contradiction.
Qed.

Lemma fold_add_name_distinct (l : list string) :
  forall names,
    NoDup l -> (forall k, In k l -> ~ In k names) ->
    fold_left add_name l names = names ++ l.
Proof.
  induction l as [|k l IH]; simpl; intros names Hnd Hfresh.
  - rewrite app_nil_r. reflexivity.
  - inversion Hnd as [|? ? Hnotin Hnd']; subst.
    rewrite add_name_fresh by (apply Hfresh; auto).
    rewrite IH; auto.
    + rewrite <- app_assoc. reflexivity.
    + intros k' Hk' Hin. apply in_app_or in Hin. destruct Hin as [Hin|[<-|[]]].
      * apply (Hfresh k'); auto.
      * contradiction.
Qed.

Lemma distinct_names_NoDup (l : list string) : NoDup l -> distinct_names l = l.
Proof.
  intros H. unfold distinct_names. rewrite fold_add_name_distinct; auto.
Qed.

(** ** The loop over the zones *)

Section RouteProperties.

Variable S3_ZONES : list (string * string).
Variable DEFAULT_BUCKET : option string.
Variable list_object_versions : string -> string -> string -> result versions_response.

Local Abbreviation fetch_zone := (fetch_zone list_object_versions).
Local Abbreviation fetch_zones := (fetch_zones list_object_versions).
Local Abbreviation consistency_check :=
  (consistency_check S3_ZONES DEFAULT_BUCKET list_object_versions).
Local Abbreviation view_zone := (view_zone list_object_versions).
Local Abbreviation zone_latest := (zone_latest list_object_versions).
Local Abbreviation zone_candidates := (zone_candidates list_object_versions).
Local Abbreviation zone_entry_of := (zone_entry_of list_object_versions).
Local Abbreviation target_bucket := (target_bucket DEFAULT_BUCKET).
Local Abbreviation global_latest := (global_latest S3_ZONES DEFAULT_BUCKET list_object_versions).
Local Abbreviation first_maximum := (first_maximum S3_ZONES list_object_versions).


Lemma fetch_zone_view (bkt key : string)
    (acc : dict zone_info * list (string * entry)) (z : string * string) :
  fetch_zone bkt key acc z =
  (v <- view_zone bkt key z ;;
   Return (dict_set (fst z) (info_of_view (fst z) v) (fst acc),
           snd acc ++ zone_candidates bkt key z)).
Proof.
  unfold fetch_zone, zone_candidates, zone_latest, view_zone.
  destruct (list_object_versions (snd z) bkt key) as [resp|e]; simpl.
  - destruct (latest_entry_for_key (versions_for_key key resp)) as [latest|e] eqn:Hl;
      simpl.
    + destruct latest; simpl; rewrite ?app_nil_r; reflexivity.
    + rewrite (latest_entry_for_key_raises _ _ Hl). reflexivity.
  - destruct e; simpl; rewrite ?app_nil_r; reflexivity.
Qed.

Lemma fetch_zones_candidates (bkt key : string) (zones : list (string * string)) :
  forall d0 c0 d c,
    fetch_zones bkt key (d0, c0) zones = Return (d, c) ->
    c = c0 ++ flat_map (zone_candidates bkt key) zones.
Proof.
  induction zones as [|z zones IH]; simpl; intros d0 c0 d c H.
  - injection H as <- <-. rewrite app_nil_r. reflexivity.
  - rewrite fetch_zone_view in H.
    destruct (view_zone bkt key z) as [v|]; simpl in H; [|discriminate].
    apply IH in H. rewrite H, app_assoc. reflexivity.
Qed.

Lemma fetch_zones_dict (bkt key : string) (zones : list (string * string)) :
  forall d0 c0 d c,
    fetch_zones bkt key (d0, c0) zones = Return (d, c) ->
    NoDup (map fst zones) ->
    (forall z, In z zones -> ~ In (fst z) (map fst d0)) ->
    exists d1, d = d0 ++ d1 /\ Forall2 (zone_entry_of bkt key) zones d1.
Proof.
  induction zones as [|z zones IH]; simpl; intros d0 c0 d c H Hnd Hfresh.
  - injection H as <- <-. exists []. rewrite app_nil_r. split; constructor.
  - rewrite fetch_zone_view in H.
    destruct (view_zone bkt key z) as [v|] eqn:Hv; simpl in H; [|discriminate].
    rewrite dict_set_fresh in H by (apply Hfresh; auto).
    inversion Hnd as [|? ? Hnotin Hnd']; subst.
    apply IH in H; auto.
    + destruct H as (d1 & -> & HF).
      exists ((fst z, info_of_view (fst z) v) :: d1). split.
      * rewrite <- app_assoc. reflexivity.
      * constructor; [|exact HF]. split; [reflexivity|]. exists v. auto.
    + intros z' Hz'. rewrite map_app, in_app_iff. simpl.
      intros [Hin|[Heq|[]]].
      * apply (Hfresh z'); auto.
      * apply Hnotin. rewrite Heq. apply in_map. exact Hz'.
Qed.

Lemma fetch_zones_names (bkt key : string) (zones : list (string * string)) :
  forall d0 c0 d c,
    fetch_zones bkt key (d0, c0) zones = Return (d, c) ->
    map fst d = fold_left add_name (map fst zones) (map fst d0).
Proof.
  induction zones as [|z zones IH]; simpl; intros d0 c0 d c H.
  - injection H as <- <-. reflexivity.
  - rewrite fetch_zone_view in H.
    destruct (view_zone bkt key z) as [v|]; simpl in H; [|discriminate].
    apply IH in H. rewrite H, dict_set_names. reflexivity.
Qed.

Lemma fetch_zones_raise_free (bkt key : string) (zones : list (string * string)) :
  forall acc,
    (forall z, In z zones -> exists v, view_zone bkt key z = Return v) ->
    exists acc', fetch_zones bkt key acc zones = Return acc'.
Proof.
  induction zones as [|z zones IH]; simpl; intros acc H.
  - eauto.
  - rewrite fetch_zone_view.
    destruct (H z) as (v & ->); auto. simpl. apply IH. auto.
Qed.


Lemma view_zone_fetched (bkt key : string) (z : string * string)
    (resp : versions_response) (latest : option entry) :
  list_object_versions (snd z) bkt key = Return resp ->
  latest_entry_for_key (versions_for_key key resp) = Return latest ->
  view_zone bkt key z = Return (Fetched latest).
Proof.
  intros Hr Hl. unfold view_zone. rewrite Hr, Hl. reflexivity.
Qed.

Lemma zone_latest_fetched (bkt key : string) (z : string * string) (e : entry) :
  zone_latest bkt key z = Some e ->
  exists resp,
    list_object_versions (snd z) bkt key = Return resp /\
    latest_entry_for_key (versions_for_key key resp) = Return (Some e).
Proof.
  unfold zone_latest.
  destruct (list_object_versions (snd z) bkt key) as [resp|]; [|discriminate].
  destruct (latest_entry_for_key (versions_for_key key resp)) as [l|] eqn:Hl;
    [|discriminate].
  intros ->. exists resp. auto.
Qed.

Lemma in_zone_candidates (bkt key : string) (z : string * string) (c : string * entry) :
  In c (zone_candidates bkt key z) <-> c = (fst z, snd c) /\ zone_latest bkt key z = Some (snd c).
Proof.
  unfold zone_candidates. destruct (zone_latest bkt key z) as [e|]; simpl.
  - split.
    + intros [<-|[]]. auto.
    + intros [-> H]. injection H as ->. auto.
  - split; [tauto|]. intros [_ H]; discriminate.
Qed.

Lemma zone_candidates_short (bkt key : string) (z : string * string) :
  (List.length (zone_candidates bkt key z) <= 1)%nat.
Proof.
  unfold zone_candidates. destruct (zone_latest bkt key z); simpl; lia.
Qed.

Lemma dict_set_keys {V : Type} (k : string) (v : V) (d : dict V) (k0 : string) :
  In k0 (map fst (dict_set k v d)) -> k0 = k \/ In k0 (map fst d).
Proof.
  induction d as [|[k' v'] d IH]; simpl.
  - intros [<-|[]]; auto.
  - destruct (String.eqb_spec k' k); simpl; intros [H|H]; auto.
    apply IH in H. tauto.
Qed.

Lemma fetch_zones_keys (bkt key : string) (zones : list (string * string)) :
  forall d0 c0 d c k,
    fetch_zones bkt key (d0, c0) zones = Return (d, c) ->
    In k (map fst d) -> In k (map fst d0) \/ In k (map fst zones).
Proof.
  induction zones as [|z zones IH]; simpl; intros d0 c0 d c k H Hk.
  - injection H as <- <-. auto.
  - rewrite fetch_zone_view in H.
    destruct (view_zone bkt key z) as [v|]; simpl in H; [|discriminate].
    destruct (IH _ _ _ _ _ H Hk) as [Hd|Hz]; [|auto].
    apply dict_set_keys in Hd. destruct Hd as [->|Hd]; auto.
Qed.

(** What a request that returns a report went through. *)
Lemma consistency_check_inv (key currentZone : string) (bucket : option string) (r : report) :
  consistency_check key currentZone bucket = Return r ->
  exists d c g rd,
    truthy (py_or bucket DEFAULT_BUCKET) = true /\
    fetch_zones (target_bucket bucket) key ([], []) S3_ZONES = Return (d, c) /\
    c = flat_map (zone_candidates (target_bucket bucket) key) S3_ZONES /\
    find_best_version c false = Return g /\ best_of false c g /\
    find_best_version c true = Return rd /\ best_of true c rd /\
    r = build_response d g rd currentZone.
Proof.
  unfold consistency_check, target_bucket.
  destruct (truthy (py_or bucket DEFAULT_BUCKET)); simpl; [|discriminate].
  destruct (fetch_zones (bucket_name (py_or bucket DEFAULT_BUCKET)) key ([], []) S3_ZONES)
    as [[d c]|] eqn:Hf; simpl; [|discriminate].
  destruct (find_best_version_spec c false) as (g & Hg & Bg).
  destruct (find_best_version_spec c true) as (rd & Hrd & Brd).
  rewrite Hg, Hrd. simpl. intros H; injection H as <-.
  exists d, c, g, rd. repeat split; auto.
  apply fetch_zones_candidates in Hf. exact Hf.
Qed.

(** A request returns a report as soon as a bucket is known and every zone's
    call either returns records that can be ordered or raises
    [ClientError]. *)
Lemma consistency_check_returns (key currentZone : string) (bucket : option string) :
  truthy (py_or bucket DEFAULT_BUCKET) = true ->
  (forall z, In z S3_ZONES -> exists v, view_zone (target_bucket bucket) key z = Return v) ->
  exists r, consistency_check key currentZone bucket = Return r.
Proof.
  intros Hb Hz. unfold consistency_check. rewrite Hb. simpl.
  destruct (fetch_zones_raise_free (target_bucket bucket) key S3_ZONES ([], []) Hz)
    as (acc & Hacc).
  unfold target_bucket in Hacc. rewrite Hacc. simpl.
  destruct (find_best_version_spec (snd acc) false) as (g & -> & _).
  destruct (find_best_version_spec (snd acc) true) as (rd & -> & _).
  simpl. eauto.
Qed.

Lemma global_latest_inv (key : string) (bucket : option string) (g : option (string * entry)) :
  global_latest key bucket = Return g ->
  best_of false (flat_map (zone_candidates (target_bucket bucket) key) S3_ZONES) g.
Proof.
  unfold global_latest.
  destruct (fetch_zones (target_bucket bucket) key ([], []) S3_ZONES) as [[d c]|] eqn:Hf;
    simpl; [|discriminate].
  apply fetch_zones_candidates in Hf. simpl in Hf. subst c.
  intros Hg.
  destruct (find_best_version_spec
              (flat_map (zone_candidates (target_bucket bucket) key) S3_ZONES) false)
    as (g' & Hg' & Bg).
  rewrite Hg in Hg'. injection Hg' as ->. exact Bg.
Qed.

(** ** From candidates back to zones *)

Lemma flat_map_split {A B : Type} (f : A -> list B) (l : list A) :
  (forall a, (List.length (f a) <= 1)%nat) ->
  forall pre m post,
    flat_map f l = pre ++ m :: post ->
    exists lpre a lpost,
      l = lpre ++ a :: lpost /\ f a = [m] /\
      flat_map f lpre = pre /\ flat_map f lpost = post.
Proof.
  intros Hshort. induction l as [|a l IH]; intros pre m post H; simpl in H.
  - destruct pre; discriminate.
  - specialize (Hshort a) as Ha.
    destruct (f a) as [|b [|b' fa]] eqn:Fa; simpl in Ha; [| |lia].
    + simpl in H. destruct (IH _ _ _ H) as (lpre & a' & lpost & -> & Fa' & <- & <-).
      exists (a :: lpre), a', lpost. simpl. rewrite Fa. auto.
    + simpl in H. destruct pre as [|p pre']; simpl in H; injection H as Hhd Htl.
      * subst b post. exists [], a, l. simpl. auto.
      * subst b. destruct (IH _ _ _ Htl) as (lpre & a' & lpost & -> & Fa' & <- & <-).
        exists (a :: lpre), a', lpost. simpl. rewrite Fa. auto.
Qed.

Lemma Forall2_In_left {A B : Type} (R : A -> B -> Prop) (l : list A) (l' : list B) :
  Forall2 R l l' -> forall x, In x l -> exists y, In y l' /\ R x y.
Proof.
  induction 1 as [|a b l l' Hab _ IH]; intros x Hx; [contradiction|].
  destruct Hx as [<-|Hx].
  - exists b. simpl; auto.
  - destruct (IH x Hx) as (y & Hy & Hxy). exists y. simpl; auto.
Qed.

Lemma zone_entries_keys (bkt key : string)
    (zones : list (string * string)) (d : dict zone_info) :
  Forall2 (zone_entry_of bkt key) zones d -> map fst d = map fst zones.
Proof.
  induction 1 as [|z kv zones d [Hk _] _ IH]; simpl; [reflexivity|].
  rewrite Hk, IH. reflexivity.
Qed.

Lemma valid_candidate_split (ign : bool) (c : string * entry) :
  is_valid_candidate ign c = true <->
  takes_part ign (snd c) = true /\ entry_LastModified (snd c) <> None.
Proof.
  unfold is_valid_candidate, takes_part. rewrite andb_true_iff.
  destruct (entry_LastModified (snd c)); split; intros [H1 H2]; split; auto; congruence.
Qed.

Lemma candidate_of_zone (bkt key : string) (zones : list (string * string))
    (z : string * string) (e : entry) :
  In z zones -> zone_latest bkt key z = Some e ->
  In (fst z, e) (flat_map (zone_candidates bkt key) zones).
Proof.
  intros Hz He. apply in_flat_map. exists z. split; [exact Hz|].
  apply in_zone_candidates. simpl. auto.
Qed.

Lemma best_of_first_maximum (ign : bool) (bkt key : string)
    (g : option (string * entry)) :
  best_of ign (flat_map (zone_candidates bkt key) S3_ZONES) g ->
  match g with
  | Some m => first_maximum ign bkt key (fst m) (snd m)
  | None =>
      forall z e, In z S3_ZONES -> zone_latest bkt key z = Some e ->
                  takes_part ign e = false \/ entry_LastModified e = None
  end.
Proof.
  destruct g as [m|]; simpl.
  - intros (pre & post & t & Hsplit & Hv & Ht & Hpre & Hpost).
    destruct (flat_map_split _ _ (zone_candidates_short bkt key) _ _ _ Hsplit)
      as (zpre & z & zpost & Hz & Fz & Fpre & Fpost).
    assert (Hm : In m (zone_candidates bkt key z)) by (rewrite Fz; simpl; auto).
    apply in_zone_candidates in Hm. destruct Hm as [Hm Hl].
    exists zpre, (snd z), zpost, t.
    assert (Hzm : (fst m, snd z) = z).
    { rewrite Hm. simpl. destruct z; reflexivity. }
    rewrite Hzm. apply valid_candidate_split in Hv.
    repeat split; try tauto.
    + intros z' e' t' Hin Hl' Htp Ht'.
      apply (Hpre (fst z', e') t'); simpl; auto.
      * rewrite <- Fpre. apply candidate_of_zone; auto.
      * apply valid_candidate_split. simpl. split; [auto|congruence].
    + intros z' e' t' Hin Hl' Htp Ht'.
      apply (Hpost (fst z', e') t'); simpl; auto.
      * rewrite <- Fpost. apply candidate_of_zone; auto.
      * apply valid_candidate_split. simpl. split; [auto|congruence].
  - intros Hnone z e Hz He.
    specialize (Hnone (fst z, e) (candidate_of_zone _ _ _ _ _ Hz He)).
    destruct (takes_part ign e) eqn:Htp; [|auto]. right.
    destruct (entry_LastModified e) eqn:Ht; [|reflexivity].
    assert (is_valid_candidate ign (fst z, e) = true).
    { apply valid_candidate_split. simpl. split; [auto|congruence]. }
    congruence.
Qed.

(** ** The verdict *)

Lemma all_equal_nodup_short (l : list string) (s : string) :
  NoDup l -> (forall x, In x l -> x = s) -> (List.length l <= 1)%nat.
Proof.
  intros Hnd Hall. destruct l as [|a [|b l]]; simpl; try lia.
  exfalso. inversion Hnd as [|? ? Hnotin _]; subst. apply Hnotin.
  rewrite (Hall a), (Hall b); simpl; auto.
Qed.

Lemma one_distinct_value (l : list string) :
  ((0 <? List.length l)%nat && (distinct_count l =? 1)%nat)%bool = true <->
  exists s, In s l /\ forall s', In s' l -> s' = s.
Proof.
  unfold distinct_count. rewrite andb_true_iff, Nat.ltb_lt, Nat.eqb_eq. split.
  - intros [_ Hone].
    destruct (nodup string_dec l) as [|s [|s2 rest]] eqn:Hn; simpl in Hone; try lia.
    exists s. split.
    + apply (nodup_In string_dec). rewrite Hn. simpl; auto.
    + intros s' Hs'. apply (nodup_In string_dec) in Hs'. rewrite Hn in Hs'.
      destruct Hs' as [->|[]]. reflexivity.
  - intros (s & Hin & Hall). split.
    + destruct l; [contradiction|simpl; lia].
    + assert (Hle : (List.length (nodup string_dec l) <= 1)%nat).
      { apply (all_equal_nodup_short _ s).
        - apply NoDup_nodup.
        - intros x Hx. apply Hall. apply (nodup_In string_dec). exact Hx. }
      assert (Hpos : In s (nodup string_dec l)) by (apply nodup_In; exact Hin).
      destruct (nodup string_dec l); [contradiction|simpl in *; lia].
Qed.

(** ** The rows of a report *)

Lemma report_of_request (key currentZone : string) (bucket : option string) (r : report) :
  consistency_check key currentZone bucket = Return r ->
  exists d g rd,
    fetch_zones (target_bucket bucket) key ([], []) S3_ZONES
    = Return (d, flat_map (zone_candidates (target_bucket bucket) key) S3_ZONES) /\
    global_latest key bucket = Return g /\
    best_of true (flat_map (zone_candidates (target_bucket bucket) key) S3_ZONES) rd /\
    r = build_response d g rd currentZone.
Proof.
  intros H. apply consistency_check_inv in H.
  destruct H as (d & c & g & rd & _ & Hf & -> & Hg & _ & _ & Brd & ->).
  exists d, g, rd. repeat split; auto.
  unfold global_latest. rewrite Hf. simpl. exact Hg.
Qed.

Lemma row_of_zone (key currentZone : string) (bucket : option string) (r : report)
    (z : string * string) (v : zone_view) :
  NoDup (map fst S3_ZONES) ->
  consistency_check key currentZone bucket = Return r ->
  In z S3_ZONES ->
  view_zone (target_bucket bucket) key z = Return v ->
  exists g,
    global_latest key bucket = Return g /\
    In (zone_row_of (is_delete_marker_entry (option_map snd g))
          (comparator_of (option_map snd g))
          (fst z, info_of_view (fst z) v))
       (per_zone r).
Proof.
  intros Hnd H Hz Hv. apply report_of_request in H.
  destruct H as (d & g & rd & Hf & Hg & _ & ->).
  exists g. split; [exact Hg|]. simpl. apply in_map.
  destruct (fetch_zones_dict _ _ _ _ _ _ _ Hf Hnd) as (d1 & -> & HF).
  { intros z' _ []. }
  simpl. destruct (Forall2_In_left _ _ _ HF z Hz) as ([k info] & Hin & Hk & v' & Hv' & Hinfo).
  simpl in Hk, Hinfo. subst k info. rewrite Hv in Hv'. injection Hv' as <-. exact Hin.
Qed.

(** ** Claims on the classification of a zone *)

(** C2. A zone whose fetch succeeded and whose latest entry [e] is present
    gets the state [Latest] exactly when [e] has a timestamp, a global
    latest exists, and the two timestamps agree once their microseconds are
    set to zero; it gets [Outdated] in every other case.  Zone names are
    taken to be unique, as the data model states. *)
Theorem zone_with_entry_is_Latest_iff_same_second
    (key currentZone : string) (bucket : option string) (r : report)
    (zname zurl : string) (resp : versions_response) (e : entry) :
  NoDup (map fst S3_ZONES) ->
  consistency_check key currentZone bucket = Return r ->
  In (zname, zurl) S3_ZONES ->
  list_object_versions zurl (target_bucket bucket) key = Return resp ->
  latest_entry_for_key (versions_for_key key resp) = Return (Some e) ->
  exists row g,
    In row (per_zone r) /\ pz_zone row = zname /\
    pz_latest row = entry_to_brief (Some e) /\
    global_latest key bucket = Return g /\
    (pz_state row = Latest <->
     exists t gz ge tg,
       entry_LastModified e = Some t /\ g = Some (gz, ge) /\
       entry_LastModified ge = Some tg /\
       replace_microsecond0 t = replace_microsecond0 tg) /\
    (pz_state row <> Latest -> pz_state row = Outdated).
Proof.
  intros Hnd Hr Hz Hresp Hlatest.
  pose proof (view_zone_fetched (target_bucket bucket) key (zname, zurl) resp (Some e)
                Hresp Hlatest) as Hv.
  destruct (row_of_zone _ _ _ _ _ _ Hnd Hr Hz Hv) as (g & Hg & Hrow).
  eexists. exists g. split; [exact Hrow|].
  split; [reflexivity|]. split; [reflexivity|]. split; [exact Hg|].
  simpl. unfold classify, comparator_of, entry_LastModified. simpl.
  destruct g as [[gz ge]|]; simpl.
  2:{ split; [split; [discriminate|]|reflexivity].
      intros (t & gz & ge & tg & _ & Habs & _). discriminate. }
  destruct (LastModified (record ge)) as [tg|] eqn:Etg; simpl.
  2:{ split; [split; [discriminate|]|reflexivity].
      intros (t & gz' & ge' & tg & _ & Habs & Etg' & _).
      injection Habs as <- <-. congruence. }
  destruct (LastModified (record e)) as [t|] eqn:Et; simpl.
  2:{ split; [split; [discriminate|]|reflexivity].
      intros (t & _ & _ & _ & Habs & _). discriminate. }
  destruct (dt_eqb (replace_microsecond0 t) (replace_microsecond0 tg)) eqn:Heq.
  - split; [split; [|reflexivity]|congruence].
    intros _. exists t, gz, ge, tg. repeat split; auto.
    apply dt_eqb_eq. exact Heq.
  - split; [split; [discriminate|]|reflexivity].
    intros (t' & gz' & ge' & tg' & Et' & Habs & Etg' & Hsame).
    injection Habs as <- <-. injection Et' as <-.
    rewrite Etg in Etg'. injection Etg' as <-.
    apply dt_eqb_eq in Hsame. congruence.
Qed.

(** C3. A zone whose fetch succeeded and which holds no record of the key
    gets the state [Latest] when the global latest is a delete marker, and
    [Missing] when it is not, also when there is no global latest at all.
    Zone names are taken to be unique, as the data model states. *)
Theorem zone_without_entry_is_Latest_or_Missing
    (key currentZone : string) (bucket : option string) (r : report)
    (zname zurl : string) (resp : versions_response) :
  NoDup (map fst S3_ZONES) ->
  consistency_check key currentZone bucket = Return r ->
  In (zname, zurl) S3_ZONES ->
  list_object_versions zurl (target_bucket bucket) key = Return resp ->
  versions_for_key key resp = [] ->
  exists row g,
    In row (per_zone r) /\ pz_zone row = zname /\
    pz_latest row = None /\ pz_error row = None /\
    global_latest key bucket = Return g /\
    pz_state row = match g with
                   | Some (_, ge) => if IsDeleteMarker ge then Latest else Missing
                   | None => Missing
                   end.
Proof.
  intros Hnd Hr Hz Hresp Hempty.
  assert (Hlatest : latest_entry_for_key (versions_for_key key resp) = Return None)
    by (rewrite Hempty; reflexivity).
  pose proof (view_zone_fetched (target_bucket bucket) key (zname, zurl) resp None
                Hresp Hlatest) as Hv.
  destruct (row_of_zone _ _ _ _ _ _ Hnd Hr Hz Hv) as (g & Hg & Hrow).
  eexists. exists g. split; [exact Hrow|].
  repeat (split; [reflexivity || exact Hg|]).
  simpl. unfold classify. simpl. destruct g as [[gz ge]|]; reflexivity.
Qed.

(** ** Claims on the shape of the report *)

(** Whatever the zone names, a report has one row per distinct name, at the
    place of the name's first occurrence. *)
Lemma per_zone_names_in_general
    (key currentZone : string) (bucket : option string) (r : report) :
  consistency_check key currentZone bucket = Return r ->
  map pz_zone (per_zone r) = distinct_names (map fst S3_ZONES).
Proof.
  intros Hr. apply report_of_request in Hr.
  destruct Hr as (d & g & rd & Hf & _ & _ & ->).
  simpl. rewrite map_map. simpl. apply (fetch_zones_names _ _ _ _ _ _ _ Hf).
Qed.


(** C9. The [per_zone] array of a report has one element per configured
    zone, in the configured order, whatever each zone's call returned or
    raised.  Zone names are taken to be unique, as the data model states. *)
Theorem per_zone_follows_configured_zones
    (key currentZone : string) (bucket : option string) (r : report) :
  NoDup (map fst S3_ZONES) ->
  consistency_check key currentZone bucket = Return r ->
  map pz_zone (per_zone r) = map fst S3_ZONES.
Proof.
  intros Hnd Hr. apply report_of_request in Hr.
  destruct Hr as (d & g & rd & Hf & _ & _ & ->).
  destruct (fetch_zones_dict _ _ _ _ _ _ _ Hf Hnd) as (d1 & -> & HF).
  { intros z' _ []. }
  simpl. rewrite map_map. simpl.
  apply (zone_entries_keys _ _ _ _ HF).
Qed.

(** C10. A recommended download zone is a configured zone whose call
    returned a response, and its row in the report has no error and a latest
    entry of type [Version] with a [last_modified].  Zone names are taken to
    be unique, as the data model states. *)
Theorem recommended_zone_holds_a_version
    (key currentZone : string) (bucket : option string) (r : report) (zname : string) :
  NoDup (map fst S3_ZONES) ->
  consistency_check key currentZone bucket = Return r ->
  recommended_download_zone r = Some zname ->
  exists zurl resp row b,
    In (zname, zurl) S3_ZONES /\
    list_object_versions zurl (target_bucket bucket) key = Return resp /\
    In row (per_zone r) /\ pz_zone row = zname /\
    pz_error row = None /\ pz_state row <> Unknown /\
    pz_latest row = Some b /\ type b = Version /\ last_modified b <> None.
Proof.
  intros Hnd Hr Hrec.
  destruct (report_of_request _ _ _ _ Hr) as (d & g & rd & Hf & Hg & Brd & Er).
  assert (Hrd : option_map fst rd = Some zname) by (rewrite Er in Hrec; exact Hrec).
  destruct rd as [[zn e]|]; [|discriminate]. simpl in Hrd. injection Hrd as ->.
  apply best_of_first_maximum in Brd. simpl in Brd.
  destruct Brd as (zpre & zurl & zpost & t & Hz & Hl & Htp & Ht & _).
  assert (Hin : In (zname, zurl) S3_ZONES) by (rewrite Hz; apply in_elt).
  destruct (zone_latest_fetched _ _ _ _ Hl) as (resp & Hresp & Hlatest).
  simpl in Hresp.
  pose proof (view_zone_fetched (target_bucket bucket) key (zname, zurl) resp (Some e)
                Hresp Hlatest) as Hv.
  destruct (row_of_zone _ _ _ _ _ _ Hnd Hr Hin Hv) as (g' & Hg' & Hrow).
  exists zurl, resp. eexists. eexists. split; [exact Hin|]. split; [exact Hresp|].
  split; [exact Hrow|]. split; [reflexivity|]. split; [reflexivity|].
  unfold takes_part in Htp. simpl in Htp.
  unfold entry_LastModified in Ht.
  simpl. unfold classify. simpl. rewrite Ht. simpl.
  destruct (IsDeleteMarker e); [discriminate|].
  repeat split; try discriminate.
  destruct (comparator_of (option_map snd g')) as [c|]; [|discriminate].
  match goal with |- context [if ?b then _ else _] => destruct b end; discriminate.
Qed.

(** ** Claims on the two selections *)

(** C4. The global latest is the latest entry of a zone whose fetch
    succeeded; its timestamp is maximal among the latest entries of such
    zones, and every zone configured before it has a strictly smaller one, so
    on a tie the zone configured first is chosen.  There is no global latest
    exactly when no such entry has a timestamp. *)
Theorem global_latest_is_first_maximum
    (key : string) (bucket : option string) (g : option (string * entry)) :
  global_latest key bucket = Return g ->
  match g with
  | Some (zname, e) => first_maximum false (target_bucket bucket) key zname e
  | None =>
      forall z e, In z S3_ZONES ->
                  zone_latest (target_bucket bucket) key z = Some e ->
                  entry_LastModified e = None
  end.
Proof.
  intros Hg. apply global_latest_inv in Hg. apply best_of_first_maximum in Hg.
  destruct g as [[zname e]|]; [exact Hg|].
  intros z e Hz He. destruct (Hg z e Hz He) as [Habs|H]; [discriminate|exact H].
Qed.

(** C5, amended.  The recommended download zone is chosen by the selection
    of the global latest applied to the latest entries that are not delete
    markers, and it is absent exactly when every zone's latest entry is a
    delete marker or has no [LastModified]. *)
Theorem recommended_zone_is_first_maximum_of_versions
    (key currentZone : string) (bucket : option string) (r : report) :
  consistency_check key currentZone bucket = Return r ->
  (forall zname, recommended_download_zone r = Some zname ->
                 exists e, first_maximum true (target_bucket bucket) key zname e) /\
  (recommended_download_zone r = None <->
   forall z e, In z S3_ZONES ->
               zone_latest (target_bucket bucket) key z = Some e ->
               IsDeleteMarker e = true \/ entry_LastModified e = None).
Proof.
  intros Hr.
  destruct (report_of_request _ _ _ _ Hr) as (d & g & rd & _ & _ & Brd & ->).
  simpl. apply best_of_first_maximum in Brd. split.
  - intros zname Hrec. destruct rd as [[zn e]|]; [|discriminate].
    simpl in Hrec. injection Hrec as ->. exists e. exact Brd.
  - destruct rd as [[zn e]|]; simpl.
    + split; [discriminate|]. intros Hall. exfalso.
      destruct Brd as (zpre & zurl & zpost & t & Hz & Hl & Htp & Ht & _).
      simpl in *. unfold takes_part in Htp. simpl in Htp.
      destruct (Hall (zn, zurl) e) as [Hd|Hn]; auto.
      * rewrite Hz. apply in_elt.
      * rewrite Hd in Htp. discriminate.
      * congruence.
    + split; [|reflexivity]. intros _ z e Hz He.
      destruct (Brd z e Hz He) as [Htp|Hn]; [|auto].
      left. unfold takes_part in Htp. simpl in Htp.
      destruct (IsDeleteMarker e); [reflexivity|discriminate].
Qed.

(** ** Claim on the current zone *)

Lemma unknown_zone_has_no_record (key : string) (bucket : option string)
    (d : dict zone_info) (c : list (string * entry)) (currentZone : string) :
  fetch_zones (target_bucket bucket) key ([], []) S3_ZONES = Return (d, c) ->
  ~ In currentZone (map fst S3_ZONES) ->
  dict_get currentZone d = None.
Proof.
  intros Hf Hnot. apply dict_get_fresh. intros Hin.
  destruct (fetch_zones_keys _ _ _ _ _ _ _ _ Hf Hin) as [[]|Hz]. auto.
Qed.

Lemma find_zone_url_unknown (zones : list (string * string)) (name : string) :
  ~ In name (map fst zones) ->
  find_zone_url zones name
  = Raise (HTTPException 404 ("Zone '" ++ name ++ "' not found")).
Proof.
  induction zones as [|[n u] zones IH]; simpl; intros Hnot; [reflexivity|].
  destruct (String.eqb_spec n name) as [->|Hne]; [tauto|].
  apply IH. tauto.
Qed.

(** C7, amended.  A request whose current zone is not configured is not
    rejected: its outcome is that of the same request with any other current
    zone, with [current_zone_latest_is_delete_marker] false.  The 404 error
    for an unknown zone name is what [find_zone_url] raises, and the route
    does not call it. *)
Theorem unknown_current_zone_is_processed
    (key currentZone : string) (bucket : option string) :
  ~ In currentZone (map fst S3_ZONES) ->
  (forall otherZone,
      consistency_check key currentZone bucket
      = result_map (with_current_flag false) (consistency_check key otherZone bucket)) /\
  find_zone_url S3_ZONES currentZone
  = Raise (HTTPException 404 ("Zone '" ++ currentZone ++ "' not found")).
Proof.
  intros Hnot. split; [|apply find_zone_url_unknown; exact Hnot].
  intros otherZone. unfold consistency_check.
  destruct (truthy (py_or bucket DEFAULT_BUCKET)); simpl; [|reflexivity].
  fold (target_bucket bucket).
  destruct (fetch_zones (target_bucket bucket) key ([], []) S3_ZONES) as [[d c]|] eqn:Hf;
    simpl; [|reflexivity].
  destruct (find_best_version c false) as [g|]; simpl; [|reflexivity].
  destruct (find_best_version c true) as [rd|]; simpl; [|reflexivity].
  unfold build_response, with_current_flag. simpl.
  rewrite (unknown_zone_has_no_record _ _ _ _ _ Hf Hnot). reflexivity.
Qed.

(** ** The verdict and failed fetches *)

Lemma no_error_key (rows : list zone_row) :
  existsb has_error_key rows = false <->
  forall row, In row rows -> pz_error row = None.
Proof.
  induction rows as [|row rows IH]; simpl.
  - split; [intros _ row []|reflexivity].
  - rewrite orb_false_iff, IH. unfold has_error_key. split.
    + intros [H1 H2] row' [<-|Hin]; [|auto]. destruct (pz_error row); congruence.
    + intros H. split; [|intros row' Hin; apply H; auto].
      rewrite (H row); auto.
Qed.

(** The verdict in terms of the report: no row carries an ["error"] key, and
    the ETags of the rows whose latest entry is a version with a non-empty
    ETag are all the same one. *)
Lemma consistent_verdict (key currentZone : string) (bucket : option string) (r : report) :
  consistency_check key currentZone bucket = Return r ->
  (consistent r = true <->
   (forall row, In row (per_zone r) -> pz_error row = None) /\
   exists s, In s (carried_etags r) /\ forall s', In s' (carried_etags r) -> s' = s).
Proof.
  intros Hr. apply report_of_request in Hr. destruct Hr as (d & g & rd & _ & _ & _ & ->).
  unfold carried_etags. simpl.
  rewrite andb_true_iff, one_distinct_value, negb_true_iff, no_error_key. tauto.
Qed.

(** X2. A zone whose call raised a [ClientError] with a non-empty message is
    reported with that message, no latest entry and the state [Unknown], and
    the verdict is negative. *)
Lemma failed_zone_with_message
    (key currentZone : string) (bucket : option string) (r : report)
    (zname zurl : string) (response : error_response) (msg : string) :
  NoDup (map fst S3_ZONES) ->
  consistency_check key currentZone bucket = Return r ->
  In (zname, zurl) S3_ZONES ->
  list_object_versions zurl (target_bucket bucket) key = Raise (ClientError response) ->
  error_message response = IsStr msg ->
  truthy_str msg = true ->
  exists row,
    In row (per_zone r) /\ pz_zone row = zname /\ pz_error row = Some msg /\
    pz_latest row = None /\ pz_state row = Unknown /\ consistent r = false.
Proof.
  intros Hnd Hr Hz Hraise Hmsg Htruthy.
  assert (Hv : view_zone (target_bucket bucket) key (zname, zurl) = Return (Failed response)).
  { unfold view_zone. simpl. rewrite Hraise. reflexivity. }
  destruct (row_of_zone _ _ _ _ _ _ Hnd Hr Hz Hv) as (g & Hg & Hrow).
  eexists. split; [exact Hrow|]. simpl.
  unfold classify, get_error. simpl. rewrite Hmsg. simpl. rewrite Htruthy.
  repeat split.
  destruct (consistent r) eqn:Hc; [|reflexivity].
  apply (consistent_verdict _ _ _ _ Hr) in Hc. destruct Hc as [Hnone _].
  specialize (Hnone _ Hrow). simpl in Hnone. unfold get_error in Hnone. simpl in Hnone.
  rewrite Hmsg in Hnone. simpl in Hnone. rewrite Htruthy in Hnone. discriminate.
Qed.

(** A zone whose call raised a [ClientError] whose message is [None] or
    empty is reported like a zone without records: no ["error"] key, and the
    state [Latest] or [Missing]. *)
Lemma failed_zone_without_message
    (key currentZone : string) (bucket : option string) (r : report)
    (zname zurl : string) (response : error_response) :
  NoDup (map fst S3_ZONES) ->
  consistency_check key currentZone bucket = Return r ->
  In (zname, zurl) S3_ZONES ->
  list_object_versions zurl (target_bucket bucket) key = Raise (ClientError response) ->
  error_message response = IsNone \/ error_message response = IsStr EmptyString ->
  exists row g,
    In row (per_zone r) /\ pz_zone row = zname /\ pz_error row = None /\
    pz_latest row = None /\ global_latest key bucket = Return g /\
    pz_state row = if is_delete_marker_entry (option_map snd g) then Latest else Missing.
Proof.
  intros Hnd Hr Hz Hraise Hmsg.
  assert (Hv : view_zone (target_bucket bucket) key (zname, zurl) = Return (Failed response)).
  { unfold view_zone. simpl. rewrite Hraise. reflexivity. }
  destruct (row_of_zone _ _ _ _ _ _ Hnd Hr Hz Hv) as (g & Hg & Hrow).
  eexists. exists g. split; [exact Hrow|]. simpl.
  unfold classify, get_error. simpl.
  destruct Hmsg as [-> | ->]; simpl; auto 10.
Qed.

(** The loop gets through a zone whose call raises [ClientError], and through
    a zone whose records of the key all carry a [LastModified]. *)
Lemma view_zone_returns (bkt key : string) (z : string * string) :
  (exists response, list_object_versions (snd z) bkt key = Raise (ClientError response)) \/
  (exists resp, list_object_versions (snd z) bkt key = Return resp /\
                forall v, In v (versions_for_key key resp) -> entry_LastModified v <> None) ->
  exists v, view_zone bkt key z = Return v.
Proof.
  unfold view_zone. intros [(response & ->)|(resp & -> & Hall)]; [eauto|].
  destruct (latest_entry_for_key_returns _ Hall) as (latest & ->). simpl. eauto.
Qed.

End RouteProperties.

(** ** Claim on records of other keys *)

Lemma filter_tagged (key : string) (b : bool) (l : list raw_record) :
  filter (key_matches key) (map (tag b) l) = map (tag b) (filter (record_has_key key) l).
Proof.
  induction l as [|x l IH]; simpl; [reflexivity|].
  unfold key_matches at 1. simpl. fold (record_has_key key x).
  destruct (record_has_key key x); simpl; rewrite IH; reflexivity.
Qed.

Lemma versions_for_key_exact (key : string) (resp : versions_response) :
  versions_for_key key resp
  = map (tag false) (fst (exact_records key resp))
    ++ map (tag true) (snd (exact_records key resp)).
Proof.
  unfold versions_for_key, exact_records. simpl.
  rewrite filter_app, !filter_tagged. reflexivity.
Qed.

(** Every entry that reaches the latest-selection has the requested key. *)
Lemma versions_for_key_has_key (key : string) (resp : versions_response) (v : entry) :
  In v (versions_for_key key resp) -> Key (record v) = Some key.
Proof.
  unfold versions_for_key. intros H. apply filter_In in H. destruct H as [_ H].
  unfold key_matches in H. destruct (Key (record v)) as [k|]; [|discriminate].
  apply String.eqb_eq in H. congruence.
Qed.

Section OtherKeys.

Variable S3_ZONES : list (string * string).
Variable DEFAULT_BUCKET : option string.
Variables store store' : string -> string -> string -> result versions_response.
Variable key : string.

Hypothesis same_for_key :
  forall zone_url bkt,
    same_records_for_key key (store zone_url bkt key) (store' zone_url bkt key).

Lemma fetch_zone_other_keys (bkt : string)
    (acc : dict zone_info * list (string * entry)) (z : string * string) :
  fetch_zone store bkt key acc z = fetch_zone store' bkt key acc z.
Proof.
  unfold fetch_zone. specialize (same_for_key (snd z) bkt).
  destruct (store (snd z) bkt key) as [ra|ea], (store' (snd z) bkt key) as [rb|eb];
    simpl in same_for_key; try contradiction.
  - simpl. rewrite (versions_for_key_exact key ra), (versions_for_key_exact key rb).
    rewrite same_for_key. reflexivity.
  - subst eb. reflexivity.
Qed.

Lemma fetch_zones_other_keys (bkt : string) (zones : list (string * string)) :
  forall acc, fetch_zones store bkt key acc zones = fetch_zones store' bkt key acc zones.
Proof.
  induction zones as [|z zones IH]; simpl; intros acc; [reflexivity|].
  rewrite fetch_zone_other_keys.
  destruct (fetch_zone store' bkt key acc z); simpl; auto.
Qed.

(** C8. Records whose key is not exactly the requested key are dropped
    before the latest entry of a zone is selected: two stores whose
    responses hold the same records of the requested key, and differ in
    records of other keys only, lead to the same outcome of the request, so
    to the same latest entries, states and verdict. *)
Theorem records_of_other_keys_are_discarded
    (currentZone : string) (bucket : option string) :
  consistency_check S3_ZONES DEFAULT_BUCKET store key currentZone bucket
  = consistency_check S3_ZONES DEFAULT_BUCKET store' key currentZone bucket.
Proof.
  unfold consistency_check.
  destruct (truthy (py_or bucket DEFAULT_BUCKET)); simpl; [|reflexivity].
  rewrite fetch_zones_other_keys. reflexivity.
Qed.

End OtherKeys.

(** * Further properties of s3_utils.py *)

(** ** [sorted] *)

Section SortedOrder.
Context {A : Type} (key : A -> option datetime).

Local Abbreviation below_or_equal := (fun x y : A => key_not_above key x y).

Lemma insert_desc_length (x : A) (l r : list A) :
  insert_desc key x l = Return r -> List.length r = S (List.length l).
Proof.
  revert r. induction l as [|y ys IH]; simpl; intros r H.
  - injection H as <-. reflexivity.
  - unfold py_lt in H. destruct (key x), (key y); simpl in H; try discriminate.
    destruct (dt_ltb d d0).
    + destruct (insert_desc key x ys) as [r'|]; simpl in H; [|discriminate].
      injection H as <-. simpl. rewrite (IH r' eq_refl). reflexivity.
    + injection H as <-. reflexivity.
Qed.

Lemma sorted_reverse_length (l s : list A) :
  sorted_reverse key l = Return s -> List.length s = List.length l.
Proof.
  revert s. induction l as [|x xs IH]; simpl; intros s H.
  - injection H as <-. reflexivity.
  - destruct (sorted_reverse key xs) as [s'|]; simpl in H; [|discriminate].
    rewrite (insert_desc_length _ _ _ H), (IH s' eq_refl). reflexivity.
Qed.

(** The keys of a list that was ordered are all present once it has two
    elements. *)
Lemma sorted_reverse_keys (l s : list A) :
  sorted_reverse key l = Return s -> (2 <= List.length l)%nat ->
  forall x, In x l -> key x <> None.
Proof.
  revert s. induction l as [|x xs IH]; simpl; intros s H Hlen z Hz; [lia|].
  destruct (sorted_reverse key xs) as [s'|] eqn:Hs; simpl in H; [|discriminate].
  destruct s' as [|y ys].
  - apply sorted_reverse_length in Hs. simpl in Hs. lia.
  - simpl in H. unfold py_lt in H.
    destruct (key x) as [tx|] eqn:Ex; [|discriminate].
    destruct (key y) as [ty|] eqn:Ey; [|discriminate].
    destruct Hz as [<-|Hz]; [congruence|].
    destruct xs as [|x1 [|x2 xs']].
    + contradiction.
    + simpl in Hs. injection Hs as <- <-. destruct Hz as [<-|[]]. congruence.
    + apply (IH (y :: ys) eq_refl); [simpl; lia|exact Hz].
Qed.

Lemma insert_desc_sorted (x : A) (l r : list A) :
  insert_desc key x l = Return r ->
  StronglySorted below_or_equal l ->
  StronglySorted below_or_equal r.
Proof.
  revert r. induction l as [|y ys IH]; simpl; intros r H Hsorted.
  - injection H as <-. constructor; constructor.
  - unfold py_lt in H.
    destruct (key x) as [tx|] eqn:Ex; [|discriminate].
    destruct (key y) as [ty|] eqn:Ey; [|discriminate].
    simpl in H. inversion Hsorted as [|? ? Hys Hall]; subst.
    destruct (dt_ltb tx ty) eqn:Hlt.
    + destruct (insert_desc key x ys) as [r'|] eqn:Hins; simpl in H; [|discriminate].
      injection H as <-. constructor; [apply IH; auto|].
      apply Forall_forall. intros z Hz.
      apply (insert_desc_In key _ _ _ Hins) in Hz. destruct Hz as [->|Hz].
      * unfold key_not_above. rewrite Ex, Ey. apply dt_lt_not_gt. exact Hlt.
      * rewrite Forall_forall in Hall. auto.
    + injection H as <-. constructor; [exact Hsorted|].
      apply Forall_forall. intros z [<-|Hz].
      * unfold key_not_above. rewrite Ex, Ey. exact Hlt.
      * rewrite Forall_forall in Hall. specialize (Hall z Hz).
        unfold key_not_above in *. rewrite Ey in Hall. rewrite Ex.
        destruct (key z); [|contradiction]. dt_order.
Qed.

Lemma insert_desc_permutation (x : A) (l r : list A) :
  insert_desc key x l = Return r -> Permutation (x :: l) r.
Proof.
  revert r. induction l as [|y ys IH]; simpl; intros r H.
  - injection H as <-. apply Permutation_refl.
  - unfold py_lt in H. destruct (key x), (key y); simpl in H; try discriminate.
    destruct (dt_ltb d d0).
    + destruct (insert_desc key x ys) as [r'|]; simpl in H; [|discriminate].
      injection H as <-. eapply perm_trans; [apply perm_swap|].
      apply perm_skip. apply IH. reflexivity.
    + injection H as <-. apply Permutation_refl.
Qed.

(** The model of [sorted(.., reverse=True)] returns a permutation of its
    input in descending order of the keys. *)
Lemma sorted_reverse_sorted (l s : list A) :
  sorted_reverse key l = Return s ->
  Permutation l s /\ StronglySorted below_or_equal s.
Proof.
  revert s. induction l as [|x xs IH]; simpl; intros s H.
  - injection H as <-. split; constructor.
  - destruct (sorted_reverse key xs) as [s'|]; simpl in H; [|discriminate].
    destruct (IH s' eq_refl) as [Hperm Hsorted]. split.
    + eapply perm_trans; [apply perm_skip; exact Hperm|].
      apply insert_desc_permutation. exact H.
    + eapply insert_desc_sorted; eauto.
Qed.

End SortedOrder.

(** ** [latest_entry_for_key] and [previous_entry_for_key] *)

Lemma some_key_missing {A : Type} (key : A -> option datetime) (l : list A) :
  (forall x, In x l -> key x <> None) \/ (exists x, In x l /\ key x = None).
Proof.
  induction l as [|x xs [IH|(y & Hy & Ky)]].
  - left. intros x [].
  - destruct (key x) eqn:Kx.
    + left. intros z [<-|Hz]; [congruence|auto].
    + right. exists x. simpl; auto.
  - right. exists y. simpl; auto.
Qed.

(** X3. [latest_entry_for_key] returns [None] exactly on the empty list.  It
    raises, and then [TypeError], exactly when there are at least two records
    and one of them has no [LastModified]; a single record without
    [LastModified] is returned as it is. *)
Theorem latest_entry_for_key_outcome (versions : list entry) :
  match latest_entry_for_key versions with
  | Return latest =>
      (latest = None <-> versions = []) /\
      ((2 <= List.length versions)%nat ->
       forall v, In v versions -> entry_LastModified v <> None)
  | Raise e =>
      e = TypeError /\ (2 <= List.length versions)%nat /\
      exists v, In v versions /\ entry_LastModified v = None
  end.
Proof.
  destruct (latest_entry_for_key versions) as [latest|e] eqn:H.
  - split.
    + split; [intros ->; apply latest_entry_for_key_None; exact H|].
      intros ->. simpl in H. congruence.
    + unfold latest_entry_for_key in H. destruct versions as [|v vs]; [simpl; lia|].
      destruct (sorted_reverse entry_LastModified (v :: vs)) as [s|] eqn:Hs;
        simpl in H; [|discriminate].
      intros Hlen. eapply sorted_reverse_keys; eauto.
  - split; [eapply latest_entry_for_key_raises; eauto|].
    destruct (some_key_missing entry_LastModified versions) as [Hall|Hex].
    + destruct (latest_entry_for_key_returns versions Hall) as (l & Hl). congruence.
    + split; [|exact Hex].
      destruct versions as [|v [|w rest]]; simpl in *; try discriminate; lia.
Qed.

(** X4. When [previous_entry_for_key] returns an entry [p], the records are
    the latest entry, then [p], then records whose timestamps are not above
    [p]'s, up to their order; [p]'s timestamp is not above the latest
    entry's.  It returns [None] without ordering anything when there is no
    latest entry, and [None] when there are fewer than two records. *)
Theorem previous_entry_for_key_is_second (versions : list entry) (latest : option entry) :
  (forall p,
      previous_entry_for_key versions latest = Return (Some p) ->
      exists e rest,
        latest_entry_for_key versions = Return (Some e) /\
        Permutation versions (e :: p :: rest) /\
        key_not_above entry_LastModified e p /\
        forall x, In x rest -> key_not_above entry_LastModified p x) /\
  (latest = None \/ (List.length versions < 2)%nat ->
   previous_entry_for_key versions latest = Return None).
Proof.
  split.
  - intros p H. unfold previous_entry_for_key in H.
    destruct versions as [|v vs]; [discriminate|].
    destruct latest as [l|]; [|discriminate].
    destruct (sorted_reverse entry_LastModified (v :: vs)) as [s|] eqn:Hs;
      simpl in H; [|discriminate].
    injection H as H.
    destruct s as [|e [|p' rest]]; simpl in H; try discriminate.
    injection H as ->.
    destruct (sorted_reverse_sorted _ _ _ Hs) as [Hperm Hsorted].
    exists e, rest. unfold latest_entry_for_key. rewrite Hs. simpl.
    split; [reflexivity|]. split; [exact Hperm|].
    inversion Hsorted as [|? ? Htail Hall]; subst.
    inversion Htail as [|? ? _ Hall']; subst.
    rewrite Forall_forall in Hall, Hall'. split.
    + apply Hall. simpl; auto.
    + exact Hall'.
  - intros [->|Hlen].
    + destruct versions; reflexivity.
    + destruct versions as [|v [|w rest]]; simpl in Hlen; try lia.
      * reflexivity.
      * destruct latest; reflexivity.
Qed.

(** ** [find_zone_url] *)

(** X5. [find_zone_url] returns the endpoint of the first configured zone
    with the given name, and raises [HTTPException] 404 exactly when no
    configured zone has that name. *)
Theorem find_zone_url_first_match (zones : list (string * string)) (name : string) :
  match find_zone_url zones name with
  | Return u =>
      exists pre post,
        zones = pre ++ (name, u) :: post /\ ~ In name (map fst pre)
  | Raise e =>
      ~ In name (map fst zones) /\
      e = HTTPException 404 ("Zone '" ++ name ++ "' not found")
  end.
Proof.
  induction zones as [|[n u] zones IH]; simpl.
  - split; [tauto|reflexivity].
  - destruct (String.eqb_spec n name) as [->|Hne].
    + exists [], zones. simpl. split; [reflexivity|tauto].
    + destruct (find_zone_url zones name) as [u'|e].
      * destruct IH as (pre & post & -> & Hnot).
        exists ((n, u) :: pre), post. simpl. split; [reflexivity|tauto].
      * destruct IH as [Hnot ->]. split; [tauto|reflexivity].
Qed.

(** ** [entry_to_brief] *)

Lemma lstrip_spec (c : ascii) (s : string) :
  exists n, s = (replicate n c ++ lstrip c s)%string /\
            starts_with_char c (lstrip c s) = false.
Proof.
  induction s as [|a s (n & Hs & Hstart)]; simpl.
  - exists 0%nat. auto.
  - destruct (Ascii.eqb_spec a c) as [->|Hne].
    + exists (S n). simpl. rewrite <- Hs. auto.
    + exists 0%nat. simpl. split; [reflexivity|].
      apply Ascii.eqb_neq. exact Hne.
Qed.

Lemma rstrip_spec (c : ascii) (s : string) :
  exists m, s = (rstrip c s ++ replicate m c)%string /\
            ends_with_char c (rstrip c s) = false /\
            starts_with_char c (rstrip c s)
            = (starts_with_char c s && negb (String.eqb (rstrip c s) EmptyString))%bool.
Proof.
  induction s as [|a s (m & Hs & Hend & _)]; simpl.
  - exists 0%nat. auto.
  - destruct (rstrip c s) as [|b r] eqn:Er; simpl in *.
    + destruct (Ascii.eqb a c) eqn:Hac; simpl.
      * apply Ascii.eqb_eq in Hac. subst a. exists (S m). simpl. rewrite <- Hs. auto.
      * exists m. simpl. rewrite <- Hs, Hac. auto.
    + rewrite andb_false_r. exists m. simpl. rewrite <- Hs.
      rewrite andb_true_r. auto.
Qed.

Lemma strip_spec (c : ascii) (s : string) :
  exists n m,
    s = (replicate n c ++ strip c s ++ replicate m c)%string /\
    starts_with_char c (strip c s) = false /\
    ends_with_char c (strip c s) = false.
Proof.
  unfold strip.
  destruct (lstrip_spec c s) as (n & Hs & Hstart).
  destruct (rstrip_spec c (lstrip c s)) as (m & Hl & Hend & Hstart').
  exists n, m. split; [|split; [|exact Hend]].
  - rewrite <- Hl. exact Hs.
  - rewrite Hstart', Hstart. reflexivity.
Qed.

(** X6. The [etag] of a brief is the record's [ETag] without the quote
    characters around it, however many there are, and has no quote character
    at either end; it is absent exactly when the record has no [ETag] or an
    empty one. *)
Theorem brief_etag_is_unquoted (e : entry) (b : brief) :
  entry_to_brief (Some e) = Some b ->
  match etag b with
  | Some t =>
      exists raw n m,
        ETag (record e) = Some raw /\ raw <> EmptyString /\
        raw = (replicate n quote_char ++ t ++ replicate m quote_char)%string /\
        starts_with_char quote_char t = false /\
        ends_with_char quote_char t = false
  | None => ETag (record e) = None \/ ETag (record e) = Some EmptyString
  end.
Proof.
  intros H. injection H as <-. simpl.
  destruct (ETag (record e)) as [raw|]; simpl; [|auto].
  unfold truthy_str. destruct (String.eqb_spec raw EmptyString) as [->|Hne]; simpl; [auto|].
  destruct (strip_spec quote_char raw) as (n & m & Hraw & Hs & He).
  exists raw, n, m. auto.
Qed.

(** ** [find_best_version] *)

Lemma two_splits {A : Type} (pre : list A) :
  forall (m : A) (post pre' : list A) (m' : A) (post' : list A),
    pre ++ m :: post = pre' ++ m' :: post' ->
    (pre = pre' /\ m = m' /\ post = post') \/
    (In m pre' /\ In m' post) \/
    (In m' pre /\ In m post').
Proof.
  induction pre as [|a pre IH]; intros m post pre' m' post' H.
  - destruct pre' as [|a' pre']; simpl in H; injection H as -> ->.
    + auto.
    + right. left. split; [simpl; auto|apply in_elt].
  - destruct pre' as [|a' pre']; simpl in H; injection H as -> H.
    + right. right. split; [simpl; auto|]. rewrite <- H. apply in_elt.
    + destruct (IH _ _ _ _ _ H) as [(-> & -> & ->)|[[H1 H2]|[H1 H2]]].
      * auto.
      * right. left. simpl. auto.
      * right. right. simpl. auto.
Qed.

(** A selection has one answer. *)
Lemma best_of_unique (ign : bool) (candidates : list (string * entry))
    (g g' : option (string * entry)) :
  best_of ign candidates g -> best_of ign candidates g' -> g = g'.
Proof.
  destruct g as [m|], g' as [m'|]; simpl; intros H H'; auto.
  - destruct H as (pre & post & t & Hc & Hv & Ht & Hpre & Hpost).
    destruct H' as (pre' & post' & t' & Hc' & Hv' & Ht' & Hpre' & Hpost').
    rewrite Hc in Hc'.
    destruct (two_splits _ _ _ _ _ _ Hc') as [(_ & -> & _)|[[H1 H2]|[H1 H2]]].
    + reflexivity.
    + pose proof (Hpre' m t H1 Hv Ht) as Hlt.
      pose proof (Hpost m' t' H2 Hv' Ht') as Hge. congruence.
    + pose proof (Hpre m' t' H1 Hv' Ht') as Hlt.
      pose proof (Hpost' m t H2 Hv Ht) as Hge. congruence.
  - destruct H as (pre & post & t & Hc & Hv & _).
    rewrite (H' m) in Hv; [discriminate|]. rewrite Hc. apply in_elt.
  - destruct H' as (pre & post & t & Hc & Hv & _).
    rewrite (H m') in Hv; [discriminate|]. rewrite Hc. apply in_elt.
Qed.

Lemma valid_when_ignoring (c : string * entry) :
  is_valid_candidate true c = true -> is_valid_candidate false c = true.
Proof.
  unfold is_valid_candidate. simpl. rewrite andb_true_iff. tauto.
Qed.

Lemma best_without_delete_markers (candidates : list (string * entry))
    (g : option (string * entry)) :
  best_of false candidates g ->
  match g with
  | Some m => IsDeleteMarker (snd m) = false -> best_of true candidates g
  | None => best_of true candidates None
  end.
Proof.
  destruct g as [m|]; simpl.
  - intros (pre & post & t & Hc & Hv & Ht & Hpre & Hpost) Hnd.
    exists pre, post, t. repeat split; auto.
    + unfold is_valid_candidate in *. rewrite Hnd. exact Hv.
    + intros c t' Hin Hvc. apply Hpre; auto. apply valid_when_ignoring. exact Hvc.
    + intros c t' Hin Hvc. apply Hpost; auto. apply valid_when_ignoring. exact Hvc.
  - intros H c Hc. specialize (H c Hc).
    destruct (is_valid_candidate true c) eqn:Hv; [|reflexivity].
    apply valid_when_ignoring in Hv. congruence.
Qed.

(** X7. [find_best_version] never raises.  With [ignore_delete_markers] it
    returns a candidate that is not a delete marker and has a
    [LastModified]; it returns what the selection over all candidates returns
    whenever that one is not a delete marker, and nothing when that one
    returns nothing. *)
Theorem find_best_version_ignoring_delete_markers (candidates : list (string * entry)) :
  exists g rd,
    find_best_version candidates false = Return g /\
    find_best_version candidates true = Return rd /\
    (forall m, rd = Some m ->
               In m candidates /\ IsDeleteMarker (snd m) = false /\
               entry_LastModified (snd m) <> None) /\
    (forall m, g = Some m -> IsDeleteMarker (snd m) = false -> rd = g) /\
    (g = None -> rd = None).
Proof.
  destruct (find_best_version_spec candidates false) as (g & Hg & Bg).
  destruct (find_best_version_spec candidates true) as (rd & Hrd & Brd).
  exists g, rd. split; [exact Hg|]. split; [exact Hrd|].
  pose proof (best_without_delete_markers _ _ Bg) as Hw. split; [|split].
  - intros m ->. simpl in Brd.
    destruct Brd as (pre & post & t & Hc & Hv & Ht & _).
    split; [rewrite Hc; apply in_elt|].
    unfold is_valid_candidate in Hv. simpl in Hv. apply andb_true_iff in Hv.
    destruct Hv as [Hd _]. split; [|congruence].
    destruct (IsDeleteMarker (snd m)); [discriminate|reflexivity].
  - intros m -> Hnd. apply (best_of_unique true candidates); auto.
  - intros ->. apply (best_of_unique true candidates); auto.
Qed.

(** * Further properties of the [/consistency/check] route *)

Lemma latest_entry_for_key_returns_iff (versions : list entry) :
  (exists latest, latest_entry_for_key versions = Return latest) <->
  ((2 <= List.length versions)%nat ->
   forall v, In v versions -> entry_LastModified v <> None).
Proof.
  split.
  - intros (latest & H) Hlen. unfold latest_entry_for_key in H.
    destruct versions as [|v vs]; [simpl in Hlen; lia|].
    destruct (sorted_reverse entry_LastModified (v :: vs)) as [s|] eqn:Hs;
      simpl in H; [|discriminate].
    eapply sorted_reverse_keys; eauto.
  - intros H. destruct versions as [|v [|w rest]].
    + exists None. reflexivity.
    + exists (Some v). reflexivity.
    + apply latest_entry_for_key_returns. apply H. simpl. lia.
Qed.

Lemma add_name_NoDup (names : list string) (k : string) :
  NoDup names -> NoDup (add_name names k).
Proof.
  intros H. unfold add_name.
  destruct (existsb (String.eqb k) names) eqn:He; [exact H|].
  apply NoDup_app; [exact H|repeat constructor; intros []|].
  intros x Hx [Heq|[]]. subst x.
  assert (existsb (String.eqb k) names = true); [|congruence].
  apply existsb_exists. exists k. split; [exact Hx|apply String.eqb_refl].
Qed.

Lemma add_name_In (names : list string) (k n : string) :
  In n (add_name names k) <-> In n names \/ n = k.
Proof.
  unfold add_name. destruct (existsb (String.eqb k) names) eqn:He.
  - apply existsb_exists in He. destruct He as (x & Hx & Heq).
    apply String.eqb_eq in Heq. subst x. split; [auto|]. intros [H| ->]; auto.
  - rewrite in_app_iff. simpl. intuition.
Qed.

Lemma fold_add_name_spec (l : list string) :
  forall names,
    NoDup names ->
    NoDup (fold_left add_name l names) /\
    forall n, In n (fold_left add_name l names) <-> In n names \/ In n l.
Proof.
  induction l as [|k l IH]; simpl; intros names Hnd.
  - split; [exact Hnd|]. intros n. tauto.
  - destruct (IH (add_name names k) (add_name_NoDup _ _ Hnd)) as [H1 H2].
    split; [exact H1|]. intros n. rewrite H2, add_name_In. intuition.
Qed.

Lemma dict_get_unique {V : Type} (d : dict V) (k : string) (v : V) :
  NoDup (map fst d) -> In (k, v) d -> dict_get k d = Some v.
Proof.
  induction d as [|[k' v'] d IH]; simpl; intros Hnd Hin; [contradiction|].
  inversion Hnd as [|? ? Hnotin Hnd']; subst.
  destruct Hin as [Heq|Hin].
  - injection Heq as -> ->. rewrite String.eqb_refl. reflexivity.
  - destruct (String.eqb_spec k' k) as [->|Hne]; [|auto].
    exfalso. apply Hnotin. apply (in_map fst) in Hin. exact Hin.
Qed.

Lemma dict_get_In {V : Type} (d : dict V) (k : string) (v : V) :
  dict_get k d = Some v -> In (k, v) d.
Proof.
  induction d as [|[k' v'] d IH]; simpl; [discriminate|].
  destruct (String.eqb_spec k' k) as [->|Hne].
  - intros H; injection H as ->. auto.
  - auto.
Qed.

Lemma dict_set_In {V : Type} (k : string) (v : V) (d : dict V) (kv : string * V) :
  In kv (dict_set k v d) -> kv = (k, v) \/ In kv d.
Proof.
  induction d as [|[k' v'] d IH]; simpl.
  - intros [<-|[]]. auto.
  - destruct (String.eqb_spec k' k) as [->|Hne]; simpl.
    + intros [<-|H]; auto.
    + intros [<-|H]; auto. apply IH in H. tauto.
Qed.

Section RouteFurther.

Variable S3_ZONES : list (string * string).
Variable DEFAULT_BUCKET : option string.
Variable list_object_versions : string -> string -> string -> result versions_response.

Local Abbreviation fetch_zone := (fetch_zone list_object_versions).
Local Abbreviation fetch_zones := (fetch_zones list_object_versions).
Local Abbreviation consistency_check :=
  (consistency_check S3_ZONES DEFAULT_BUCKET list_object_versions).
Local Abbreviation view_zone := (view_zone list_object_versions).
Local Abbreviation zone_latest := (zone_latest list_object_versions).
Local Abbreviation zone_candidates := (zone_candidates list_object_versions).
Local Abbreviation target_bucket := (target_bucket DEFAULT_BUCKET).
Local Abbreviation global_latest := (global_latest S3_ZONES DEFAULT_BUCKET list_object_versions).
Local Abbreviation zone_passes := (zone_passes list_object_versions).
Local Abbreviation zone_aborts_with := (zone_aborts_with list_object_versions).

(** ** Which requests return a report *)

Lemma view_zone_returns_iff (bkt key : string) (z : string * string) :
  (exists v, view_zone bkt key z = Return v) <-> zone_passes bkt key z.
Proof.
  unfold view_zone, zone_passes.
  destruct (list_object_versions (snd z) bkt key) as [resp|e] eqn:Hcall.
  - pose proof (latest_entry_for_key_returns_iff (versions_for_key key resp)) as Hiff.
    split.
    + intros (v & Hv). right. exists resp. split; [reflexivity|].
      apply Hiff.
      destruct (latest_entry_for_key (versions_for_key key resp)) as [l|];
        [eauto|discriminate].
    + intros [(response & Habs)|(resp' & Heq & Hall)]; [discriminate|].
      injection Heq as <-. apply Hiff in Hall. destruct Hall as (l & ->).
      simpl. eauto.
  - split.
    + intros (v & Hv). destruct e; try discriminate. left. eauto.
    + intros [(response & Heq)|(resp & Habs & _)]; [|discriminate].
      injection Heq as ->. eauto.
Qed.

Lemma view_zone_raises (bkt key : string) (z : string * string) (e : exn) :
  zone_aborts_with bkt key z e -> view_zone bkt key z = Raise e.
Proof.
  unfold view_zone, zone_aborts_with.
  intros [[Hcall Hnot]|(resp & Hcall & -> & Hlen & v & Hv & Hnone)]; rewrite Hcall.
  - destruct e; try reflexivity. exfalso. eapply Hnot. reflexivity.
  - destruct (latest_entry_for_key (versions_for_key key resp)) as [l|e] eqn:Hl; simpl.
    + exfalso.
      assert (Hex : exists latest,
                 latest_entry_for_key (versions_for_key key resp) = Return latest)
        by eauto.
      destruct (latest_entry_for_key_returns_iff (versions_for_key key resp)) as [Hfw _].
      apply (Hfw Hex Hlen v Hv Hnone).
    + rewrite (latest_entry_for_key_raises _ _ Hl). reflexivity.
Qed.

Lemma fetch_zones_each_returns (bkt key : string) (zones : list (string * string)) :
  forall acc acc',
    fetch_zones bkt key acc zones = Return acc' ->
    forall z, In z zones -> exists v, view_zone bkt key z = Return v.
Proof.
  induction zones as [|z0 zones IH]; simpl; intros acc acc' H z Hz; [contradiction|].
  rewrite fetch_zone_view in H.
  destruct (view_zone bkt key z0) as [v|] eqn:Hv; simpl in H; [|discriminate].
  destruct Hz as [<-|Hz]; [eauto|]. eapply IH; eauto.
Qed.

Lemma fetch_zones_stops (bkt key : string) (pre : list (string * string)) :
  forall acc z post e,
    (forall z', In z' pre -> exists v, view_zone bkt key z' = Return v) ->
    view_zone bkt key z = Raise e ->
    fetch_zones bkt key acc (pre ++ z :: post) = Raise e.
Proof.
  induction pre as [|z0 pre IH]; simpl; intros acc z post e Hpre Hz.
  - rewrite fetch_zone_view, Hz. reflexivity.
  - rewrite fetch_zone_view. destruct (Hpre z0) as (v & ->); [auto|]. simpl.
    apply IH; auto.
Qed.

(** X8. A request returns a report exactly when a bucket is known and the
    loop gets through every configured zone: each call either raises
    [ClientError] or returns records of the key that can be ordered, that is,
    fewer than two of them or all with a [LastModified]. *)
Theorem request_returns_a_report_iff
    (key currentZone : string) (bucket : option string) :
  (exists r, consistency_check key currentZone bucket = Return r) <->
  truthy (py_or bucket DEFAULT_BUCKET) = true /\
  forall z, In z S3_ZONES -> zone_passes (target_bucket bucket) key z.
Proof.
  split.
  - intros (r & Hr). apply consistency_check_inv in Hr.
    destruct Hr as (d & c & g & rd & Hb & Hf & _).
    split; [exact Hb|]. intros z Hz. apply view_zone_returns_iff.
    eapply fetch_zones_each_returns; eauto.
  - intros [Hb Hall]. apply consistency_check_returns; [exact Hb|].
    intros z Hz. apply view_zone_returns_iff. auto.
Qed.

(** X9. An exception of a zone's call that is not a [ClientError], and the
    [TypeError] of ordering records of which one has no [LastModified], are
    not caught: the request raises the exception of the first configured
    zone that has one, whatever the zones after it return. *)
Theorem first_uncaught_exception_aborts_the_request
    (key currentZone : string) (bucket : option string)
    (pre post : list (string * string)) (z : string * string) (e : exn) :
  truthy (py_or bucket DEFAULT_BUCKET) = true ->
  S3_ZONES = pre ++ z :: post ->
  (forall z', In z' pre -> zone_passes (target_bucket bucket) key z') ->
  zone_aborts_with (target_bucket bucket) key z e ->
  consistency_check key currentZone bucket = Raise e.
Proof.
  intros Hb Hz Hpre Habort. unfold consistency_check.
  rewrite Hb. simpl. fold (target_bucket bucket). rewrite Hz.
  rewrite (fetch_zones_stops (target_bucket bucket) key pre ([], []) z post e).
  - reflexivity.
  - intros z' Hz'. apply view_zone_returns_iff. auto.
  - apply view_zone_raises. exact Habort.
Qed.

(** ** The rows of a report, whatever the zone names *)

Lemma fetch_zones_entries (bkt key : string) (zones : list (string * string)) :
  forall d0 c0 d c,
    fetch_zones bkt key (d0, c0) zones = Return (d, c) ->
    forall kv, In kv d ->
      In kv d0 \/
      exists z v, In z zones /\ fst kv = fst z /\
                  view_zone bkt key z = Return v /\
                  snd kv = info_of_view (fst z) v.
Proof.
  induction zones as [|z zones IH]; simpl; intros d0 c0 d c H kv Hkv.
  - injection H as <- <-. auto.
  - rewrite fetch_zone_view in H.
    destruct (view_zone bkt key z) as [v|] eqn:Hv; simpl in H; [|discriminate].
    destruct (IH _ _ _ _ H kv Hkv) as [Hin|(z' & v' & Hz' & H1 & H2 & H3)].
    + apply dict_set_In in Hin. destruct Hin as [->|Hin]; [|auto].
      right. exists z, v. simpl. auto.
    + right. exists z', v'. auto.
Qed.

Lemma fetched_dict (key currentZone : string) (bucket : option string) (r : report) :
  consistency_check key currentZone bucket = Return r ->
  exists d g rd,
    r = build_response d g rd currentZone /\
    global_latest key bucket = Return g /\
    NoDup (map fst d) /\
    map fst d = distinct_names (map fst S3_ZONES) /\
    forall kv, In kv d ->
      exists z v, In z S3_ZONES /\ fst kv = fst z /\
                  view_zone (target_bucket bucket) key z = Return v /\
                  snd kv = info_of_view (fst z) v.
Proof.
  intros Hr. apply report_of_request in Hr.
  destruct Hr as (d & g & rd & Hf & Hg & _ & ->).
  exists d, g, rd. split; [reflexivity|]. split; [exact Hg|].
  pose proof (fetch_zones_names _ _ _ _ _ _ _ _ Hf) as Hnames. simpl in Hnames.
  fold (distinct_names (map fst S3_ZONES)) in Hnames.
  split; [|split; [exact Hnames|]].
  - rewrite Hnames. apply (fold_add_name_spec (map fst S3_ZONES) []). constructor.
  - intros kv Hkv.
    destruct (fetch_zones_entries _ _ _ _ _ _ _ Hf kv Hkv) as [[]|H]. exact H.
Qed.

(** X10. Whatever the configured names, a report has exactly one row for
    each distinct zone name, at the place of the name's first occurrence:
    no two rows share a name, and the names of the rows are those of the
    configured zones. *)
Theorem per_zone_has_one_row_per_name
    (key currentZone : string) (bucket : option string) (r : report) :
  consistency_check key currentZone bucket = Return r ->
  NoDup (map pz_zone (per_zone r)) /\
  (forall n, In n (map pz_zone (per_zone r)) <-> In n (map fst S3_ZONES)) /\
  map pz_zone (per_zone r) = distinct_names (map fst S3_ZONES).
Proof.
  intros Hr. destruct (fetched_dict _ _ _ _ Hr) as (d & g & rd & -> & _ & Hnd & Hnames & _).
  assert (Hrows : map pz_zone (per_zone (build_response d g rd currentZone)) = map fst d).
  { simpl. rewrite map_map. reflexivity. }
  rewrite Hrows. split; [exact Hnd|]. split; [|exact Hnames].
  intros n. rewrite Hnames.
  destruct (fold_add_name_spec (map fst S3_ZONES) [] (NoDup_nil _)) as [_ H].
  unfold distinct_names. rewrite H. simpl. tauto.
Qed.

(** X11. The state of a row agrees with its other fields: [Unknown] rows,
    and only they, carry an error, which is a non-empty message, and they
    have no latest entry; [Missing] rows have no latest entry; [Outdated]
    rows have one. *)
Theorem row_state_agrees_with_its_fields
    (key currentZone : string) (bucket : option string) (r : report) (row : zone_row) :
  consistency_check key currentZone bucket = Return r ->
  In row (per_zone r) ->
  match pz_state row with
  | Unknown =>
      pz_latest row = None /\
      exists msg, pz_error row = Some msg /\ msg <> EmptyString
  | Missing => pz_error row = None /\ pz_latest row = None
  | Outdated => pz_error row = None /\ pz_latest row <> None
  | Latest => pz_error row = None
  end.
Proof.
  intros Hr Hrow.
  destruct (fetched_dict _ _ _ _ Hr) as (d & g & rd & -> & _ & _ & _ & Horigin).
  simpl in Hrow. apply in_map_iff in Hrow. destruct Hrow as ([k info] & <- & Hin).
  destruct (Horigin _ Hin) as (z & v & _ & _ & _ & Hinfo). simpl in Hinfo. subst info.
  unfold zone_row_of, classify. simpl.
  destruct v as [latest|response]; simpl.
  - destruct (entry_to_brief latest) as [b|]; simpl.
    + destruct (comparator_of (option_map snd g)) as [c|]; simpl.
      * match goal with |- context [if ?b then _ else _] => destruct b end;
          simpl; split; auto; discriminate.
      * split; [reflexivity|discriminate].
    + destruct (is_delete_marker_entry (option_map snd g)); simpl; auto.
  - unfold get_error. simpl.
    destruct (error_message response) as [| |msg]; simpl.
    + destruct (is_delete_marker_entry (option_map snd g)); simpl; auto.
    + destruct (is_delete_marker_entry (option_map snd g)); simpl; auto.
    + unfold truthy_str. destruct (String.eqb_spec msg EmptyString) as [->|Hne]; simpl.
      * destruct (is_delete_marker_entry (option_map snd g)); simpl; auto.
      * split; [reflexivity|]. exists msg. auto.
Qed.

(** X12. [current_zone_latest_is_delete_marker] is true exactly when the
    report has a row for the current zone whose latest entry is a delete
    marker, whatever the state of that row. *)
Theorem current_zone_flag_iff_row_is_delete_marker
    (key currentZone : string) (bucket : option string) (r : report) :
  consistency_check key currentZone bucket = Return r ->
  (current_zone_latest_is_delete_marker r = true <->
   exists row b,
     In row (per_zone r) /\ pz_zone row = currentZone /\
     pz_latest row = Some b /\ type b = DeleteMarker).
Proof.
  intros Hr. destruct (fetched_dict _ _ _ _ Hr) as (d & g & rd & -> & _ & Hnd & _ & _).
  simpl. split.
  - destruct (dict_get currentZone d) as [info|] eqn:Hget; [|discriminate].
    destruct (zi_latest info) as [b|] eqn:Hb; [|discriminate].
    intros Htype. apply dict_get_In in Hget.
    exists (zone_row_of (is_delete_marker_entry (option_map snd g))
              (comparator_of (option_map snd g)) (currentZone, info)), b.
    split; [apply in_map; exact Hget|]. simpl.
    split; [reflexivity|]. split; [exact Hb|].
    destruct (type b); [discriminate|reflexivity].
  - intros (row & b & Hin & Hzone & Hlatest & Htype).
    apply in_map_iff in Hin. destruct Hin as ([k info] & <- & Hin).
    simpl in Hzone, Hlatest. subst k.
    rewrite (dict_get_unique d currentZone info Hnd Hin), Hlatest, Htype. reflexivity.
Qed.

(** ** The global latest and the recommendation *)

(** X13. The zone of the global latest is classified [Latest], and its row
    shows the global latest entry.  Zone names are taken to be unique. *)
Theorem zone_of_global_latest_is_Latest
    (key currentZone : string) (bucket : option string) (r : report)
    (zname : string) (e : entry) :
  NoDup (map fst S3_ZONES) ->
  consistency_check key currentZone bucket = Return r ->
  global_latest key bucket = Return (Some (zname, e)) ->
  exists row,
    In row (per_zone r) /\ pz_zone row = zname /\
    pz_latest row = entry_to_brief (Some e) /\ pz_state row = Latest.
Proof.
  intros Hnd Hr Hg.
  pose proof (global_latest_inv _ _ _ _ _ _ Hg) as Bg.
  apply best_of_first_maximum in Bg. simpl in Bg.
  destruct Bg as (zpre & zurl & zpost & t & Hz & Hl & _ & Ht & _).
  assert (Hin : In (zname, zurl) S3_ZONES) by (rewrite Hz; apply in_elt).
  destruct (zone_latest_fetched _ _ _ _ _ Hl) as (resp & Hresp & Hlatest).
  pose proof (view_zone_fetched _ _ _ (zname, zurl) resp (Some e) Hresp Hlatest) as Hv.
  destruct (row_of_zone _ _ _ _ _ _ _ _ _ Hnd Hr Hin Hv) as (g' & Hg' & Hrow).
  rewrite Hg in Hg'. injection Hg' as <-.
  eexists. split; [exact Hrow|]. simpl.
  split; [reflexivity|]. split; [reflexivity|].
  unfold classify, comparator_of. simpl. rewrite Ht.
  unfold entry_LastModified in Ht. rewrite Ht. simpl.
  replace (dt_eqb (replace_microsecond0 t) (replace_microsecond0 t)) with true
    by (symmetry; apply dt_eqb_eq; reflexivity).
  reflexivity.
Qed.

(** X14. When the global latest is not a delete marker, its zone is the
    recommended download zone; when there is no global latest, no zone is
    recommended. *)
Theorem recommended_zone_is_zone_of_global_latest
    (key currentZone : string) (bucket : option string) (r : report)
    (g : option (string * entry)) :
  consistency_check key currentZone bucket = Return r ->
  global_latest key bucket = Return g ->
  match g with
  | Some (zname, e) =>
      IsDeleteMarker e = false -> recommended_download_zone r = Some zname
  | None => recommended_download_zone r = None
  end.
Proof.
  intros Hr Hg.
  destruct (report_of_request _ _ _ _ _ _ _ Hr) as (d & g' & rd & _ & Hg' & Brd & ->).
  rewrite Hg in Hg'. injection Hg' as <-.
  pose proof (global_latest_inv _ _ _ _ _ _ Hg) as Bg.
  pose proof (best_without_delete_markers _ _ Bg) as Hw.
  destruct g as [[zname e]|].
  - intros Hnd. specialize (Hw Hnd).
    rewrite (best_of_unique _ _ _ _ Brd Hw). reflexivity.
  - rewrite (best_of_unique _ _ _ _ Brd Hw). reflexivity.
Qed.

(** ** The verdict *)

Lemma row_Unknown_iff_error
    (key currentZone : string) (bucket : option string) (r : report) (row : zone_row) :
  consistency_check key currentZone bucket = Return r ->
  In row (per_zone r) ->
  (pz_state row = Unknown <-> pz_error row <> None).
Proof.
  intros Hr Hrow. apply report_of_request in Hr.
  destruct Hr as (d & g & rd & _ & _ & _ & ->).
  simpl in Hrow. apply in_map_iff in Hrow. destruct Hrow as ([k info] & <- & _).
  unfold zone_row_of, classify. simpl.
  destruct (truthy (get_error info)) eqn:Ht.
  - split; [|reflexivity]. intros _. destruct (get_error info); [discriminate|].
    simpl in Ht. discriminate.
  - split; [|congruence].
    destruct (zi_latest info) as [b|].
    + destruct (comparator_of (option_map snd g)); [|discriminate].
      match goal with |- context [if ?b then _ else _] => destruct b end; discriminate.
    + destruct (is_delete_marker_entry (option_map snd g)); discriminate.
Qed.

Lemma in_row_etag (row : zone_row) (s : string) :
  In s (row_etag row) <->
  exists b, pz_latest row = Some b /\ type b = Version /\
            etag b = Some s /\ s <> EmptyString.
Proof.
  unfold row_etag. destruct (pz_latest row) as [b|]; simpl.
  2:{ split; [tauto|]. intros (b & Habs & _). discriminate. }
  destruct (type b) eqn:Ht; simpl.
  - destruct (etag b) as [s0|] eqn:He; simpl.
    + unfold truthy_str. destruct (String.eqb_spec s0 EmptyString) as [->|Hne]; simpl.
      * split; [tauto|]. intros (b' & Hb' & _ & He' & Hs).
        injection Hb' as <-. congruence.
      * split.
        -- intros [<-|[]]. exists b. auto.
        -- intros (b' & Hb' & _ & He' & _). injection Hb' as <-. left. congruence.
    + split; [tauto|]. intros (b' & Hb' & _ & He' & _).
      injection Hb' as <-. congruence.
  - split; [tauto|]. intros (b' & Hb' & Ht' & _). injection Hb' as <-. congruence.
Qed.

(** X15. [consistent] is true exactly when no row has the state [Unknown],
    some row's latest entry is a version with a non-empty ETag, and all such
    rows have the same ETag.  Zones without records, delete markers and
    versions without ETag do not count. *)
Theorem consistent_iff_rows_agree
    (key currentZone : string) (bucket : option string) (r : report) :
  consistency_check key currentZone bucket = Return r ->
  (consistent r = true <->
   (forall row, In row (per_zone r) -> pz_state row <> Unknown) /\
   exists s,
     (exists row b,
         In row (per_zone r) /\ pz_latest row = Some b /\ type b = Version /\
         etag b = Some s /\ s <> EmptyString) /\
     forall row b s',
       In row (per_zone r) -> pz_latest row = Some b -> type b = Version ->
       etag b = Some s' -> s' <> EmptyString -> s' = s).
Proof.
  intros Hr. rewrite (consistent_verdict _ _ _ _ _ _ _ Hr).
  assert (Herr : (forall row, In row (per_zone r) -> pz_error row = None) <->
                 (forall row, In row (per_zone r) -> pz_state row <> Unknown)).
  { split; intros H row Hin; specialize (H row Hin);
      pose proof (row_Unknown_iff_error _ _ _ _ row Hr Hin) as Hs.
    - intros Hu. apply Hs in Hu. congruence.
    - destruct (pz_error row) eqn:He; [|reflexivity].
      exfalso. apply H. apply Hs. discriminate. }
  rewrite Herr. unfold carried_etags.
  split; intros [H1 (s & Hs & Hall)]; (split; [exact H1|]); exists s.
  - split.
    + apply in_flat_map in Hs. destruct Hs as (row & Hin & Hs).
      apply in_row_etag in Hs. destruct Hs as (b & Hb). exists row, b. tauto.
    + intros row b s' Hin Hb Ht He Hne. apply Hall. apply in_flat_map.
      exists row. split; [exact Hin|]. apply in_row_etag. exists b. auto.
  - split.
    + destruct Hs as (row & b & Hin & Hb). apply in_flat_map.
      exists row. split; [exact Hin|]. apply in_row_etag. exists b. tauto.
    + intros s' Hs'. apply in_flat_map in Hs'. destruct Hs' as (row & Hin & Hs').
      apply in_row_etag in Hs'. destruct Hs' as (b & Hb & Ht & He & Hne).
      eapply Hall; eauto.
Qed.

(** ** Zones that share a name *)

Lemma dict_get_set_same {V : Type} (k : string) (v : V) (d : dict V) :
  dict_get k (dict_set k v d) = Some v.
Proof.
  induction d as [|[k' v'] d IH]; simpl.
  - rewrite String.eqb_refl. reflexivity.
  - destruct (String.eqb k' k) eqn:E; simpl; rewrite E; [reflexivity|exact IH].
Qed.

Lemma dict_get_set_other {V : Type} (k k' : string) (v : V) (d : dict V) :
  k <> k' -> dict_get k (dict_set k' v d) = dict_get k d.
Proof.
  intros Hne. induction d as [|[k0 v0] d IH]; simpl.
  - destruct (String.eqb_spec k' k); [congruence|reflexivity].
  - destruct (String.eqb_spec k0 k') as [->|Hne0]; simpl.
    + destruct (String.eqb_spec k' k); [congruence|reflexivity].
    + destruct (String.eqb k0 k); [reflexivity|exact IH].
Qed.

Lemma fetch_zones_keeps_other_names (bkt key : string) (zones : list (string * string)) :
  forall d0 c0 d c name,
    fetch_zones bkt key (d0, c0) zones = Return (d, c) ->
    ~ In name (map fst zones) ->
    dict_get name d = dict_get name d0.
Proof.
  induction zones as [|z zones IH]; simpl; intros d0 c0 d c name H Hnot.
  - injection H as <- <-. reflexivity.
  - rewrite fetch_zone_view in H.
    destruct (view_zone bkt key z) as [v|]; simpl in H; [|discriminate].
    rewrite (IH _ _ _ _ name H) by tauto.
    apply dict_get_set_other. intros ->. tauto.
Qed.

Lemma fetch_zones_last_of_name (bkt key : string) (pre : list (string * string)) :
  forall d0 c0 d c z post v,
    fetch_zones bkt key (d0, c0) (pre ++ z :: post) = Return (d, c) ->
    ~ In (fst z) (map fst post) ->
    view_zone bkt key z = Return v ->
    dict_get (fst z) d = Some (info_of_view (fst z) v).
Proof.
  induction pre as [|z0 pre IH]; simpl; intros d0 c0 d c z post v H Hnot Hv.
  - rewrite fetch_zone_view, Hv in H. simpl in H.
    rewrite (fetch_zones_keeps_other_names _ _ _ _ _ _ _ _ H Hnot).
    apply dict_get_set_same.
  - rewrite fetch_zone_view in H.
    destruct (view_zone bkt key z0) as [v0|]; simpl in H; [|discriminate].
    eapply IH; eauto.
Qed.

(** X16. When several configured zones share a name, the one row of that
    name shows the latest entry of the zone configured last, while
    [find_zone_url] resolves the name to the endpoint of the zone configured
    first. *)
Theorem row_of_shared_name_shows_last_zone
    (key currentZone : string) (bucket : option string) (r : report)
    (pre post : list (string * string)) (z : string * string) :
  consistency_check key currentZone bucket = Return r ->
  S3_ZONES = pre ++ z :: post ->
  ~ In (fst z) (map fst post) ->
  (exists row,
      In row (per_zone r) /\ pz_zone row = fst z /\
      pz_latest row = entry_to_brief (zone_latest (target_bucket bucket) key z)) /\
  (exists first_url before_it after_it,
      find_zone_url S3_ZONES (fst z) = Return first_url /\
      S3_ZONES = before_it ++ (fst z, first_url) :: after_it /\
      ~ In (fst z) (map fst before_it)).
Proof.
  intros Hr Hz Hnot. split.
  - destruct (report_of_request _ _ _ _ _ _ _ Hr) as (d & g & rd & Hf & _ & _ & ->).
    rewrite Hz in Hf.
    assert (Hin : In z S3_ZONES) by (rewrite Hz; apply in_elt).
    destruct (fetch_zones_each_returns _ _ _ _ _ Hf z) as (v & Hv).
    { apply in_elt. }
    pose proof (fetch_zones_last_of_name _ _ _ _ _ _ _ _ _ _ Hf Hnot Hv) as Hget.
    apply dict_get_In in Hget.
    exists (zone_row_of (is_delete_marker_entry (option_map snd g))
              (comparator_of (option_map snd g)) (fst z, info_of_view (fst z) v)).
    split; [simpl; apply in_map; exact Hget|]. simpl. split; [reflexivity|].
    unfold zone_latest. unfold view_zone in Hv.
    destruct (list_object_versions (snd z) (target_bucket bucket) key) as [resp|e].
    + destruct (latest_entry_for_key (versions_for_key key resp)) as [l|];
        simpl in Hv; [|discriminate].
      injection Hv as <-. reflexivity.
    + destruct e; try discriminate. injection Hv as <-. reflexivity.
  - assert (Hname : In (fst z) (map fst S3_ZONES)).
    { rewrite Hz, map_app. apply in_or_app. right. simpl. auto. }
    clear Hr Hz Hnot. induction S3_ZONES as [|[n u] zs IH]; simpl in *; [contradiction|].
    destruct (String.eqb_spec n (fst z)) as [->|Hne].
    + exists u, [], zs. simpl. auto.
    + destruct Hname as [Heq|Hin]; [congruence|].
      destruct (IH Hin) as (url & b & a & Hf & -> & Hb).
      exists url, ((n, u) :: b), a. simpl. rewrite Hf. repeat split; auto. tauto.
Qed.

End RouteFurther.

(** * Properties of the other routes *)

(** ** Prefixes *)

Lemma endswith_slash_append (s : string) : endswith_slash (s ++ "/") = true.
Proof.
  induction s as [|a s IH]; simpl; [reflexivity|].
  destruct (s ++ "/")%string eqn:E; [|exact IH].
  destruct s; discriminate.
Qed.

Lemma prefix_append (a b : string) : String.prefix a (a ++ b) = true.
Proof.
  induction a as [|c a IH]; simpl.
  - destruct b; reflexivity.
  - destruct (ascii_dec c c) as [_|Hne]; [exact IH|congruence].
Qed.

Lemma prefix_drop (a b : string) :
  String.prefix a b = true -> b = (a ++ drop (String.length a) b)%string.
Proof.
  revert b. induction a as [|c a IH]; intros b H; simpl.
  - reflexivity.
  - destruct b as [|c' b]; simpl in H; [discriminate|].
    destruct (ascii_dec c c') as [<-|]; [|discriminate].
    simpl. rewrite <- (IH b H). reflexivity.
Qed.

(** X17. The prefix that [list_objects] works with and returns is the given
    prefix when that is empty or ends with a slash, and the given prefix
    followed by a slash otherwise; normalizing twice changes nothing. *)
Theorem normalize_prefix_properties (prefix : string) :
  (normalize_prefix prefix = EmptyString <-> prefix = EmptyString) /\
  (prefix <> EmptyString -> endswith_slash (normalize_prefix prefix) = true) /\
  (endswith_slash prefix = true -> normalize_prefix prefix = prefix) /\
  (endswith_slash prefix = false -> prefix <> EmptyString ->
   normalize_prefix prefix = (prefix ++ "/")%string) /\
  normalize_prefix (normalize_prefix prefix) = normalize_prefix prefix.
Proof.
  unfold normalize_prefix, truthy_str.
  destruct (String.eqb_spec prefix EmptyString) as [->|Hne]; simpl.
  - repeat split; auto; try discriminate. intros H; contradiction.
  - destruct (endswith_slash prefix) eqn:He; simpl.
    + rewrite He. simpl. rewrite andb_false_r.
      repeat split; auto; try discriminate; try tauto.
    + assert (Hne' : (prefix ++ "/")%string <> EmptyString).
      { destruct prefix; discriminate. }
      rewrite endswith_slash_append. simpl. rewrite andb_false_r.
      repeat split; auto; try discriminate; try tauto.
Qed.

Lemma find_zone_url_not_configured (zones : list (string * string)) (name : string) :
  ~ In name (map fst zones) ->
  find_zone_url zones name
  = Raise (HTTPException 404 ("Zone '" ++ name ++ "' not found")).
Proof.
  induction zones as [|[n u] zones IH]; simpl; intros Hnot; [reflexivity|].
  destruct (String.eqb_spec n name) as [->|Hne]; [tauto|].
  apply IH. tauto.
Qed.

Section OtherRouteProperties.

Variable S3_ZONES : list (string * string).
Variable DEFAULT_BUCKET : option string.
Variable PRESIGN_TTL : Z.
Variable PRESIGN_UPLOAD_TTL : Z.
Variable list_object_versions : string -> string -> string -> result versions_response.
Variable list_objects_v2 : string -> list_kwargs -> result list_response.
Variable generate_presigned_url :
  string -> client_method -> presign_params -> Z -> result string.
Variable s3_delete_object : string -> string -> string -> result unit.

Local Abbreviation list_pages := (list_pages list_objects_v2).
Local Abbreviation list_objects := (list_objects S3_ZONES DEFAULT_BUCKET list_objects_v2).
Local Abbreviation presign_download :=
  (presign_download S3_ZONES DEFAULT_BUCKET PRESIGN_TTL generate_presigned_url).
Local Abbreviation presign_upload :=
  (presign_upload S3_ZONES DEFAULT_BUCKET PRESIGN_UPLOAD_TTL generate_presigned_url).
Local Abbreviation delete_object :=
  (delete_object S3_ZONES DEFAULT_BUCKET s3_delete_object).
Local Abbreviation target_bucket := (target_bucket DEFAULT_BUCKET).

(** ** The pages of [list_objects] *)

Lemma list_pages_collects (zone_url bkt prefix : string)
    (token : option string) (pages : list list_response) :
  pages_from (list_objects_v2 zone_url) bkt prefix token pages ->
  forall fuel folders items,
    (List.length pages <= fuel)%nat ->
    list_pages fuel zone_url bkt prefix token folders items
    = Some (Return (folders ++ flat_map (folders_of prefix) pages,
                    items ++ flat_map (items_of prefix) pages)).
Proof.
  induction 1 as [token resp Hcall Hnext|token resp token' rest Hcall Hnext _ IH];
    intros fuel folders items Hfuel; simpl in Hfuel.
  - destruct fuel as [|fuel]; [lia|]. simpl. rewrite Hcall, Hnext.
    simpl. rewrite !app_nil_r. reflexivity.
  - destruct fuel as [|fuel]; [lia|]. simpl. rewrite Hcall, Hnext.
    rewrite IH by lia. simpl. rewrite <- !app_assoc. reflexivity.
Qed.

Lemma list_pages_returned (zone_url bkt prefix : string) (fuel : nat) :
  forall token folders items f i,
    list_pages fuel zone_url bkt prefix token folders items = Some (Return (f, i)) ->
    exists pages,
      pages_from (list_objects_v2 zone_url) bkt prefix token pages /\
      (List.length pages <= fuel)%nat /\
      f = folders ++ flat_map (folders_of prefix) pages /\
      i = items ++ flat_map (items_of prefix) pages.
Proof.
  induction fuel as [|fuel IH]; simpl; intros token folders items f i H; [discriminate|].
  destruct (list_objects_v2 zone_url (list_request bkt prefix token)) as [resp|e] eqn:Hcall;
    [|discriminate].
  destruct (next_token resp) as [token'|] eqn:Hnext.
  - destruct (IH _ _ _ _ _ H) as (pages & Hp & Hlen & -> & ->).
    exists (resp :: pages). split; [eapply pages_more; eauto|].
    simpl. split; [lia|]. rewrite <- !app_assoc. auto.
  - injection H as <- <-. exists [resp]. split; [apply pages_last; auto|].
    simpl. rewrite !app_nil_r. split; [lia|]. auto.
Qed.

Lemma pages_from_In (call : list_kwargs -> result list_response)
    (bkt prefix : string) (token : option string) (pages : list list_response) :
  pages_from call bkt prefix token pages ->
  forall resp, In resp pages ->
               exists token', call (list_request bkt prefix token') = Return resp.
Proof.
  induction 1 as [token resp Hcall _|token resp token' rest Hcall _ _ IH];
    intros resp' [<-|Hin]; eauto. contradiction.
Qed.

Lemma list_objects_returned
    (fuel : nat) (zone prefix : string) (bucket : option string) (l : listing) :
  list_objects fuel zone prefix bucket = Some (Return l) ->
  truthy (py_or bucket DEFAULT_BUCKET) = true /\
  exists zone_url pages,
    find_zone_url S3_ZONES zone = Return zone_url /\
    pages_from (list_objects_v2 zone_url) (target_bucket bucket)
      (normalize_prefix prefix) None pages /\
    (List.length pages <= fuel)%nat /\
    l = {| folders := flat_map (folders_of (normalize_prefix prefix)) pages;
           items := flat_map (items_of (normalize_prefix prefix)) pages;
           listing_prefix := normalize_prefix prefix |}.
Proof.
  unfold list_objects, target_bucket.
  destruct (truthy (py_or bucket DEFAULT_BUCKET)); simpl; [|discriminate].
  destruct (find_zone_url S3_ZONES zone) as [zone_url|e]; [|discriminate].
  destruct (list_pages fuel zone_url (bucket_name (py_or bucket DEFAULT_BUCKET))
              (normalize_prefix prefix) None [] []) as [[[f i]|e]|] eqn:Hp;
    simpl; try discriminate.
  - intros H. injection H as <-. split; [reflexivity|].
    destruct (list_pages_returned _ _ _ _ _ _ _ _ _ Hp) as (pages & Hpages & Hlen & -> & ->).
    exists zone_url, pages. simpl. auto.
  - destruct e; discriminate.
Qed.

(** X18. [list_objects] returns a listing exactly when a bucket is known,
    the zone is configured, and the store answers a finite chain of requests
    in which each request carries the continuation token of the response
    before it, with no more requests than [fuel]; the listing then holds
    the folders and the items of all responses in order, and the normalized
    prefix. *)
Theorem list_objects_returns_all_pages
    (fuel : nat) (zone prefix : string) (bucket : option string) (l : listing) :
  list_objects fuel zone prefix bucket = Some (Return l) <->
  truthy (py_or bucket DEFAULT_BUCKET) = true /\
  exists zone_url pages,
    find_zone_url S3_ZONES zone = Return zone_url /\
    pages_from (list_objects_v2 zone_url) (target_bucket bucket)
      (normalize_prefix prefix) None pages /\
    (List.length pages <= fuel)%nat /\
    l = {| folders := flat_map (folders_of (normalize_prefix prefix)) pages;
           items := flat_map (items_of (normalize_prefix prefix)) pages;
           listing_prefix := normalize_prefix prefix |}.
Proof.
  split; [apply list_objects_returned|].
  unfold list_objects, target_bucket.
  intros [Hb (zu & pages & Hz & Hpages & Hlen & ->)]. rewrite Hb, Hz. simpl.
  rewrite (list_pages_collects _ _ _ _ _ Hpages fuel [] [] Hlen). reflexivity.
Qed.


Lemma list_pages_never_ends (zone_url bkt prefix : string) :
  (forall kwargs, exists resp token,
      list_objects_v2 zone_url kwargs = Return resp /\ next_token resp = Some token) ->
  forall fuel token folders items,
    list_pages fuel zone_url bkt prefix token folders items = None.
Proof.
  intros Hmore. induction fuel as [|fuel IH]; simpl; intros token folders items;
    [reflexivity|].
  destruct (Hmore (list_request bkt prefix token)) as (resp & token' & -> & ->).
  apply IH.
Qed.

(** X20. The loop of [list_objects] has no bound of its own: against a store
    that answers every request with a truncated response and a continuation
    token, no number of requests ends it. *)
Theorem list_objects_loops_while_truncated
    (zone zone_url prefix : string) (bucket : option string) :
  truthy (py_or bucket DEFAULT_BUCKET) = true ->
  find_zone_url S3_ZONES zone = Return zone_url ->
  (forall kwargs, exists resp token,
      list_objects_v2 zone_url kwargs = Return resp /\ next_token resp = Some token) ->
  forall fuel, list_objects fuel zone prefix bucket = None.
Proof.
  intros Hb Hz Hmore fuel. unfold list_objects.
  rewrite Hb, Hz. simpl. rewrite list_pages_never_ends; auto.
Qed.

(** ** Errors of the routes *)

Lemma view_zone_never_ClientError (bkt key : string) (z : string * string)
    (response : error_response) :
  view_zone list_object_versions bkt key z <> Raise (ClientError response).
Proof.
  unfold view_zone.
  destruct (list_object_versions (snd z) bkt key) as [resp|e].
  - destruct (latest_entry_for_key (versions_for_key key resp)) as [l|e] eqn:Hl;
      simpl; [discriminate|].
    rewrite (latest_entry_for_key_raises _ _ Hl). discriminate.
  - destruct e; discriminate.
Qed.

Lemma fetch_zones_raise (bkt key : string) (zones : list (string * string)) :
  forall acc e,
    fetch_zones list_object_versions bkt key acc zones = Raise e ->
    exists z, In z zones /\ view_zone list_object_versions bkt key z = Raise e.
Proof.
  induction zones as [|z zones IH]; simpl; intros acc e H; [discriminate|].
  rewrite fetch_zone_view in H.
  destruct (view_zone list_object_versions bkt key z) as [v|e'] eqn:Hv; simpl in H.
  - destruct (IH _ _ H) as (z' & Hz' & Hr). eauto.
  - injection H as <-. eauto.
Qed.

Lemma try_except_never_ClientError {A : Type} (body : result A)
    (response : error_response) :
  try_except_ClientError body raise_500 <> Raise (ClientError response).
Proof.
  destruct body as [a|e]; simpl; [discriminate|]. destruct e; discriminate.
Qed.

Lemma find_zone_url_never_ClientError (name : string) (response : error_response) :
  find_zone_url S3_ZONES name <> Raise (ClientError response).
Proof.
  induction S3_ZONES as [|[n u] zones IH]; simpl; [discriminate|].
  destruct (String.eqb n name); [discriminate|exact IH].
Qed.



Lemma presign_download_returns (payload : presign_payload) (bucket : option string)
    (url : string) :
  presign_download payload bucket = Return url ->
  exists zone key zone_url,
    payload_zone payload = Some zone /\ zone <> EmptyString /\
    payload_key payload = Some key /\ key <> EmptyString /\
    truthy (py_or bucket DEFAULT_BUCKET) = true /\
    find_zone_url S3_ZONES zone = Return zone_url /\
    generate_presigned_url zone_url get_object
      {| pp_Bucket := target_bucket bucket;
         pp_Key := key;
         pp_VersionId := match payload_version_id payload with
                         | Some v => if String.eqb v EmptyString then None else Some v
                         | None => None
                         end;
         pp_ContentType := None |}
      PRESIGN_TTL = Return url.
Proof.
  unfold presign_download, target_bucket.
  destruct (truthy (py_or bucket DEFAULT_BUCKET)); simpl; [|discriminate].
  destruct (payload_zone payload) as [zone|]; simpl; [|discriminate].
  unfold truthy_str at 1.
  destruct (String.eqb_spec zone EmptyString) as [->|Hzne]; simpl; [discriminate|].
  destruct (payload_key payload) as [key|]; simpl; [|discriminate].
  unfold truthy_str at 1.
  destruct (String.eqb_spec key EmptyString) as [->|Hkne]; simpl; [discriminate|].
  destruct (find_zone_url S3_ZONES zone) as [zone_url|e] eqn:Hz; simpl; [|discriminate].
  intros H. exists zone, key, zone_url. repeat split; auto.
  destruct (payload_version_id payload) as [v|]; unfold truthy, truthy_str in H;
    [destruct (String.eqb v EmptyString)|]; simpl in H |- *;
    match type of H with
    | context [generate_presigned_url ?a ?b ?c ?d] =>
        destruct (generate_presigned_url a b c d) as [u|e] eqn:Hg
    end; simpl in H;
    try (injection H as <-; reflexivity);
    match goal with x : exn |- _ => destruct x end; discriminate.
Qed.

Lemma presign_upload_returns (payload : presign_payload) (bucket : option string)
    (url : string) :
  presign_upload payload bucket = Return url ->
  exists zone key zone_url,
    payload_zone payload = Some zone /\ zone <> EmptyString /\
    payload_key payload = Some key /\ key <> EmptyString /\
    truthy (py_or bucket DEFAULT_BUCKET) = true /\
    find_zone_url S3_ZONES zone = Return zone_url /\
    generate_presigned_url zone_url put_object
      {| pp_Bucket := target_bucket bucket;
         pp_Key := key;
         pp_VersionId := None;
         pp_ContentType :=
           Some match payload_content_type payload with
                | Some c => if String.eqb c EmptyString
                            then "application/octet-stream"%string else c
                | None => "application/octet-stream"%string
                end |}
      PRESIGN_UPLOAD_TTL = Return url.
Proof.
  unfold presign_upload, target_bucket.
  destruct (truthy (py_or bucket DEFAULT_BUCKET)); simpl; [|discriminate].
  destruct (payload_zone payload) as [zone|]; simpl; [|discriminate].
  unfold truthy_str at 1.
  destruct (String.eqb_spec zone EmptyString) as [->|Hzne]; simpl; [discriminate|].
  destruct (payload_key payload) as [key|]; simpl; [|discriminate].
  unfold truthy_str at 1.
  destruct (String.eqb_spec key EmptyString) as [->|Hkne]; simpl; [discriminate|].
  destruct (find_zone_url S3_ZONES zone) as [zone_url|e] eqn:Hz; simpl; [|discriminate].
  intros H. exists zone, key, zone_url. repeat split; auto.
  assert (Hc : py_or (payload_content_type payload) (Some "application/octet-stream"%string)
               = Some match payload_content_type payload with
                      | Some c => if String.eqb c EmptyString
                                  then "application/octet-stream"%string else c
                      | None => "application/octet-stream"%string
                      end).
  { unfold py_or. destruct (payload_content_type payload) as [c|]; simpl; [|reflexivity].
    unfold truthy_str. destruct (String.eqb c EmptyString); reflexivity. }
  rewrite Hc in H.
  match type of H with
    | context [generate_presigned_url ?a ?b ?c ?d] =>
        destruct (generate_presigned_url a b c d) as [u|e] eqn:Hg
    end; simpl in H;
    try (injection H as <-; reflexivity);
    match goal with x : exn |- _ => destruct x end; discriminate.
Qed.

(** X23. A presigned URL is the one that the client of the first zone with
    the requested name produces for exactly the bucket and the key of the
    request.  A download is a [get_object] valid for [PRESIGN_TTL] that names
    a version only when the request has a non-empty [version_id]; an upload
    is a [put_object] valid for [PRESIGN_UPLOAD_TTL] whose content type is
    the one of the request, and [application/octet-stream] when the request
    has none or an empty one. *)
Theorem presigned_urls_come_from_the_client
    (payload : presign_payload) (bucket : option string) (url : string) :
  (presign_download payload bucket = Return url \/
   presign_upload payload bucket = Return url) ->
  exists zone key zone_url,
    payload_zone payload = Some zone /\ zone <> EmptyString /\
    payload_key payload = Some key /\ key <> EmptyString /\
    truthy (py_or bucket DEFAULT_BUCKET) = true /\
    find_zone_url S3_ZONES zone = Return zone_url /\
    let download :=
      {| pp_Bucket := target_bucket bucket;
         pp_Key := key;
         pp_VersionId := match payload_version_id payload with
                         | Some v => if String.eqb v EmptyString then None else Some v
                         | None => None
                         end;
         pp_ContentType := None |} in
    let upload :=
      {| pp_Bucket := target_bucket bucket;
         pp_Key := key;
         pp_VersionId := None;
         pp_ContentType :=
           Some match payload_content_type payload with
                | Some c => if String.eqb c EmptyString
                            then "application/octet-stream"%string else c
                | None => "application/octet-stream"%string
                end |} in
    (presign_download payload bucket = Return url ->
     generate_presigned_url zone_url get_object download PRESIGN_TTL = Return url) /\
    (presign_upload payload bucket = Return url ->
     generate_presigned_url zone_url put_object upload PRESIGN_UPLOAD_TTL = Return url).
Proof.
  intros [H|H].
  - destruct (presign_download_returns _ _ _ H)
      as (zone & key & zone_url & Hz & Hzne & Hk & Hkne & Hb & Hf & Hg).
    exists zone, key, zone_url. repeat split; auto.
    intros Hu. destruct (presign_upload_returns _ _ _ Hu)
      as (zone' & key' & zone_url' & Hz' & _ & Hk' & _ & _ & Hf' & Hg').
    rewrite Hz in Hz'. injection Hz' as <-. rewrite Hk in Hk'. injection Hk' as <-.
    rewrite Hf in Hf'. injection Hf' as <-. exact Hg'.
  - destruct (presign_upload_returns _ _ _ H)
      as (zone & key & zone_url & Hz & Hzne & Hk & Hkne & Hb & Hf & Hg).
    exists zone, key, zone_url. repeat split; auto.
    intros Hd. destruct (presign_download_returns _ _ _ Hd)
      as (zone' & key' & zone_url' & Hz' & _ & Hk' & _ & _ & Hf' & Hg').
    rewrite Hz in Hz'. injection Hz' as <-. rewrite Hk in Hk'. injection Hk' as <-.
    rewrite Hf in Hf'. injection Hf' as <-. exact Hg'.
Qed.

End OtherRouteProperties.

(** * Properties of auth.py *)

Lemma find_jwk_some (j : jwks) (kid : string) (k : jwk) :
  find_jwk j kid = Some k ->
  In k (or_empty (jwks_keys j)) /\ jwk_kid k = Some kid.
Proof.
  unfold find_jwk. intros H. apply find_some in H. destruct H as [Hin Hk].
  split; [exact Hin|]. destruct (jwk_kid k) as [s|]; [|discriminate].
  apply String.eqb_eq in Hk. congruence.
Qed.

Section AuthProperties.

Variable claims : Type.
Variable http_get_jwks : nat -> outcome jwks.
Variable get_unverified_header : string -> outcome jwt_header.
Variable jwt_decode : string -> jwk -> outcome claims.

Local Abbreviation get_jwks := (get_jwks http_get_jwks).
Local Abbreviation verify_token :=
  (verify_token claims http_get_jwks get_unverified_header jwt_decode).

Lemma get_jwks_spec (st : auth_state) :
  let r := get_jwks st in
  (requests_sent st <= requests_sent (snd r) <= S (requests_sent st))%nat /\
  match fst r with
  | Success j =>
      JWKS_CACHE (snd r) = Some j /\
      ((snd r = st /\ jwks_truthy j = true) \/
       (requests_sent (snd r) = S (requests_sent st) /\
        http_get_jwks (requests_sent st) = Success j))
  | Failure text =>
      JWKS_CACHE (snd r) = JWKS_CACHE st /\
      requests_sent (snd r) = S (requests_sent st) /\
      http_get_jwks (requests_sent st) = Failure text
  end.
Proof.
  unfold get_jwks. destruct st as [cache n]. simpl.
  destruct cache as [j|]; [destruct (jwks_truthy j) eqn:Ht|]; simpl;
    try (split; [lia|]; auto);
    destruct (http_get_jwks n) as [j'|text]; simpl; split; try lia; auto.
Qed.

(** X24. [verify_token] raises nothing but [HTTPException] with status 401:
    whatever the JWT library or the request to the issuer fails with is
    turned into one. *)
Theorem verify_token_raises_only_401
    (st st' : auth_state) (token : string) (e : exn) :
  verify_token st token = (Raise e, st') ->
  exists detail, e = HTTPException 401 detail.
Proof.
  unfold verify_token, verification_failed.
  destruct (get_unverified_header token) as [h|text0].
  2:{ intros H. injection H as <- _. eauto. }
  destruct (negb (truthy (header_kid h))).
  { intros H. injection H as <- _. eauto. }
  destruct (get_jwks st) as [[j|text] st1].
  2:{ intros H. injection H as <- _. eauto. }
  destruct (find_jwk j (bucket_name (header_kid h))) as [k|].
  { destruct (jwt_decode token k); intros H; injection H as H _;
      [discriminate|subst e; eauto]. }
  destruct (get_jwks _) as [[j'|text] st3].
  2:{ intros H. injection H as <- _. eauto. }
  destruct (find_jwk j' (bucket_name (header_kid h))) as [k|].
  - destruct (jwt_decode token k); intros H; injection H as H _;
      [discriminate|subst e; eauto].
  - intros H. injection H as <- _. eauto.
Qed.

(** X25. One verification sends at most two requests to the issuer, and
    none at all when the cached key set holds a key with the token's [kid]:
    the cache is then left as it is and the outcome is that of [jwt.decode]
    with the first such key. *)
Theorem verify_token_requests (st : auth_state) (token : string) :
  (requests_sent st <= requests_sent (snd (verify_token st token))
   <= 2 + requests_sent st)%nat /\
  forall h kid j k,
    get_unverified_header token = Success h ->
    header_kid h = Some kid -> kid <> EmptyString ->
    JWKS_CACHE st = Some j -> find_jwk j kid = Some k ->
    snd (verify_token st token) = st /\
    fst (verify_token st token)
    = match jwt_decode token k with
      | Success c => Return c
      | Failure text => verification_failed text
      end.
Proof.
  split.
  - unfold verify_token.
    destruct (get_unverified_header token) as [h|text0]; simpl; [|lia].
    destruct (negb (truthy (header_kid h))); simpl; [lia|].
    pose proof (get_jwks_spec st) as [H1 _]. simpl in H1.
    destruct (get_jwks st) as [[j|text] st1]; simpl in *; [|lia].
    destruct (find_jwk j (bucket_name (header_kid h))) as [k|].
    { destruct (jwt_decode token k); simpl; lia. }
    pose proof (get_jwks_spec {| JWKS_CACHE := None; requests_sent := requests_sent st1 |})
      as [H2 _]. simpl in H2.
    destruct (get_jwks _) as [[j'|text] st3]; simpl in *; [|lia].
    destruct (find_jwk j' (bucket_name (header_kid h))) as [k|]; simpl; [|lia].
    destruct (jwt_decode token k); simpl; lia.
  - intros h kid j k Hh Hkid Hne Hcache Hfind.
    assert (Hj : jwks_truthy j = true).
    { unfold jwks_truthy. unfold find_jwk in Hfind.
      destruct (jwks_keys j); [reflexivity|discriminate]. }
    unfold verify_token. rewrite Hh, Hkid. simpl.
    unfold truthy_str. destruct (String.eqb_spec kid EmptyString); [contradiction|].
    simpl. unfold get_jwks. rewrite Hcache, Hj, Hfind.
    destruct (jwt_decode token k); auto.
Qed.

(** X26. A token is accepted only with the claims that [jwt.decode] returns
    for it and a key of the key set that is cached afterwards, whose [kid]
    is the non-empty [kid] of the token's header. *)
Theorem accepted_token_was_decoded_with_a_cached_key
    (st st' : auth_state) (token : string) (c : claims) :
  verify_token st token = (Return c, st') ->
  exists h kid j k,
    get_unverified_header token = Success h /\
    header_kid h = Some kid /\ kid <> EmptyString /\
    JWKS_CACHE st' = Some j /\
    In k (or_empty (jwks_keys j)) /\ jwk_kid k = Some kid /\
    jwt_decode token k = Success c.
Proof.
  unfold verify_token, verification_failed.
  destruct (get_unverified_header token) as [h|text0]; [|discriminate].
  destruct (header_kid h) as [kid|] eqn:Hkid; simpl; [|discriminate].
  unfold truthy_str. destruct (String.eqb_spec kid EmptyString) as [->|Hne]; simpl;
    [discriminate|].
  pose proof (get_jwks_spec st) as [_ H1]. simpl in H1.
  destruct (get_jwks st) as [[j|text] st1]; simpl in H1; [|discriminate].
  destruct H1 as [Hc1 _].
  destruct (find_jwk j kid) as [k|] eqn:Hfind.
  { destruct (jwt_decode token k) as [c'|] eqn:Hd; [|discriminate].
    intros H. injection H as <- <-. apply find_jwk_some in Hfind.
    exists h, kid, j, k. tauto. }
  pose proof (get_jwks_spec {| JWKS_CACHE := None; requests_sent := requests_sent st1 |})
    as [_ H2]. simpl in H2.
  destruct (get_jwks _) as [[j'|text] st3]; simpl in H2; [|discriminate].
  destruct H2 as [Hc3 _].
  destruct (find_jwk j' kid) as [k|] eqn:Hfind'; [|discriminate].
  destruct (jwt_decode token k) as [c'|] eqn:Hd; [|discriminate].
  intros H. injection H as <- <-. apply find_jwk_some in Hfind'.
  exists h, kid, j', k. tauto.
Qed.

(** X27. A token whose [kid] is not in the cached key set makes
    [verify_token] drop the cache and ask the issuer once more.  If the
    issuer's answer holds a key with that [kid], the answer becomes the cache
    and the outcome is that of [jwt.decode] with that key; if the request
    fails, the cache stays empty and the token is refused. *)
Theorem unknown_kid_refreshes_the_cache
    (st : auth_state) (token : string) (h : jwt_header) (kid : string) (j : jwks) :
  get_unverified_header token = Success h ->
  header_kid h = Some kid -> kid <> EmptyString ->
  JWKS_CACHE st = Some j -> jwks_truthy j = true -> find_jwk j kid = None ->
  requests_sent (snd (verify_token st token)) = S (requests_sent st) /\
  match http_get_jwks (requests_sent st) with
  | Success j' =>
      JWKS_CACHE (snd (verify_token st token)) = Some j' /\
      fst (verify_token st token)
      = match find_jwk j' kid with
        | Some k => match jwt_decode token k with
                    | Success c => Return c
                    | Failure text => verification_failed text
                    end
        | None => Raise (HTTPException 401 "No matching JWK for token kid")
        end
  | Failure text =>
      JWKS_CACHE (snd (verify_token st token)) = None /\
      fst (verify_token st token) = verification_failed text
  end.
Proof.
  intros Hh Hkid Hne Hcache Hj Hfind.
  assert (Hv : verify_token st token
               = match http_get_jwks (requests_sent st) with
                 | Success j' =>
                     (match find_jwk j' kid with
                      | Some k => match jwt_decode token k with
                                  | Success c => Return c
                                  | Failure text => verification_failed text
                                  end
                      | None => Raise (HTTPException 401 "No matching JWK for token kid")
                      end,
                      {| JWKS_CACHE := Some j'; requests_sent := S (requests_sent st) |})
                 | Failure text =>
                     (verification_failed text,
                      {| JWKS_CACHE := None; requests_sent := S (requests_sent st) |})
                 end).
  { unfold verify_token. rewrite Hh, Hkid. simpl.
    unfold truthy_str. destruct (String.eqb_spec kid EmptyString); [contradiction|].
    simpl. unfold get_jwks at 1. rewrite Hcache, Hj, Hfind.
    unfold get_jwks. simpl.
    destruct (http_get_jwks (requests_sent st)) as [j'|text]; simpl; [|reflexivity].
    destruct (find_jwk j' kid) as [k|]; [|reflexivity].
    destruct (jwt_decode token k); reflexivity. }
  rewrite Hv.
  destruct (http_get_jwks (requests_sent st)) as [j'|text]; simpl; auto.
Qed.

End AuthProperties.

(** * Properties of config.py *)

(** ** [strip] *)

Lemma lstrip_space_starts (s : string) : starts_with_space (lstrip_space s) = false.
Proof.
  induction s as [|a s IH]; simpl; [reflexivity|].
  destruct (isspace a) eqn:Ha; [exact IH|]. simpl. exact Ha.
Qed.

Lemma lstrip_space_id (s : string) :
  starts_with_space s = false -> lstrip_space s = s.
Proof.
  destruct s as [|a s]; simpl; [reflexivity|]. intros ->. reflexivity.
Qed.

Lemma rstrip_space_spec (s : string) :
  ends_with_space (rstrip_space s) = false /\
  starts_with_space (rstrip_space s)
  = (starts_with_space s && negb (String.eqb (rstrip_space s) EmptyString))%bool.
Proof.
  induction s as [|a s [Hend _]]; simpl; [auto|].
  destruct (rstrip_space s) as [|b r] eqn:Er; simpl in *.
  - destruct (isspace a) eqn:Ha; simpl; auto.
  - rewrite andb_false_r, andb_true_r. auto.
Qed.

Lemma rstrip_space_id (s : string) :
  ends_with_space s = false -> rstrip_space s = s.
Proof.
  induction s as [|a s IH]; simpl; [reflexivity|].
  destruct s as [|b s'].
  - simpl. intros ->. reflexivity.
  - intros H. rewrite (IH H). simpl. rewrite andb_false_r. reflexivity.
Qed.

Lemma strip_space_spec (s : string) :
  starts_with_space (strip_space s) = false /\ ends_with_space (strip_space s) = false.
Proof.
  unfold strip_space. destruct (rstrip_space_spec (lstrip_space s)) as [He Hs].
  split; [|exact He]. rewrite Hs, lstrip_space_starts. reflexivity.
Qed.

Lemma stripped_iff (s : string) :
  stripped s <-> starts_with_space s = false /\ ends_with_space s = false.
Proof.
  unfold stripped. split.
  - intros <-. apply strip_space_spec.
  - intros [Hs He]. unfold strip_space. rewrite (lstrip_space_id _ Hs).
    apply rstrip_space_id. exact He.
Qed.

Lemma strip_space_stripped (s : string) : stripped (strip_space s).
Proof. apply stripped_iff. apply strip_space_spec. Qed.

(** ** The loop of [_parse_zones] *)

Lemma snoc_eq_split {A : Type} (l pre post : list A) (x p : A) :
  l ++ [x] = pre ++ p :: post ->
  (post = [] /\ l = pre /\ x = p) \/
  exists post', post = post' ++ [x] /\ l = pre ++ p :: post'.
Proof.
  intros H. destruct post as [|q post] using rev_ind.
  - left. apply app_inj_tail in H. tauto.
  - right. clear IHpost. exists post.
    change (pre ++ p :: post ++ [q]) with (pre ++ (p :: post) ++ [q]) in H.
    rewrite app_assoc in H. apply app_inj_tail in H. destruct H as [-> ->]. auto.
Qed.

Section ConfigProperties.

Variable hostname : string -> string.

Local Abbreviation parse_zone := (parse_zone hostname).
Local Abbreviation _parse_zones := (_parse_zones hostname).
Local Abbreviation zone_of_part := (zone_of_part hostname).

Lemma parse_zone_step (zones : list (string * string)) (unnamed : nat) (p : string) :
  parse_zone (zones, unnamed) p
  = (zones ++ [zone_of_part unnamed p],
     (unnamed + List.length (filter is_unnamed [p]))%nat).
Proof.
  unfold parse_zone, zone_of_part, is_unnamed. simpl.
  destruct (contains "=" p); simpl; [rewrite Nat.add_0_r|]; reflexivity.
Qed.

Lemma parse_zones_fold (parts : list string) :
  exists zs,
    fold_left parse_zone parts ([], 0%nat)
    = (zs, List.length (filter is_unnamed parts)) /\
    List.length zs = List.length parts /\
    forall pre p post,
      parts = pre ++ p :: post ->
      nth_error zs (List.length pre)
      = Some (zone_of_part (List.length (filter is_unnamed pre)) p).
Proof.
  induction parts as [|x l (zs & Hfold & Hlen & Hnth)] using rev_ind.
  - exists []. simpl. repeat split. intros pre p post H. destruct pre; discriminate.
  - exists (zs ++ [zone_of_part (List.length (filter is_unnamed l)) x]).
    rewrite fold_left_app, Hfold. simpl. rewrite parse_zone_step.
    rewrite filter_app, !length_app, Hlen. repeat split.
    intros pre p post H. apply snoc_eq_split in H.
    destruct H as [(-> & -> & ->)|(post' & -> & ->)].
    + rewrite nth_error_app2 by lia. rewrite Hlen, Nat.sub_diag. reflexivity.
    + rewrite nth_error_app1.
      * apply (Hnth pre p post'). reflexivity.
      * rewrite Hlen, length_app. simpl. lia.
Qed.

(** X28. [_parse_zones] makes one zone of each non-blank comma-separated
    part, in order.  A part with [=] gives the stripped text before the
    first [=] as name and the stripped rest as endpoint.  A part without it
    is the endpoint itself; its name is the host up to the first dot, or
    [zoneN] where N counts the parts without [=] up to and including this
    one, whether or not the earlier ones had a host. *)
Theorem parse_zones_part_by_part (raw : string) :
  List.length (_parse_zones raw) = List.length (zone_parts raw) /\
  forall pre p post,
    zone_parts raw = pre ++ p :: post ->
    nth_error (_parse_zones raw) (List.length pre)
    = Some (zone_of_part (List.length (filter is_unnamed pre)) p).
Proof.
  unfold _parse_zones.
  destruct (parse_zones_fold (zone_parts raw)) as (zs & -> & Hlen & Hnth).
  simpl. auto.
Qed.

Lemma zone_parts_stripped (raw p : string) :
  In p (zone_parts raw) -> stripped p /\ p <> EmptyString.
Proof.
  unfold zone_parts. intros H. apply filter_In in H. destruct H as [Hin Ht].
  apply in_map_iff in Hin. destruct Hin as (q & <- & _).
  split; [apply strip_space_stripped|].
  unfold truthy_str in Ht. destruct (String.eqb_spec (strip_space q) EmptyString);
    [discriminate|assumption].
Qed.

(** X29. Every endpoint that [_parse_zones] returns is free of whitespace at
    both ends, and so is every name taken from a [name=url] part; the
    endpoint of a part without [=] is not empty. *)
Theorem parsed_zones_are_stripped (raw : string) (z : string * string) :
  In z (_parse_zones raw) ->
  stripped (snd z) /\
  exists p,
    In p (zone_parts raw) /\
    (contains "=" p = true /\ stripped (fst z) \/
     contains "=" p = false /\ snd z = p /\ snd z <> EmptyString).
Proof.
  intros Hin. unfold _parse_zones in Hin.
  destruct (parse_zones_fold (zone_parts raw)) as (zs & Hfold & Hlen & Hnth).
  rewrite Hfold in Hin. simpl in Hin.
  apply In_nth_error in Hin. destruct Hin as (i & Hi).
  assert (Hlt : (i < List.length (zone_parts raw))%nat).
  { rewrite <- Hlen. apply nth_error_Some. congruence. }
  destruct (nth_error (zone_parts raw) i) as [p|] eqn:Hp.
  2:{ apply nth_error_None in Hp. lia. }
  apply nth_error_split in Hp. destruct Hp as (pre & post & Hparts & Hpre).
  specialize (Hnth pre p post Hparts). rewrite Hpre, Hi in Hnth. injection Hnth as ->.
  assert (Hinp : In p (zone_parts raw)) by (rewrite Hparts; apply in_elt).
  destruct (zone_parts_stripped raw p Hinp) as [Hs Hne].
  unfold zone_of_part. destruct (contains "=" p) eqn:Hc; simpl.
  - split; [apply strip_space_stripped|]. exists p. split; [exact Hinp|].
    left. split; [exact Hc|apply strip_space_stripped].
  - split; [exact Hs|]. exists p. auto.
Qed.

(** ** Writing zones and reading them back *)

Lemma contains_append (c : ascii) (a b : string) :
  contains c (a ++ b) = (contains c a || contains c b)%bool.
Proof.
  induction a as [|x a IH]; simpl; [reflexivity|].
  rewrite IH, orb_assoc. reflexivity.
Qed.

Lemma split_on_nonempty (c : ascii) (s : string) : split_on c s <> [].
Proof.
  induction s as [|a s IH]; simpl; [discriminate|].
  destruct (split_on c s); [contradiction|]. destruct (Ascii.eqb a c); discriminate.
Qed.

Lemma split_on_no_separator (c : ascii) (s : string) :
  contains c s = false -> split_on c s = [s].
Proof.
  induction s as [|a s IH]; simpl; [reflexivity|].
  intros H. apply orb_false_iff in H. destruct H as [Ha Hs].
  rewrite (IH Hs), Ha. reflexivity.
Qed.

Lemma split_on_append (c : ascii) (x rest : string) :
  contains c x = false ->
  split_on c (x ++ String c rest) = x :: split_on c rest.
Proof.
  induction x as [|a x IH]; simpl; intros H.
  - rewrite Ascii.eqb_refl. pose proof (split_on_nonempty c rest).
    destruct (split_on c rest); [contradiction|reflexivity].
  - apply orb_false_iff in H. destruct H as [Ha Hx].
    rewrite (IH Hx), Ha. reflexivity.
Qed.

Lemma split_on_concat (c : ascii) (l : list string) :
  l <> [] ->
  (forall s, In s l -> contains c s = false) ->
  split_on c (String.concat (String c EmptyString) l) = l.
Proof.
  induction l as [|x l IH]; [contradiction|]. intros _ H.
  destruct l as [|y l].
  - simpl. apply split_on_no_separator. apply H. simpl; auto.
  - change (String.concat (String c EmptyString) (x :: y :: l))
      with (x ++ String c (String.concat (String c EmptyString) (y :: l)))%string.
    rewrite split_on_append by (apply H; simpl; auto).
    rewrite IH; [reflexivity|discriminate|]. intros s Hs. apply H. simpl; auto.
Qed.

Lemma before_append (c : ascii) (n u : string) :
  contains c n = false -> before c (n ++ String c u) = n.
Proof.
  induction n as [|a n IH]; simpl; intros H.
  - rewrite Ascii.eqb_refl. reflexivity.
  - apply orb_false_iff in H. destruct H as [Ha Hn]. rewrite Ha, (IH Hn). reflexivity.
Qed.

Lemma after_append (c : ascii) (n u : string) :
  contains c n = false -> after c (n ++ String c u) = u.
Proof.
  induction n as [|a n IH]; simpl; intros H.
  - rewrite Ascii.eqb_refl. reflexivity.
  - apply orb_false_iff in H. destruct H as [Ha Hn]. rewrite Ha. exact (IH Hn).
Qed.

Lemma ends_with_space_append (a : string) (x : ascii) (b : string) :
  ends_with_space (a ++ String x b) = ends_with_space (String x b).
Proof.
  induction a as [|y a IH]; [reflexivity|].
  change ((String y a ++ String x b)%string) with (String y (a ++ String x b)).
  destruct (a ++ String x b)%string as [|a0 s] eqn:E.
  - destruct a; discriminate.
  - change (ends_with_space (String y (String a0 s)))
      with (ends_with_space (String a0 s)).
    exact IH.
Qed.

Lemma zone_text_stripped (z : string * string) :
  stripped (fst z) -> stripped (snd z) -> stripped (zone_text z).
Proof.
  unfold zone_text. intros Hn Hu. apply stripped_iff in Hn, Hu. apply stripped_iff.
  destruct Hn as [Hns _], Hu as [_ Hue]. split.
  - destruct (fst z); simpl; [reflexivity|exact Hns].
  - change (fst z ++ "=" ++ snd z)%string with (fst z ++ String "=" (snd z))%string.
    rewrite ends_with_space_append.
    destruct (snd z); [reflexivity|exact Hue].
Qed.

Lemma parse_written_zone (acc : list (string * string)) (n : nat) (z : string * string) :
  writable z -> parse_zone (acc, n) (zone_text z) = (acc ++ [z], n).
Proof.
  intros (Hn & Hu & _ & Heq & _). unfold parse_zone, zone_text. simpl.
  change (fst z ++ "=" ++ snd z)%string with (fst z ++ String "=" (snd z))%string.
  rewrite contains_append. simpl. rewrite orb_true_r.
  rewrite before_append, after_append by exact Heq.
  unfold stripped in Hn, Hu. rewrite Hn, Hu. destruct z; reflexivity.
Qed.

Lemma parse_written_zones (zones : list (string * string)) :
  (forall z, In z zones -> writable z) ->
  forall acc n,
    fold_left parse_zone (map zone_text zones) (acc, n) = (acc ++ zones, n).
Proof.
  induction zones as [|z zones IH]; simpl; intros H acc n.
  - rewrite app_nil_r. reflexivity.
  - rewrite parse_written_zone by auto. rewrite IH by auto.
    rewrite <- app_assoc. reflexivity.
Qed.

Lemma zone_parts_of_written (zones : list (string * string)) :
  (forall z, In z zones -> writable z) ->
  zone_parts (String.concat "," (map zone_text zones)) = map zone_text zones.
Proof.
  intros H. unfold zone_parts. destruct zones as [|z0 zones']; [reflexivity|].
  rewrite split_on_concat.
  - set (zones := z0 :: zones') in *. clearbody zones.
    induction zones as [|z zones IH]; [reflexivity|]. simpl.
    destruct (H z (or_introl eq_refl)) as (Hn & Hu & _).
    pose proof (zone_text_stripped z Hn Hu) as Hs. unfold stripped in Hs. rewrite Hs.
    assert (Ht : truthy_str (zone_text z) = true).
    { unfold zone_text. destruct (fst z); reflexivity. }
    rewrite Ht. f_equal. apply IH. intros z' Hz'. apply H. simpl; auto.
  - discriminate.
  - intros s Hs. apply in_map_iff in Hs. destruct Hs as (z & <- & Hz).
    destruct (H z Hz) as (_ & _ & Hcn & _ & Hcu). unfold zone_text.
    rewrite !contains_append, Hcn, Hcu. reflexivity.
Qed.

(** X30. Zones written as [name=url] and joined by commas are read back as
    they were, in order, provided each name and each endpoint has no
    whitespace at its ends and no comma, and no name holds [=]; an endpoint
    may hold [=]. *)
Theorem parse_zones_round_trip (zones : list (string * string)) :
  (forall z, In z zones -> writable z) ->
  _parse_zones (String.concat "," (map zone_text zones)) = zones.
Proof.
  intros H. unfold _parse_zones.
  rewrite (zone_parts_of_written zones H), (parse_written_zones zones H). reflexivity.
Qed.

End ConfigProperties.

(** * The claims on the sample stores *)

Local Open Scope string_scope.

Lemma sample_zones_unique : NoDup (map fst sample_zones).
Proof.
  simpl. repeat constructor; simpl; intuition discriminate.
Qed.

(** C1. The call on zone2 raises a [ClientError] without message; zone1 holds
    a version.  The report says [consistent = true]. *)
Theorem failed_fetch_without_message_leaves_consistent_true :
  exists response r,
    store_error_without_message "https://zone2.example.com" "bkt" "a.txt"
    = Raise (ClientError response) /\
    consistency_check sample_zones None store_error_without_message
      "a.txt" "zone1" (Some "bkt") = Return r /\
    consistent r = true.
Proof.
  do 2 eexists. split; [reflexivity|]. split; [vm_compute; reflexivity|]. reflexivity.
Qed.

(** C6. On the same input the row of zone2 has no error and the state
    [Missing]. *)
Theorem failed_fetch_without_message_is_reported_Missing :
  exists response r row,
    store_error_without_message "https://zone2.example.com" "bkt" "a.txt"
    = Raise (ClientError response) /\
    consistency_check sample_zones None store_error_without_message
      "a.txt" "zone1" (Some "bkt") = Return r /\
    In row (per_zone r) /\ pz_zone row = "zone2" /\
    pz_error row = None /\ pz_state row = Missing.
Proof.
  do 3 eexists. split; [reflexivity|]. split; [vm_compute; reflexivity|].
  split; [right; left; reflexivity|]. repeat split.
Qed.

(** C5 as stated fails: zone1's latest entry is a version, and no zone is
    recommended, because that version has no [LastModified]. *)
Lemma version_without_timestamp_is_not_recommended :
  exists r,
    consistency_check sample_zones None store_version_without_timestamp
      "a.txt" "zone1" (Some "bkt") = Return r /\
    ~ recommended_absent_iff_no_version sample_zones None store_version_without_timestamp
        "a.txt" (Some "bkt") r.
Proof.
  eexists. split; [vm_compute; reflexivity|].
  unfold recommended_absent_iff_no_version. intros [H _].
  specialize (H eq_refl ("zone1", "https://zone1.example.com")
                (tag false (version_record "a.txt" (quoted "abc") None))).
  simpl in H. assert (Habs : false = true); [|discriminate].
  apply H; [left; reflexivity|]. vm_compute. reflexivity.
Qed.

(** C7 as stated fails: a request whose current zone is not configured
    returns a report. *)
Lemma unknown_current_zone_is_not_rejected :
  ~ rejects_unknown_current_zone sample_zones None store_live_and_deleted
      "a.txt" "zone9" (Some "bkt").
Proof.
  unfold rejects_unknown_current_zone. intros H.
  destruct H as (status & detail & H).
  - simpl. intuition discriminate.
  - vm_compute in H. discriminate.
Qed.

(** ** The scenarios of the specification *)

(** One zone holds a version, the other an older delete marker. *)
Example single_live_zone :
  exists r,
    consistency_check sample_zones None store_live_and_deleted
      "a.txt" "zone2" (Some "bkt") = Return r /\
    map pz_state (per_zone r) = [Latest; Outdated] /\
    recommended_download_zone r = Some "zone1" /\
    consistent r = true /\
    current_zone_latest_is_delete_marker r = true.
Proof.
  eexists. split; [vm_compute; reflexivity|]. repeat split.
Qed.

(** No zone holds a record of the key. *)
Example all_zones_empty :
  exists r,
    consistency_check sample_zones None (fun _ _ _ => respond [] [])
      "a.txt" "zone1" (Some "bkt") = Return r /\
    map pz_state (per_zone r) = [Missing; Missing] /\
    recommended_download_zone r = None /\
    consistent r = false.
Proof.
  eexists. split; [vm_compute; reflexivity|]. repeat split.
Qed.

(** The same ETag in both zones, written within the same second. *)
Example consistent_replication :
  exists r,
    consistency_check sample_zones None store_same_second
      "a.txt" "zone1" (Some "bkt") = Return r /\
    map pz_state (per_zone r) = [Latest; Latest] /\
    recommended_download_zone r = Some "zone1" /\
    consistent r = true.
Proof.
  eexists. split; [vm_compute; reflexivity|]. repeat split.
Qed.

(** Different ETags written within the same second. *)
Example divergent_content :
  exists r,
    consistency_check sample_zones None store_divergent
      "a.txt" "zone1" (Some "bkt") = Return r /\
    map pz_state (per_zone r) = [Latest; Latest] /\
    consistent r = false.
Proof.
  eexists. split; [vm_compute; reflexivity|]. repeat split.
Qed.

(** A zone whose call raises a [ClientError] with a message. *)
Example failed_zone_is_Unknown :
  exists r,
    consistency_check sample_zones None store_error_with_message
      "a.txt" "zone1" (Some "bkt") = Return r /\
    map pz_state (per_zone r) = [Latest; Unknown] /\
    map pz_error (per_zone r) = [None; Some "Access Denied"] /\
    consistent r = false.
Proof.
  eexists. split; [vm_compute; reflexivity|]. repeat split.
Qed.

(** No bucket in the request and no default. *)
Example no_target_bucket :
  consistency_check sample_zones None store_live_and_deleted "a.txt" "zone1" None
  = Raise (HTTPException 400 "Missing 'bucket' and no BUCKET default set.").
Proof. reflexivity. Qed.

(** Two records of the key in one zone, one without [LastModified]: the
    sort raises, and the route does not catch it. *)
Example unordered_records_abort_the_request :
  consistency_check sample_zones None
    (fun _ _ _ => respond [version_record "a.txt" (quoted "abc") (at_time 100 0)]
                          [marker_record "a.txt" None])
    "a.txt" "zone1" (Some "bkt")
  = Raise TypeError.
Proof. vm_compute. reflexivity. Qed.

(** ** Instances *)

Lemma zone_with_entry_is_Latest_iff_same_second_witness :
  exists r,
    consistency_check sample_zones None store_same_second
      "a.txt" "zone1" (Some "bkt") = Return r /\
    exists row g,
      In row (per_zone r) /\ pz_zone row = "zone2" /\
      pz_latest row
      = entry_to_brief
          (Some (tag false (version_record "a.txt" (quoted "xyz") (at_time 100 100000)))) /\
      global_latest sample_zones None store_same_second "a.txt" (Some "bkt") = Return g /\
      (pz_state row = Latest <->
       exists t gz ge tg,
         entry_LastModified
           (tag false (version_record "a.txt" (quoted "xyz") (at_time 100 100000)))
         = Some t /\
         g = Some (gz, ge) /\ entry_LastModified ge = Some tg /\
         replace_microsecond0 t = replace_microsecond0 tg) /\
      (pz_state row <> Latest -> pz_state row = Outdated).
Proof.
  eexists. split; [vm_compute; reflexivity|].
  eapply (zone_with_entry_is_Latest_iff_same_second sample_zones None
            store_same_second "a.txt" "zone1" (Some "bkt") _
            "zone2" "https://zone2.example.com").
  - exact sample_zones_unique.
  - vm_compute. reflexivity.
  - simpl. auto.
  - reflexivity.
  - vm_compute. reflexivity.
Defined.

Lemma zone_without_entry_is_Latest_or_Missing_witness :
  exists r,
    consistency_check sample_zones None store_deleted_and_empty
      "a.txt" "zone1" (Some "bkt") = Return r /\
    exists row g,
      In row (per_zone r) /\ pz_zone row = "zone2" /\
      pz_latest row = None /\ pz_error row = None /\
      global_latest sample_zones None store_deleted_and_empty "a.txt" (Some "bkt") = Return g /\
      pz_state row = match g with
                     | Some (_, ge) => if IsDeleteMarker ge then Latest else Missing
                     | None => Missing
                     end.
Proof.
  eexists. split; [vm_compute; reflexivity|].
  eapply (zone_without_entry_is_Latest_or_Missing sample_zones None
            store_deleted_and_empty "a.txt" "zone1" (Some "bkt") _
            "zone2" "https://zone2.example.com").
  - exact sample_zones_unique.
  - vm_compute. reflexivity.
  - simpl. auto.
  - reflexivity.
  - reflexivity.
Defined.

Lemma global_latest_is_first_maximum_witness :
  first_maximum sample_zones store_live_and_deleted false "bkt" "a.txt" "zone1"
    (tag false (version_record "a.txt" (quoted "abc") (at_time 100 250000))).
Proof.
  apply (global_latest_is_first_maximum sample_zones None store_live_and_deleted
           "a.txt" (Some "bkt")
           (Some ("zone1", tag false (version_record "a.txt" (quoted "abc")
                                        (at_time 100 250000))))).
  vm_compute. reflexivity.
Defined.

Lemma recommended_zone_is_first_maximum_of_versions_witness :
  exists r,
    consistency_check sample_zones None store_version_without_timestamp
      "a.txt" "zone1" (Some "bkt") = Return r /\
    (forall zname, recommended_download_zone r = Some zname ->
                   exists e, first_maximum sample_zones store_version_without_timestamp
                               true "bkt" "a.txt" zname e) /\
    (recommended_download_zone r = None <->
     forall z e, In z sample_zones ->
                 zone_latest store_version_without_timestamp "bkt" "a.txt" z = Some e ->
                 IsDeleteMarker e = true \/ entry_LastModified e = None).
Proof.
  eexists. split; [vm_compute; reflexivity|].
  apply (recommended_zone_is_first_maximum_of_versions sample_zones None
           store_version_without_timestamp "a.txt" "zone1" (Some "bkt")).
  vm_compute. reflexivity.
Defined.

Lemma unknown_current_zone_is_processed_witness :
  (forall otherZone,
      consistency_check sample_zones None store_live_and_deleted "a.txt" "zone9" (Some "bkt")
      = result_map (with_current_flag false)
          (consistency_check sample_zones None store_live_and_deleted
             "a.txt" otherZone (Some "bkt"))) /\
  find_zone_url sample_zones "zone9"
  = Raise (HTTPException 404 ("Zone '" ++ "zone9" ++ "' not found")).
Proof.
  apply (unknown_current_zone_is_processed sample_zones None store_live_and_deleted
           "a.txt" "zone9" (Some "bkt")).
  simpl. intuition discriminate.
Defined.

Lemma records_of_other_keys_are_discarded_witness :
  consistency_check sample_zones None store_with_longer_keys "a.txt" "zone1" (Some "bkt")
  = consistency_check sample_zones None store_live_and_deleted "a.txt" "zone1" (Some "bkt").
Proof.
  apply (records_of_other_keys_are_discarded sample_zones None
           store_with_longer_keys store_live_and_deleted "a.txt").
  intros zone_url bkt. unfold store_with_longer_keys, store_live_and_deleted.
  destruct (on_zone1 zone_url); vm_compute; reflexivity.
Defined.

Lemma per_zone_follows_configured_zones_witness :
  exists r,
    consistency_check sample_zones None store_error_without_message
      "a.txt" "zone1" (Some "bkt") = Return r /\
    map pz_zone (per_zone r) = map fst sample_zones.
Proof.
  eexists. split; [vm_compute; reflexivity|].
  apply (per_zone_follows_configured_zones sample_zones None
           store_error_without_message "a.txt" "zone1" (Some "bkt")).
  - exact sample_zones_unique.
  - vm_compute. reflexivity.
Defined.

Lemma recommended_zone_holds_a_version_witness :
  exists r,
    consistency_check sample_zones None store_live_and_deleted
      "a.txt" "zone2" (Some "bkt") = Return r /\
    exists zurl resp row b,
      In ("zone1", zurl) sample_zones /\
      store_live_and_deleted zurl "bkt" "a.txt" = Return resp /\
      In row (per_zone r) /\ pz_zone row = "zone1" /\
      pz_error row = None /\ pz_state row <> Unknown /\
      pz_latest row = Some b /\ type b = Version /\ last_modified b <> None.
Proof.
  eexists. split; [vm_compute; reflexivity|].
  apply (recommended_zone_holds_a_version sample_zones None
           store_live_and_deleted "a.txt" "zone2" (Some "bkt")).
  - exact sample_zones_unique.
  - vm_compute. reflexivity.
  - reflexivity.
Defined.

(** * Instances of the further properties *)

Lemma latest_entry_for_key_first_maximum_witness :
  exists pre post,
    [tag false (version_record "a.txt" "v1" (at_time 100 0));
     tag false (version_record "a.txt" "v2" (at_time 200 0));
     tag true (marker_record "a.txt" (at_time 200 0))]
    = (pre ++ tag false (version_record "a.txt" "v2" (at_time 200 0)) :: post)%list /\
    (forall x, In x pre ->
               key_lt entry_LastModified x
                 (tag false (version_record "a.txt" "v2" (at_time 200 0)))) /\
    (forall x, In x post ->
               key_not_above entry_LastModified
                 (tag false (version_record "a.txt" "v2" (at_time 200 0))) x).
Proof.
  apply (latest_entry_for_key_first_maximum
           [tag false (version_record "a.txt" "v1" (at_time 100 0));
            tag false (version_record "a.txt" "v2" (at_time 200 0));
            tag true (marker_record "a.txt" (at_time 200 0))]).
  vm_compute. reflexivity.
Defined.

Lemma brief_etag_is_unquoted_witness :
  exists b,
    entry_to_brief
      (Some (tag false (version_record "a.txt" (quoted "abc") (at_time 100 0))))
    = Some b /\
    exists raw n m,
      ETag (version_record "a.txt" (quoted "abc") (at_time 100 0)) = Some raw /\
      raw <> EmptyString /\
      raw = replicate n quote_char ++ "abc" ++ replicate m quote_char /\
      starts_with_char quote_char "abc" = false /\
      ends_with_char quote_char "abc" = false.
Proof.
  eexists. split; [vm_compute; reflexivity|].
  apply (brief_etag_is_unquoted
           (tag false (version_record "a.txt" (quoted "abc") (at_time 100 0))) _ eq_refl).
Defined.

Lemma first_uncaught_exception_aborts_the_request_witness :
  consistency_check sample_zones None store_unreachable "a.txt" "zone1" (Some "bkt")
  = Raise (OtherException "EndpointConnectionError").
Proof.
  apply (first_uncaught_exception_aborts_the_request sample_zones None store_unreachable
           "a.txt" "zone1" (Some "bkt")
           [("zone1", "https://zone1.example.com")] []
           ("zone2", "https://zone2.example.com")).
  - reflexivity.
  - reflexivity.
  - intros z' [<-|[]]. right. eexists. split; [reflexivity|].
    intros _ v [<-|[]]. discriminate.
  - left. split; [reflexivity|]. intros response. discriminate.
Defined.

Lemma per_zone_has_one_row_per_name_witness :
  exists r,
    consistency_check shared_name_zones None store_shared_name
      "a.txt" "s3" (Some "bkt") = Return r /\
    NoDup (map pz_zone (per_zone r)) /\
    (forall n, In n (map pz_zone (per_zone r)) <-> In n (map fst shared_name_zones)) /\
    map pz_zone (per_zone r) = distinct_names (map fst shared_name_zones).
Proof.
  eexists. split; [vm_compute; reflexivity|].
  apply (per_zone_has_one_row_per_name shared_name_zones None store_shared_name
           "a.txt" "s3" (Some "bkt")).
  vm_compute. reflexivity.
Defined.

Lemma row_state_agrees_with_its_fields_witness :
  exists r row,
    consistency_check sample_zones None store_error_with_message
      "a.txt" "zone1" (Some "bkt") = Return r /\
    nth_error (per_zone r) 1 = Some row /\
    pz_state row = Unknown /\
    pz_latest row = None /\
    exists msg, pz_error row = Some msg /\ msg <> EmptyString.
Proof.
  do 2 eexists. split; [vm_compute; reflexivity|]. split; [reflexivity|].
  split; [reflexivity|].
  apply (row_state_agrees_with_its_fields sample_zones None store_error_with_message
           "a.txt" "zone1" (Some "bkt") _ _ eq_refl (or_intror (or_introl eq_refl))).
Defined.

Lemma current_zone_flag_iff_row_is_delete_marker_witness :
  exists r,
    consistency_check sample_zones None store_live_and_deleted
      "a.txt" "zone2" (Some "bkt") = Return r /\
    (current_zone_latest_is_delete_marker r = true <->
     exists row b,
       In row (per_zone r) /\ pz_zone row = "zone2" /\
       pz_latest row = Some b /\ type b = DeleteMarker).
Proof.
  eexists. split; [vm_compute; reflexivity|].
  apply (current_zone_flag_iff_row_is_delete_marker sample_zones None
           store_live_and_deleted "a.txt" "zone2" (Some "bkt")).
  vm_compute. reflexivity.
Defined.

Lemma zone_of_global_latest_is_Latest_witness :
  exists r,
    consistency_check sample_zones None store_same_second
      "a.txt" "zone1" (Some "bkt") = Return r /\
    exists row,
      In row (per_zone r) /\ pz_zone row = "zone1" /\
      pz_latest row
      = entry_to_brief
          (Some (tag false (version_record "a.txt" (quoted "xyz") (at_time 100 900000)))) /\
      pz_state row = Latest.
Proof.
  eexists. split; [vm_compute; reflexivity|].
  apply (zone_of_global_latest_is_Latest sample_zones None store_same_second
           "a.txt" "zone1" (Some "bkt")).
  - exact sample_zones_unique.
  - vm_compute. reflexivity.
  - vm_compute. reflexivity.
Defined.

Lemma recommended_zone_is_zone_of_global_latest_witness :
  exists r,
    consistency_check sample_zones None store_live_and_deleted
      "a.txt" "zone2" (Some "bkt") = Return r /\
    global_latest sample_zones None store_live_and_deleted "a.txt" (Some "bkt")
    = Return (Some ("zone1",
                    tag false (version_record "a.txt" (quoted "abc") (at_time 100 250000)))) /\
    recommended_download_zone r = Some "zone1".
Proof.
  eexists. split; [vm_compute; reflexivity|]. split; [vm_compute; reflexivity|].
  apply (recommended_zone_is_zone_of_global_latest sample_zones None
           store_live_and_deleted "a.txt" "zone2" (Some "bkt") _
           (Some ("zone1",
                  tag false (version_record "a.txt" (quoted "abc") (at_time 100 250000))))).
  - vm_compute. reflexivity.
  - vm_compute. reflexivity.
  - reflexivity.
Defined.

Lemma consistent_iff_rows_agree_witness :
  exists r,
    consistency_check sample_zones None store_divergent
      "a.txt" "zone1" (Some "bkt") = Return r /\
    (consistent r = true <->
     (forall row, In row (per_zone r) -> pz_state row <> Unknown) /\
     exists s,
       (exists row b,
           In row (per_zone r) /\ pz_latest row = Some b /\ type b = Version /\
           etag b = Some s /\ s <> EmptyString) /\
       forall row b s',
         In row (per_zone r) -> pz_latest row = Some b -> type b = Version ->
         etag b = Some s' -> s' <> EmptyString -> s' = s).
Proof.
  eexists. split; [vm_compute; reflexivity|].
  apply (consistent_iff_rows_agree sample_zones None store_divergent
           "a.txt" "zone1" (Some "bkt")).
  vm_compute. reflexivity.
Defined.

Lemma row_of_shared_name_shows_last_zone_witness :
  exists r,
    consistency_check shared_name_zones None store_shared_name
      "a.txt" "s3" (Some "bkt") = Return r /\
    (exists row,
        In row (per_zone r) /\ pz_zone row = "s3" /\
        pz_latest row
        = entry_to_brief (zone_latest store_shared_name "bkt" "a.txt"
                            ("s3", "https://s3.dc2.example.com"))) /\
    (exists first_url before_it after_it,
        find_zone_url shared_name_zones "s3" = Return first_url /\
        shared_name_zones = (before_it ++ ("s3", first_url) :: after_it)%list /\
        ~ In "s3" (map fst before_it)).
Proof.
  eexists. split; [vm_compute; reflexivity|].
  apply (row_of_shared_name_shows_last_zone shared_name_zones None store_shared_name
           "a.txt" "s3" (Some "bkt") _
           [("s3", "https://s3.dc1.example.com")] []
           ("s3", "https://s3.dc2.example.com")).
  - vm_compute. reflexivity.
  - reflexivity.
  - simpl. tauto.
Defined.

Lemma failed_zone_with_message_witness :
  exists r,
    consistency_check sample_zones None store_error_with_message
      "a.txt" "zone1" (Some "bkt") = Return r /\
    exists row,
      In row (per_zone r) /\ pz_zone row = "zone2" /\
      pz_error row = Some "Access Denied" /\
      pz_latest row = None /\ pz_state row = Unknown /\ consistent r = false.
Proof.
  eexists. split; [vm_compute; reflexivity|].
  apply (failed_zone_with_message sample_zones None store_error_with_message
           "a.txt" "zone1" (Some "bkt") _ "zone2" "https://zone2.example.com"
           {| Error := Some {| Message := IsStr "Access Denied" |} |} "Access Denied").
  - exact sample_zones_unique.
  - vm_compute. reflexivity.
  - simpl. auto.
  - reflexivity.
  - reflexivity.
  - reflexivity.
Defined.


Lemma list_objects_loops_while_truncated_witness :
  list_objects sample_zones None store_endless 1000 "zone1" "docs" (Some "bkt") = None.
Proof.
  apply (list_objects_loops_while_truncated sample_zones None store_endless
           "zone1" "https://zone1.example.com" "docs" (Some "bkt")).
  - reflexivity.
  - reflexivity.
  - intros kwargs. exists first_page, "t1". split; reflexivity.
Defined.


Lemma presigned_urls_come_from_the_client_witness :
  presign_download sample_zones None 900 sample_presigner download_payload (Some "bkt")
  = Return "https://zone1.example.com/bkt/a.txt" /\
  exists zone key zone_url,
    payload_zone download_payload = Some zone /\ zone <> EmptyString /\
    payload_key download_payload = Some key /\ key <> EmptyString /\
    truthy (py_or (Some "bkt") None) = true /\
    find_zone_url sample_zones zone = Return zone_url /\
    (presign_download sample_zones None 900 sample_presigner download_payload (Some "bkt")
     = Return "https://zone1.example.com/bkt/a.txt" ->
     sample_presigner zone_url get_object
       {| pp_Bucket := "bkt"; pp_Key := key; pp_VersionId := None;
          pp_ContentType := None |} 900
     = Return "https://zone1.example.com/bkt/a.txt") /\
    (presign_upload sample_zones None 600 sample_presigner download_payload (Some "bkt")
     = Return "https://zone1.example.com/bkt/a.txt" ->
     sample_presigner zone_url put_object
       {| pp_Bucket := "bkt"; pp_Key := key; pp_VersionId := None;
          pp_ContentType := Some "application/octet-stream" |} 600
     = Return "https://zone1.example.com/bkt/a.txt").
Proof.
  split; [vm_compute; reflexivity|].
  apply (presigned_urls_come_from_the_client sample_zones None 900 600
           sample_presigner download_payload (Some "bkt")
           "https://zone1.example.com/bkt/a.txt").
  left. vm_compute. reflexivity.
Defined.

Lemma verify_token_raises_only_401_witness :
  exists e st',
    verify_token string unreachable_issuer header_of_token accepting_decoder
      {| JWKS_CACHE := None; requests_sent := 0 |} "k1"
    = (Raise e, st') /\
    exists detail, e = HTTPException 401 detail.
Proof.
  do 2 eexists. split; [vm_compute; reflexivity|].
  apply (verify_token_raises_only_401 string unreachable_issuer header_of_token
           accepting_decoder {| JWKS_CACHE := None; requests_sent := 0 |}
           {| JWKS_CACHE := None; requests_sent := 1 |} "k1").
  vm_compute. reflexivity.
Defined.

Lemma accepted_token_was_decoded_with_a_cached_key_witness :
  verify_token string rotated_issuer header_of_token accepting_decoder warm_state "k1"
  = (Return "m1", warm_state) /\
  exists h kid j k,
    header_of_token "k1" = Success h /\ header_kid h = Some kid /\
    kid <> EmptyString /\ JWKS_CACHE warm_state = Some j /\
    In k (or_empty (jwks_keys j)) /\ jwk_kid k = Some kid /\
    accepting_decoder "k1" k = Success "m1".
Proof.
  split; [vm_compute; reflexivity|].
  apply (accepted_token_was_decoded_with_a_cached_key string rotated_issuer
           header_of_token accepting_decoder warm_state warm_state "k1" "m1").
  vm_compute. reflexivity.
Defined.

Lemma unknown_kid_refreshes_the_cache_witness :
  requests_sent
    (snd (verify_token string rotated_issuer header_of_token accepting_decoder
            warm_state "k2"))
  = S (requests_sent warm_state) /\
  JWKS_CACHE
    (snd (verify_token string rotated_issuer header_of_token accepting_decoder
            warm_state "k2"))
  = Some new_key_set /\
  fst (verify_token string rotated_issuer header_of_token accepting_decoder
         warm_state "k2")
  = Return "m2".
Proof.
  apply (unknown_kid_refreshes_the_cache string rotated_issuer header_of_token
           accepting_decoder warm_state "k2" {| header_kid := Some "k2" |} "k2"
           old_key_set).
  - reflexivity.
  - reflexivity.
  - discriminate.
  - reflexivity.
  - reflexivity.
  - reflexivity.
Defined.

Lemma parsed_zones_are_stripped_witness :
  In ("zone2", "https://zone2.example.com") (_parse_zones no_host sample_raw_zones) /\
  stripped "https://zone2.example.com" /\
  exists p,
    In p (zone_parts sample_raw_zones) /\
    (contains "=" p = true /\ stripped "zone2" \/
     contains "=" p = false /\ "https://zone2.example.com" = p /\
     "https://zone2.example.com" <> EmptyString).
Proof.
  assert (Hin : In ("zone2", "https://zone2.example.com")
                  (_parse_zones no_host sample_raw_zones))
    by (vm_compute; auto).
  split; [exact Hin|].
  exact (parsed_zones_are_stripped no_host sample_raw_zones
           ("zone2", "https://zone2.example.com") Hin).
Defined.

Lemma parse_zones_round_trip_witness :
  _parse_zones no_host (String.concat "," (map zone_text sample_zones)) = sample_zones.
Proof.
  apply (parse_zones_round_trip no_host sample_zones).
  intros z [<-|[<-|[]]]; vm_compute; repeat split.
Defined.
